(** * go-structs: a shallow embedding of the runtime struct builder

    The development follows the Go package [structs]: the builder
    [Struct] with its accessors, [DeepCopy], [ScanInto], and the
    [ValidatorMap].  The package is a thin layer over Go's [reflect]
    package, so the first half of the file is a model of the fragment of
    [reflect] the package calls: types and kinds, struct tags,
    [reflect.Value] with its addressable and read-only flags, and a heap
    for the objects reference types point to.

    Conventions.  A method with a pointer receiver takes the builder
    and returns the updated builder when it changes one.  A call is a
    function of the heap that returns or panics ([outcome]); both
    outcomes carry the heap, so that what a panic leaves behind can be
    stated.  Go names are kept; a trailing underscore marks a name that
    is reserved here ([Type_], [Set_], [String_], [Struct_]).

    The fragment.  Types are bool, int, float64, string, slices, maps,
    pointers, struct types without embedded fields, and defined types
    over these.  Field names are ASCII: [isValidFieldName] knows the
    ASCII letters and digits only, and the statements that conclude a
    panic from it are about ASCII names.  [Type.String] abbreviates
    struct types, so a panic message of [reflect] that prints one is
    not Go's text; no statement depends on such a text.  An
    [interface{}] holds nil or a value of the fragment; where the
    package switches on the dynamic type ([valueOf], [ScanInto],
    [From]) the argument is a sum over the cases.  A struct tag is
    read as [reflect.StructTag.Lookup] reads it, with the quoted value
    unquoted as [strconv.Unquote] does for the escapes modelled and
    for bytes that are not valid UTF-8. *)

From Stdlib Require Import ZArith Ascii String List Lia Bool.
From stdpp Require Import base option list strings pretty gmap.

Set Warnings "-register-all".
Open Scope string_scope.
Open Scope list_scope.

(** ** Strings

    Go strings are byte strings; [string] is a list of [ascii] bytes. *)

Module Str.

Definition dquote : ascii := "034"%char.
Definition backslash : ascii := "092"%char.
Definition newline : ascii := "010"%char.
Definition space : ascii := " "%char.

Definition byte (c : ascii) : N := N_of_ascii c.

Fixpoint contains_char (c : ascii) (s : string) : bool :=
  match s with
  | EmptyString => false
  | String d r => if Ascii.eqb c d then true else contains_char c r
  end.

Fixpoint has_prefix (p s : string) : bool :=
  match p, s with
  | EmptyString, _ => true
  | String a p', String b s' => Ascii.eqb a b && has_prefix p' s'
  | String _ _, EmptyString => false
  end.

(** [strings.Contains(s, substr)]. *)
Fixpoint Contains (s substr : string) : bool :=
  has_prefix substr s ||
  match s with
  | EmptyString => false
  | String _ r => Contains r substr
  end.

Fixpoint drop (n : nat) (s : string) : string :=
  match n, s with
  | O, _ => s
  | S n', String _ r => drop n' r
  | S _, EmptyString => EmptyString
  end.

Fixpoint take (n : nat) (s : string) : string :=
  match n, s with
  | O, _ => EmptyString
  | S n', String c r => String c (take n' r)
  | S _, EmptyString => EmptyString
  end.

Definition in_range (lo hi : N) (c : ascii) : bool :=
  (lo <=? byte c)%N && (byte c <=? hi)%N.

Definition is_lower (c : ascii) : bool := in_range 97 122 c.
Definition is_upper (c : ascii) : bool := in_range 65 90 c.
Definition is_digit (c : ascii) : bool := in_range 48 57 c.
Definition is_underscore (c : ascii) : bool := Ascii.eqb c "_"%char.

End Str.

(** ** Kinds and types *)

Inductive Kind :=
  | Invalid | Bool | Int | Float64 | String_ | Slice | Map | Ptr | Struct_.

Global Instance Kind_eq_dec : EqDecision Kind.
Proof. solve_decision. Defined.

(** [Kind.String()]. *)
Definition Kind_String (k : Kind) : string :=
  match k with
  | Invalid => "invalid" | Bool => "bool" | Int => "int"
  | Float64 => "float64" | String_ => "string" | Slice => "slice"
  | Map => "map" | Ptr => "ptr" | Struct_ => "struct"
  end.

(** Types of the modelled fragment.  [TNamed n u] is a defined type
    [type n u]; the predeclared types [bool], [int], [float64] and
    [string] are named types too.  A struct type lists its fields in
    order; a field is exported exactly when its package path is empty,
    as [reflect.StructField.IsExported] has it.  Embedded fields,
    interfaces, channels, functions and arrays are outside the
    fragment. *)
Inductive GoType :=
  | TBool | TInt | TFloat64 | TString
  | TSlice (elem : GoType)
  | TMap (key elem : GoType)
  | TPtr (elem : GoType)
  | TStruct (fields : list TField)
  | TNamed (name : string) (underlying : GoType)
with TField :=
  | mkTField (tf_name tf_pkg tf_tag : string) (tf_type : GoType).

Definition tf_name (f : TField) : string := let (n, _, _, _) := f in n.
Definition tf_pkg (f : TField) : string := let (_, p, _, _) := f in p.
Definition tf_tag (f : TField) : string := let (_, _, t, _) := f in t.
Definition tf_type (f : TField) : GoType := let (_, _, _, t) := f in t.

Fixpoint GoType_eq_dec (a b : GoType) {struct a} : {a = b} + {a <> b}
with TField_eq_dec (a b : TField) {struct a} : {a = b} + {a <> b}.
Proof.
  - decide equality; try apply string_dec.
    apply List.list_eq_dec, TField_eq_dec.
  - decide equality; apply string_dec.
Defined.

Global Instance GoType_eqdec : EqDecision GoType := GoType_eq_dec.
Global Instance TField_eqdec : EqDecision TField := TField_eq_dec.

Fixpoint underlying (t : GoType) : GoType :=
  match t with
  | TNamed _ u => underlying u
  | _ => t
  end.

(** [Type.Kind()]. *)
Definition kindOf (t : GoType) : Kind :=
  match underlying t with
  | TBool => Bool | TInt => Int | TFloat64 => Float64 | TString => String_
  | TSlice _ => Slice | TMap _ _ => Map | TPtr _ => Ptr
  | TStruct _ => Struct_
  | TNamed _ _ => Invalid
  end.

(** Fields of a type of kind [Struct]. *)
Definition struct_fields (t : GoType) : list TField :=
  match underlying t with
  | TStruct fs => fs
  | _ => []
  end.

(** The type has a name: predeclared or defined. *)
Definition hasName (t : GoType) : bool :=
  match t with
  | TBool | TInt | TFloat64 | TString | TNamed _ _ => true
  | _ => false
  end.

(** [reflect]'s [directlyAssignable(T, V)]: identical types, or
    identical underlying types when at most one of them is named. *)
Definition directlyAssignable (T V : GoType) : bool :=
  if decide (T = V) then true
  else if hasName T && hasName V then false
  else if decide (kindOf T = kindOf V) then bool_decide (underlying T = underlying V)
  else false.

(** [Type.Elem()] of a pointer, slice or map type; it panics on the
    other kinds, which is [None] here. *)
Definition Type_Elem (t : GoType) : option GoType :=
  match underlying t with
  | TPtr e | TSlice e | TMap _ e => Some e
  | _ => None
  end.

(** ** Values and the heap

    A slice is a header over a backing array that lives in the heap, a
    map and a pointer are references into the heap; a struct value holds
    its fields inline.  A slice header is the address of the backing
    array, the offset of its first element and its length (nothing
    appends here, so the capacity is left out).  [VFloat64] carries the
    IEEE-754 bit pattern.
    [VArr] and [VMapObj] are the heap objects behind slices and maps. *)
Inductive Value :=
  | VBool (b : bool)
  | VInt (n : Z)
  | VFloat64 (bits : Z)
  | VString (s : string)
  | VSlice (hdr : option (nat * nat * nat))
  | VMap (m : option nat)
  | VPtr (p : option (nat * list nat))
  | VStruct (fs : list Value)
  | VArr (elems : list Value)
  | VMapObj (entries : list (Value * Value)).

(** The heap: address [a] is the [a]-th allocated object.  Nothing is
    ever freed (Go is garbage collected). *)
Abbreviation heap := (list Value).

(** The zero value of a type. *)
Fixpoint zero (t : GoType) : Value :=
  match t with
  | TBool => VBool false
  | TInt => VInt 0
  | TFloat64 => VFloat64 0
  | TString => VString ""
  | TSlice _ => VSlice None
  | TMap _ _ => VMap None
  | TPtr _ => VPtr None
  | TStruct fs => VStruct (List.map zero_field fs)
  | TNamed _ u => zero u
  end
with zero_field (f : TField) : Value :=
  match f with mkTField _ _ _ t => zero t end.

(** Sub-object of a value along a path of field indexes. *)
Fixpoint get_path (v : Value) (p : list nat) : option Value :=
  match p with
  | [] => Some v
  | i :: p' =>
      match v with
      | VStruct fs => w ← fs !! i; get_path w p'
      | _ => None
      end
  end.

Fixpoint set_path (v : Value) (p : list nat) (x : Value) : option Value :=
  match p with
  | [] => Some x
  | i :: p' =>
      match v with
      | VStruct fs =>
          w ← fs !! i; w' ← set_path w p' x; Some (VStruct (<[i := w']> fs))
      | _ => None
      end
  end.

Definition load (h : heap) (a : nat) (p : list nat) : option Value :=
  v ← h !! a; get_path v p.

Definition store (h : heap) (a : nat) (p : list nat) (x : Value) : option heap :=
  v ← h !! a; v' ← set_path v p x; Some (<[a := v']> h).

Definition alloc (h : heap) (v : Value) : nat * heap :=
  (List.length h, h ++ [v]).

(** ** Calls that return or panic

    A call runs on the heap and either returns a result or panics with
    a message; both outcomes carry the heap as the call left it. *)
Inductive outcome (A : Type) :=
  | Ret (a : A) (h : heap)
  | Panic (msg : string) (h : heap).
Arguments Ret {A} a h.
Arguments Panic {A} msg h.

Definition M (A : Type) : Type := heap -> outcome A.

Definition ret {A} (a : A) : M A := fun h => Ret a h.
Definition panic {A} (msg : string) : M A := fun h => Panic msg h.
Definition bind {A B} (m : M A) (k : A -> M B) : M B :=
  fun h => match m h with
           | Ret a h' => k a h'
           | Panic msg h' => Panic msg h'
           end.
Definition get_heap : M heap := fun h => Ret h h.
Definition put_heap (h' : heap) : M unit := fun _ => Ret tt h'.

Declare Scope go_scope.
Delimit Scope go_scope with go.
Notation "x <- c1 ;; c2" := (bind c1 (fun x => c2))
  (at level 100, c1 at next level, right associativity) : go_scope.
Notation "c1 ;;; c2" := (bind c1 (fun _ => c2))
  (at level 100, right associativity) : go_scope.
Open Scope go_scope.

(** An interface value [interface{}]: nil, or a dynamic type with a
    value of the fragment. *)
Inductive iface :=
  | INil
  | IVal (t : GoType) (v : Value).

(** ** Struct tags: [reflect.StructTag] *)

Module StructTag.
Import Str.

Fixpoint skip_spaces (s : string) : string :=
  match s with
  | String c r => if Ascii.eqb c space then skip_spaces r else s
  | EmptyString => EmptyString
  end.

(** A key character: above space, not a colon, a quote or DEL. *)
Definition key_char (c : ascii) : bool :=
  (32 <? byte c)%N && negb (Ascii.eqb c ":"%char)
    && negb (Ascii.eqb c dquote) && negb (byte c =? 127)%N.

(** Scan to the colon: the key and what follows it. *)
Fixpoint scan_key (s : string) : string * string :=
  match s with
  | String c r =>
      if key_char c then let (k, rest) := scan_key r in (String c k, rest)
      else (EmptyString, s)
  | EmptyString => (EmptyString, EmptyString)
  end.

(** Scan a quoted string from just after its opening quote: its raw
    body and the text after the closing quote, or [None] when the
    string is not closed.  A backslash skips the next byte. *)
Fixpoint scan_quoted (s : string) : option (string * string) :=
  match s with
  | EmptyString => None
  | String c r =>
      if Ascii.eqb c dquote then Some (EmptyString, r)
      else if Ascii.eqb c backslash then
        match r with
        | EmptyString => None
        | String d r' =>
            match scan_quoted r' with
            | Some (b, rest) => Some (String c (String d b), rest)
            | None => None
            end
        end
      else
        match scan_quoted r with
        | Some (b, rest) => Some (String c b, rest)
        | None => None
        end
  end.

Definition hex_digit (c : ascii) : option N :=
  if is_digit c then Some (byte c - 48)%N
  else if in_range 97 102 c then Some (byte c - 87)%N
  else if in_range 65 70 c then Some (byte c - 55)%N
  else None.

Fixpoint hex_value (n : nat) (acc : N) (s : string) : option (N * string) :=
  match n with
  | O => Some (acc, s)
  | S n' =>
      match s with
      | EmptyString => None
      | String c r =>
          match hex_digit c with
          | Some d => hex_value n' (acc * 16 + d)%N r
          | None => None
          end
      end
  end.

Definition oct_digit (c : ascii) : option N :=
  if in_range 48 55 c then Some (byte c - 48)%N else None.

Definition chr (n : N) : ascii := ascii_of_N n.

(** [utf8.ValidRune] and the UTF-8 encoding of a rune. *)
Definition ValidRune (r : N) : bool :=
  ((r <? 55296) || ((57343 <? r) && (r <=? 1114111)))%N.

Definition utf8_encode (r : N) : string :=
  (if r <? 128 then String (chr r) EmptyString
   else if r <? 2048 then
     String (chr (192 + r / 64)) (String (chr (128 + r mod 64)) EmptyString)
   else if r <? 65536 then
     String (chr (224 + r / 4096))
       (String (chr (128 + (r / 64) mod 64))
          (String (chr (128 + r mod 64)) EmptyString))
   else
     String (chr (240 + r / 262144))
       (String (chr (128 + (r / 4096) mod 64))
          (String (chr (128 + (r / 64) mod 64))
             (String (chr (128 + r mod 64)) EmptyString))))%N.

(** One escape of a double-quoted string, from just after the
    backslash: the bytes it denotes and the rest, [None] on a syntax
    error ([strconv.UnquoteChar]). *)
Definition unquote_escape (s : string) : option (string * string) :=
  match s with
  | EmptyString => None
  | String c r =>
      let one (n : N) := Some (String (chr n) EmptyString, r) in
      if Ascii.eqb c "a"%char then one 7%N
      else if Ascii.eqb c "b"%char then one 8%N
      else if Ascii.eqb c "f"%char then one 12%N
      else if Ascii.eqb c "n"%char then one 10%N
      else if Ascii.eqb c "r"%char then one 13%N
      else if Ascii.eqb c "t"%char then one 9%N
      else if Ascii.eqb c "v"%char then one 11%N
      else if Ascii.eqb c backslash then one 92%N
      else if Ascii.eqb c dquote then one 34%N
      else if Ascii.eqb c "x"%char then
        match hex_value 2 0 r with
        | Some (v, r') => Some (String (chr v) EmptyString, r')
        | None => None
        end
      else if Ascii.eqb c "u"%char then
        match hex_value 4 0 r with
        | Some (v, r') => if ValidRune v then Some (utf8_encode v, r') else None
        | None => None
        end
      else if Ascii.eqb c "U"%char then
        match hex_value 8 0 r with
        | Some (v, r') => if ValidRune v then Some (utf8_encode v, r') else None
        | None => None
        end
      else
        match oct_digit c, r with
        | Some d1, String c2 (String c3 r') =>
            match oct_digit c2, oct_digit c3 with
            | Some d2, Some d3 =>
                let v := (d1 * 64 + d2 * 8 + d3)%N in
                if (255 <? v)%N then None
                else Some (String (chr v) EmptyString, r')
            | _, _ => None
            end
        | _, _ => None
        end
  end.

(** [utf8.DecodeRuneInString] at a byte from 128 up, by the tables
    [first] and [acceptRanges] of package [utf8]: a first byte C2..DF
    starts two bytes, E0..EF three and F0..F4 four; the second byte
    lies in 80..BF, narrowed to A0..BF after E0, 80..9F after ED,
    90..BF after F0 and 80..8F after F4; the others lie in 80..BF. *)
Definition utf8_two (c0 c1 : ascii) : bool :=
  in_range 194 223 c0 && in_range 128 191 c1.

Definition utf8_three (c0 c1 c2 : ascii) : bool :=
  ((byte c0 =? 224)%N && in_range 160 191 c1
   || (in_range 225 236 c0 || in_range 238 239 c0) && in_range 128 191 c1
   || (byte c0 =? 237)%N && in_range 128 159 c1)
  && in_range 128 191 c2.

Definition utf8_four (c0 c1 c2 c3 : ascii) : bool :=
  ((byte c0 =? 240)%N && in_range 144 191 c1
   || in_range 241 243 c0 && in_range 128 191 c1
   || (byte c0 =? 244)%N && in_range 128 143 c1)
  && in_range 128 191 c2 && in_range 128 191 c3.

(** The encoding of a rune at the head of the string and what follows
    it, [None] when the head is not the encoding of a rune. *)
Definition utf8_head (s : string) : option (string * string) :=
  match s with
  | String c0 (String c1 r1) =>
      if utf8_two c0 c1 then Some (String c0 (String c1 EmptyString), r1)
      else
        match r1 with
        | String c2 r2 =>
            if utf8_three c0 c1 c2
            then Some (String c0 (String c1 (String c2 EmptyString)), r2)
            else
              match r2 with
              | String c3 r3 =>
                  if utf8_four c0 c1 c2 c3
                  then Some (String c0 (String c1 (String c2 (String c3 EmptyString))), r3)
                  else None
              | EmptyString => None
              end
        | EmptyString => None
        end
  | _ => None
  end.

(** The encoding of U+FFFD, [utf8.RuneError]. *)
Definition RuneError : string :=
  String (chr 239) (String (chr 191) (String (chr 189) EmptyString)).

(** [utf8.ValidString]; each round consumes at least one byte. *)
Fixpoint ValidString_loop (n : nat) (s : string) : bool :=
  match n with
  | O => false
  | S n' =>
      match s with
      | EmptyString => true
      | String c r =>
          if (byte c <? 128)%N then ValidString_loop n' r
          else
            match utf8_head s with
            | Some (_, rest) => ValidString_loop n' rest
            | None => false
            end
      end
  end.

Definition ValidString (s : string) : bool :=
  ValidString_loop (S (String.length s)) s.

(** The slow path of [strconv.Unquote] on the body of a double-quoted
    string.  A byte from 128 up is decoded as a rune and the rune is
    appended: the encoding of a rune is appended as it is (decoding
    and encoding it again gives the same bytes), and a byte that
    starts no encoding is replaced by U+FFFD. *)
Fixpoint unquote_body (n : nat) (s : string) : option string :=
  match n with
  | O => None
  | S n' =>
      match s with
      | EmptyString => Some EmptyString
      | String c r =>
          if Ascii.eqb c dquote then None
          else if Ascii.eqb c backslash then
            match unquote_escape r with
            | Some (bytes, r') =>
                match unquote_body n' r' with
                | Some out => Some (String.append bytes out)
                | None => None
                end
            | None => None
            end
          else if (byte c <? 128)%N then
            match unquote_body n' r with
            | Some out => Some (String c out)
            | None => None
            end
          else
            match utf8_head s with
            | Some (enc, rest) =>
                match unquote_body n' rest with
                | Some out => Some (String.append enc out)
                | None => None
                end
            | None =>
                match unquote_body n' r with
                | Some out => Some (String.append RuneError out)
                | None => None
                end
            end
      end
  end.

(** [strconv.Unquote] of the quoted string whose body is [body]: the
    body itself when it has no backslash and is valid UTF-8, else the
    slow path; a newline is a syntax error. *)
Definition Unquote (body : string) : option string :=
  if contains_char newline body then None
  else if negb (contains_char backslash body) && negb (contains_char dquote body)
          && ValidString body
  then Some body
  else unquote_body (S (String.length body)) body.

(** The loop of [StructTag.Lookup]; each round consumes at least one
    byte of the tag, so [length tag] rounds are enough. *)
Fixpoint Lookup_loop (n : nat) (tag key : string) : option string :=
  match n with
  | O => None
  | S n' =>
      let tag := skip_spaces tag in
      if decide (tag = EmptyString) then None
      else
        let (name, rest) := scan_key tag in
        if decide (name = EmptyString) then None
        else
          match rest with
          | String c1 (String c2 body) =>
              if Ascii.eqb c1 ":"%char && Ascii.eqb c2 dquote then
                match scan_quoted body with
                | Some (raw, tag') =>
                    if decide (key = name) then Unquote raw
                    else Lookup_loop n' tag' key
                | None => None
                end
              else None
          | _ => None
          end
  end.

Definition Lookup (tag key : string) : option string :=
  Lookup_loop (String.length tag) tag key.

(** [StructTag.Get]. *)
Definition Get (tag key : string) : string :=
  default EmptyString (Lookup tag key).

End StructTag.

(** ** The [reflect] package *)

Module reflect.
Import Str.

(** [reflect.StructField].  [Type_] is [None] for a nil [reflect.Type];
    [Offset] is left out, nothing reads it. *)
Record StructField := mkStructField {
  Name : string;
  PkgPath : string;
  Type_ : option GoType;
  Tag : string;
  Index : list Z;
  Anonymous : bool
}.

(** [reflect.Value]: the zero Value, a value that holds its data and
    cannot be addressed, or an addressable place: the sub-object at
    path [p] of the heap object at [a].  [ro] is the read-only flag of
    values reached through an unexported field. *)
Inductive Val :=
  | Zero
  | Imm (t : GoType) (ro : bool) (v : Value)
  | Place (t : GoType) (ro : bool) (a : nat) (p : list nat).

Definition nil_deref : string :=
  "runtime error: invalid memory address or nil pointer dereference".

(** The message of a [*reflect.ValueError]. *)
Definition ValueError (method : string) (k : Kind) : string :=
  match k with
  | Invalid => "reflect: call of " +:+ method +:+ " on zero Value"
  | _ => "reflect: call of " +:+ method +:+ " on " +:+ Kind_String k +:+ " Value"
  end.

(** [Type.String()], with struct types abbreviated. *)
Fixpoint Type_String (t : GoType) : string :=
  match t with
  | TBool => "bool" | TInt => "int" | TFloat64 => "float64"
  | TString => "string"
  | TSlice e => "[]" +:+ Type_String e
  | TMap k e => "map[" +:+ Type_String k +:+ "]" +:+ Type_String e
  | TPtr e => "*" +:+ Type_String e
  | TStruct _ => "struct {...}"
  | TNamed n _ => n
  end.

(** [Value.Kind()], [Value.IsValid()], [Value.CanSet()]. *)
Definition Kind_ (v : Val) : Kind :=
  match v with
  | Zero => Invalid
  | Imm t _ _ | Place t _ _ _ => kindOf t
  end.

Definition IsValid (v : Val) : bool :=
  match v with Zero => false | _ => true end.

Definition CanSet (v : Val) : bool :=
  match v with Place _ ro _ _ => negb ro | _ => false end.

(** [Value.Type()]. *)
Definition TypeOfVal (v : Val) : M GoType :=
  match v with
  | Zero => panic (ValueError "reflect.Value.Type" Invalid)
  | Imm t _ _ | Place t _ _ _ => ret t
  end.

(** The data a valid value designates.  A place whose address or path
    is not in the heap cannot arise in Go; it is reported as a fault. *)
Definition read (v : Val) : M Value :=
  match v with
  | Zero => panic (ValueError "reflect.Value" Invalid)
  | Imm _ _ x => ret x
  | Place _ _ a p =>
      fun h => match load h a p with
               | Some x => Ret x h
               | None => Panic "fault: place outside the heap" h
               end
  end.

(** [Value.Elem()] of a pointer: the zero Value for a nil pointer,
    else the place pointed to, addressable, read-only as [v] is. *)
Definition Elem (v : Val) : M Val :=
  match v with
  | Zero => panic (ValueError "reflect.Value.Elem" Invalid)
  | Imm t ro _ | Place t ro _ _ =>
      match underlying t with
      | TPtr e =>
          x <- read v;;
          match x with
          | VPtr None => ret Zero
          | VPtr (Some (a, p)) => ret (Place e ro a p)
          | _ => panic "fault: pointer expected"
          end
      | _ => panic (ValueError "reflect.Value.Elem" (kindOf t))
      end
  end.

(** [Value.Field(i)]: the [i]-th field of a struct value; the field
    is read-only when it is unexported or the struct is. *)
Definition Field (v : Val) (i : Z) : M Val :=
  match v with
  | Zero => panic (ValueError "reflect.Value.Field" Invalid)
  | Imm t ro _ | Place t ro _ _ =>
      match underlying t with
      | TStruct fs =>
          if decide (0 <= i < Z.of_nat (List.length fs))%Z then
            match fs !! Z.to_nat i with
            | Some f =>
                let ro' := ro || negb (bool_decide (tf_pkg f = EmptyString)) in
                match v with
                | Place _ _ a p => ret (Place (tf_type f) ro' a (p ++ [Z.to_nat i]))
                | _ =>
                    x <- read v;;
                    match get_path x [Z.to_nat i] with
                    | Some w => ret (Imm (tf_type f) ro' w)
                    | None => panic "fault: struct value expected"
                    end
                end
            | None => panic "reflect: Field index out of range"
            end
          else panic "reflect: Field index out of range"
      | _ => panic (ValueError "reflect.Value.Field" (kindOf t))
      end
  end.

(** Index of the first field called [name]. *)
Fixpoint field_index (name : string) (fs : list TField) : option nat :=
  match fs with
  | [] => None
  | f :: fs' =>
      if decide (tf_name f = name) then Some O
      else S <$> field_index name fs'
  end.

(** [Type.FieldByName(name)] over the struct's own fields (there are no
    embedded fields to search in the fragment). *)
Definition lookup_field (t : GoType) (name : string) : option nat :=
  if decide (name = EmptyString) then None
  else field_index name (struct_fields t).

(** [Value.FieldByName(name)]: the zero Value when there is no such
    field. *)
Definition FieldByName (v : Val) (name : string) : M Val :=
  match v with
  | Zero => panic (ValueError "reflect.Value.FieldByName" Invalid)
  | Imm t _ _ | Place t _ _ _ =>
      match underlying t with
      | TStruct _ =>
          match lookup_field t name with
          | Some i => Field v (Z.of_nat i)
          | None => ret Zero
          end
      | _ => panic (ValueError "reflect.Value.FieldByName" (kindOf t))
      end
  end.

(** The loop of [Value.FieldByIndex]: after the first step a pointer
    to a struct is followed, and a nil one panics. *)
Fixpoint FieldByIndex_loop (first : bool) (v : Val) (index : list Z) : M Val :=
  match index with
  | [] => ret v
  | x :: rest =>
      v' <- (if first then ret v
             else if decide (Kind_ v = Ptr) then
               match v with
               | Zero => ret v
               | Imm t _ _ | Place t _ _ _ =>
                   match Type_Elem t with
                   | Some e =>
                       if decide (kindOf e = Struct_) then
                         w <- Elem v;;
                         match w with
                         | Zero => panic "reflect: indirection through nil pointer to embedded struct"
                         | _ => ret w
                         end
                       else ret v
                   | None => ret v
                   end
               end
             else ret v);;
      w <- Field v' x;;
      FieldByIndex_loop false w rest
  end.

(** [Value.FieldByIndex(index)].  With an empty index the loop does
    not run and the struct itself is returned. *)
Definition FieldByIndex (v : Val) (index : list Z) : M Val :=
  match index with
  | [i] => Field v i
  | _ =>
      if decide (Kind_ v = Struct_) then FieldByIndex_loop true v index
      else panic (ValueError "reflect.Value.FieldByIndex" (Kind_ v))
  end.

(** [Value.Set(x)]: [v] must be settable, [x] valid and not read-only,
    and the type of [x] assignable to the type of [v]; then the data of
    [x] is copied into the place [v]. *)
Definition Set_ (v x : Val) : M unit :=
  match v with
  | Zero => panic (ValueError "reflect.Value.Set" Invalid)
  | Imm _ ro _ =>
      if ro then panic "reflect: reflect.Value.Set using value obtained using unexported field"
      else panic "reflect: reflect.Value.Set using unaddressable value"
  | Place T ro a p =>
      if ro then panic "reflect: reflect.Value.Set using value obtained using unexported field"
      else
        match x with
        | Zero => panic (ValueError "reflect.Value.Set" Invalid)
        | Imm V rox _ | Place V rox _ _ =>
            if rox then panic "reflect: reflect.Value.Set using value obtained using unexported field"
            else if directlyAssignable T V then
              d <- read x;;
              fun h => match store h a p d with
                       | Some h' => Ret tt h'
                       | None => Panic "fault: place outside the heap" h
                       end
            else panic ("reflect.Set: value of type " +:+ Type_String V
                        +:+ " is not assignable to type " +:+ Type_String T)
        end
  end.

(** [Value.Interface()]. *)
Definition Interface (v : Val) : M iface :=
  match v with
  | Zero => panic (ValueError "reflect.Value.Interface" Invalid)
  | Imm t ro _ | Place t ro _ _ =>
      if ro then panic "reflect.Value.Interface: cannot return value obtained from unexported field or method"
      else x <- read v;; ret (IVal t x)
  end.

(** [Value.Addr()]. *)
Definition Addr (v : Val) : M Val :=
  match v with
  | Place t ro a p => ret (Imm (TPtr t) ro (VPtr (Some (a, p))))
  | Zero => panic (ValueError "reflect.Value.Addr" Invalid)
  | Imm _ _ _ => panic "reflect.Value.Addr of unaddressable value"
  end.

(** [reflect.ValueOf] and [reflect.TypeOf]. *)
Definition ValueOf (i : iface) : Val :=
  match i with
  | INil => Zero
  | IVal t v => Imm t false v
  end.

Definition TypeOf (i : iface) : option GoType :=
  match i with
  | INil => None
  | IVal t _ => Some t
  end.

(** [reflect.New(typ)]: a pointer to a fresh zero value. *)
Definition New (typ : option GoType) : M Val :=
  match typ with
  | None => panic "reflect: New(nil)"
  | Some t =>
      fun h => let (a, h') := alloc h (zero t) in
               Ret (Imm (TPtr t) false (VPtr (Some (a, [])))) h'
  end.

(** Methods of a [reflect.Type] held in an interface: calling one on
    the nil interface is a nil dereference. *)
Definition Type_Kind (t : option GoType) : M Kind :=
  match t with
  | None => panic nil_deref
  | Some t => ret (kindOf t)
  end.

Definition Type_ElemOf (t : option GoType) : M (option GoType) :=
  match t with
  | None => panic nil_deref
  | Some t =>
      match Type_Elem t with
      | Some e => ret (Some e)
      | None => panic ("reflect: Elem of invalid type " +:+ Type_String t)
      end
  end.

Definition Type_NumField (t : option GoType) : M nat :=
  match t with
  | None => panic nil_deref
  | Some t =>
      match underlying t with
      | TStruct fs => ret (List.length fs)
      | _ => panic ("reflect: NumField of non-struct type " +:+ Type_String t)
      end
  end.

(** [Type.Field(i)]: the descriptor of the [i]-th field. *)
Definition Type_Field (t : option GoType) (i : Z) : M StructField :=
  match t with
  | None => panic nil_deref
  | Some t =>
      match underlying t with
      | TStruct fs =>
          if decide (0 <= i < Z.of_nat (List.length fs))%Z then
            match fs !! Z.to_nat i with
            | Some f =>
                ret {| Name := tf_name f; PkgPath := tf_pkg f;
                       Type_ := Some (tf_type f); Tag := tf_tag f;
                       Index := [i]; Anonymous := false |}
            | None => panic "reflect: Field index out of bounds"
            end
          else panic "reflect: Field index out of bounds"
      | _ => panic ("reflect: Field of non-struct type " +:+ Type_String t)
      end
  end.

(** [isValidFieldName]: a Go identifier.  Only ASCII letters are
    letters here; field names with letters beyond ASCII are outside the
    fragment. *)
Definition isLetter (c : ascii) : bool :=
  is_lower c || is_upper c || is_underscore c.

Fixpoint all_ident_chars (s : string) : bool :=
  match s with
  | EmptyString => true
  | String c r => (isLetter c || is_digit c) && all_ident_chars r
  end.

Definition isValidFieldName (fieldName : string) : bool :=
  match fieldName with
  | EmptyString => false
  | String c r => isLetter c && all_ident_chars r
  end.

Definition quoted (s : string) : string :=
  String dquote s +:+ String dquote EmptyString.

(** The loop of [reflect.StructOf] over the descriptors: [i] is the
    position, [pkgpath] the package path met so far, [seen] the names
    so far.  A descriptor is rejected when its name is empty or not an
    identifier, its type is nil, it looks unexported (lower case or
    underscore first) without a package path, its package path differs
    from an earlier one, or its name is a duplicate.  An embedded
    descriptor is rejected too: embedded fields are outside the
    fragment, and the builder never passes one. *)
Fixpoint StructOf_loop (i : nat) (pkgpath : string) (seen : list string)
    (fields : list StructField) : string + list TField :=
  match fields with
  | [] => inr []
  | field :: rest =>
      let pos := "reflect.StructOf: field " +:+ pretty i in
      match Name field with
      | EmptyString => inl (pos +:+ " has no name")
      | String c _ =>
          if negb (isValidFieldName (Name field)) then inl (pos +:+ " has invalid name")
          else
            match Type_ field with
            | None => inl (pos +:+ " has no type")
            | Some ft =>
                let fname := "reflect.StructOf: field " +:+ quoted (Name field) in
                if Anonymous field && negb (bool_decide (PkgPath field = EmptyString))
                then inl (fname +:+ " is anonymous but has PkgPath set")
                else if bool_decide (PkgPath field = EmptyString)
                        && (is_lower c || is_underscore c)
                then inl (fname +:+ " is unexported but missing PkgPath")
                else if negb (bool_decide (PkgPath field = EmptyString))
                        && negb (bool_decide (pkgpath = EmptyString))
                        && negb (bool_decide (pkgpath = PkgPath field))
                then inl ("reflect.Struct: fields with different PkgPath "
                          +:+ pkgpath +:+ " and " +:+ PkgPath field)
                else if Anonymous field
                then inl (fname +:+ " is embedded")
                else if bool_decide (Name field ∈ seen)
                        && negb (bool_decide (Name field = "_"))
                then inl ("reflect.StructOf: duplicate field " +:+ Name field)
                else
                  let pkgpath' :=
                    if bool_decide (PkgPath field = EmptyString) then pkgpath
                    else PkgPath field in
                  match StructOf_loop (S i) pkgpath' (Name field :: seen) rest with
                  | inl e => inl e
                  | inr fs =>
                      inr (mkTField (Name field) (PkgPath field) (Tag field) ft :: fs)
                  end
            end
      end
  end.

(** [reflect.StructOf(fields)]: the unnamed struct type with these
    fields; identical field lists give identical types. *)
Definition StructOf (fields : list StructField) : M GoType :=
  match StructOf_loop 0 EmptyString [] fields with
  | inl e => panic e
  | inr fs => ret (TStruct fs)
  end.

(** [Type.Comparable()]. *)
Fixpoint Comparable (t : GoType) : bool :=
  match t with
  | TBool | TInt | TFloat64 | TString | TPtr _ => true
  | TSlice _ | TMap _ _ => false
  | TStruct fs => forallb Comparable_field fs
  | TNamed _ u => Comparable u
  end
with Comparable_field (f : TField) : bool :=
  match f with mkTField _ _ _ t => Comparable t end.

End reflect.

(** ** The package [structs] *)

Import reflect.

(** Go's [error]: nil or a message. *)
Definition error := option string.

Definition IsRequired (field : StructField) : bool :=
  Str.Contains (StructTag.Get (Tag field) "structs") "required".

(** The builder.  [sstruct] is the nil [reflect.Type] and
    [structValue] the zero [reflect.Value] until the first [Make]. *)
Record Struct := mkStruct {
  tag : string;
  fieldsByName : list StructField;
  sstruct : option GoType;
  structValue : Val;
  made : bool
}.

Definition New (tag : string) : Struct :=
  {| tag := tag; fieldsByName := []; sstruct := None;
     structValue := Zero; made := false |}.

Definition checkMade (s : Struct) (msg : string) : M unit :=
  if negb (made s) then panic msg else ret tt.

Definition FieldByName (s : Struct) (name : string) : M Val :=
  checkMade s "Cannot get field by name if struct has not been made";;;
  reflect.FieldByName (structValue s) name.

Definition Field (s : Struct) (index : Z) : M StructField :=
  checkMade s "Cannot get field by index if struct has not been made";;;
  Type_Field (sstruct s) index.

Definition IsValid (s : Struct) : bool :=
  made s && reflect.IsValid (structValue s).

Definition NumField (s : Struct) : M nat :=
  if negb (made s) then ret O else Type_NumField (sstruct s).

Definition NumUninitializedField (s : Struct) : nat :=
  List.length (fieldsByName s).

Definition Interface (s : Struct) : M iface :=
  checkMade s "Cannot get interface if struct has not been made";;;
  reflect.Interface (structValue s).

Definition PtrTo (s : Struct) : M iface :=
  checkMade s "Cannot get pointer to if struct has not been made";;;
  p <- Addr (structValue s);;
  reflect.Interface p.

(** The argument of [valueOf] by the cases of its type switch: the
    dynamic value is a [reflect.Value], or anything else. *)
Inductive value_arg :=
  | ReflectValue (v : Val)
  | OtherValue (i : iface).

Definition valueOf (v : value_arg) : Val :=
  match v with
  | ReflectValue rv => rv
  | OtherValue i => ValueOf i
  end.

(** [if v.Kind() == reflect.Ptr { v = v.Elem() }] *)
Definition elem_if_ptr (v : Val) : M Val :=
  if decide (Kind_ v = Ptr) then Elem v else ret v.

Definition SetField (s : Struct) (name : string) (value : value_arg) : M unit :=
  checkMade s "Cannot set field if struct has not been made";;;
  field <- reflect.FieldByName (structValue s) name;;
  if negb (reflect.IsValid field) then
    panic ("Field " +:+ name +:+ " does not exist")
  else
    valueOf <- elem_if_ptr (valueOf value);;
    if negb (bool_decide (Kind_ field = Kind_ valueOf)) then
      panic ("Cannot set field " +:+ name +:+ " with value of type "
             +:+ Kind_String (Kind_ valueOf))
    else Set_ field valueOf.

Definition SetFieldByIndex (s : Struct) (index : Z) (value : value_arg) : M unit :=
  checkMade s "Cannot set field if struct has not been made";;;
  field <- reflect.Field (structValue s) index;;
  if negb (reflect.IsValid field) then
    panic ("Field " +:+ pretty index +:+ " does not exist")
  else
    valueOf <- elem_if_ptr (valueOf value);;
    if negb (bool_decide (Kind_ field = Kind_ valueOf)) then
      panic ("Cannot set field " +:+ pretty index +:+ " with value of type "
             +:+ Kind_String (Kind_ valueOf))
    else Set_ field valueOf.

(** [required] is the variadic [required ...bool]. *)
Definition AddField (s : Struct) (absolute_name enc_name : string)
    (typeOf : option GoType) (required : list bool) : M Struct :=
  if decide (absolute_name = EmptyString) then panic "Field name cannot be empty"
  else
    let enc_name :=
      if decide (enc_name = EmptyString) then absolute_name else enc_name in
    if existsb (fun field => bool_decide (Name field = absolute_name)) (fieldsByName s)
    then panic ("Field " +:+ absolute_name +:+ " already exists")
    else
      let tag0 := tag s +:+ ":" +:+ quoted enc_name in
      let tag1 :=
        match required with
        | true :: _ => tag0 +:+ " structs:" +:+ quoted "required"
        | _ => tag0
        end in
      let field :=
        {| Name := absolute_name; PkgPath := EmptyString; Type_ := typeOf;
           Tag := tag1; Index := []; Anonymous := false |} in
      ret {| tag := tag s; fieldsByName := fieldsByName s ++ [field];
             sstruct := sstruct s; structValue := structValue s;
             made := false |}.

Definition AddStructField (s : Struct) (field : StructField) : M Struct :=
  if decide (Name field = EmptyString) then panic "Field name cannot be empty"
  else if existsb (fun f => bool_decide (Name f = Name field)) (fieldsByName s)
  then panic ("Field " +:+ Name field +:+ " already exists")
  else if Anonymous field then panic "Cannot add anonymous field"
  else
    ret {| tag := tag s; fieldsByName := fieldsByName s ++ [field];
           sstruct := sstruct s; structValue := structValue s;
           made := false |}.

Definition StringField (s : Struct) (absolute_name name : string) (required : list bool) : M Struct :=
  AddField s absolute_name name (Some TString) required.

Definition IntField (s : Struct) (absolute_name name : string) (required : list bool) : M Struct :=
  AddField s absolute_name name (Some TInt) required.

Definition FloatField (s : Struct) (absolute_name name : string) (required : list bool) : M Struct :=
  AddField s absolute_name name (Some TFloat64) required.

Definition BoolField (s : Struct) (absolute_name name : string) (required : list bool) : M Struct :=
  AddField s absolute_name name (Some TBool) required.

Definition SliceField (s : Struct) (absolute_name name : string) (typeOf : GoType)
    (required : list bool) : M Struct :=
  AddField s absolute_name name (Some (TSlice typeOf)) required.

Definition MapField (s : Struct) (absolute_name name : string)
    (typeOfKey typeOfValue : GoType) (required : list bool) : M Struct :=
  if negb (Comparable typeOfKey) then
    panic ("Map key type " +:+ Type_String typeOfKey +:+ " is not comparable")
  else AddField s absolute_name name (Some (TMap typeOfKey typeOfValue)) required.

Definition StructField_ (s : Struct) (absolute_name name : string) (other : Struct)
    (required : list bool) : M Struct :=
  AddField s absolute_name name (sstruct other) required.

Definition GetField (s : Struct) (name : string) : M iface :=
  checkMade s "Cannot get field if struct has not been made";;;
  field <- reflect.FieldByName (structValue s) name;;
  if negb (reflect.IsValid field) then
    panic ("Field " +:+ name +:+ " does not exist")
  else reflect.Interface field.

Definition set_type (s : Struct) (t : GoType) : Struct :=
  {| tag := tag s; fieldsByName := fieldsByName s; sstruct := Some t;
     structValue := structValue s; made := true |}.

Definition set_value (s : Struct) (v : Val) : Struct :=
  {| tag := tag s; fieldsByName := fieldsByName s; sstruct := sstruct s;
     structValue := v; made := made s |}.

Definition Make (s : Struct) : M Struct :=
  s1 <- (if negb (made s) then
           t <- StructOf (fieldsByName s);;
           ret (set_type s t)
         else ret s);;
  if made s1 then
    NewOf <- reflect.New (sstruct s1);;
    e <- Elem NewOf;;
    ret (set_value s1 e)
  else ret s1.

Definition Remake (s : Struct) : M Struct :=
  Make {| tag := tag s; fieldsByName := fieldsByName s; sstruct := sstruct s;
          structValue := structValue s; made := false |}.

(** The first loop of [DeepCopy]: one [AddField] per descriptor. *)
Fixpoint DeepCopy_fields (tag_s : string) (fields : list StructField)
    (newStruct : Struct) : M Struct :=
  match fields with
  | [] => ret newStruct
  | field :: rest =>
      newStruct' <- AddField newStruct (Name field) (StructTag.Get (Tag field) tag_s)
                      (Type_ field)
                      [bool_decide (StructTag.Get (Tag field) "structs" = "required")];;
      DeepCopy_fields tag_s rest newStruct'
  end.

(** The second loop of [DeepCopy]: one [Set] per descriptor. *)
Fixpoint DeepCopy_values (s newStruct : Struct) (fields : list StructField) : M unit :=
  match fields with
  | [] => ret tt
  | field :: rest =>
      newFieldByIndex <- FieldByIndex (structValue newStruct) (Index field);;
      newFieldByIndex <- elem_if_ptr newFieldByIndex;;
      fieldByIndex <- FieldByIndex (structValue s) (Index field);;
      fieldByIndex <- elem_if_ptr fieldByIndex;;
      if negb (bool_decide (Kind_ fieldByIndex = Kind_ newFieldByIndex)) then
        panic ("Cannot deep copy field " +:+ Name field
               +:+ ", because the types are different")
      else if negb (CanSet newFieldByIndex) then
        panic ("Cannot deep copy field " +:+ Name field
               +:+ ", because it cannot be set")
      else
        Set_ newFieldByIndex fieldByIndex;;;
        DeepCopy_values s newStruct rest
  end.

Definition DeepCopy (s : Struct) : M Struct :=
  checkMade s "Cannot deep copy if struct has not been made";;;
  newStruct <- DeepCopy_fields (tag s) (fieldsByName s) (New (tag s));;
  newStruct <- Make newStruct;;
  DeepCopy_values s newStruct (fieldsByName s);;;
  ret newStruct.

(** The loop of [scanInto]: [i] is the loop counter and [n] the number
    of rounds left, [numFields - i]. *)
Fixpoint scanInto_loop (typeOfSource : option GoType)
    (valueOfSource valueOfDestElem : Val) (fields : list string)
    (i : Z) (n : nat) : M unit :=
  match n with
  | O => ret tt
  | S n' =>
      let continue :=
        scanInto_loop typeOfSource valueOfSource valueOfDestElem fields (i + 1) n' in
      field <- Type_Field typeOfSource i;;
      let name := Name field in
      if (0 <? List.length fields)%nat
         && negb (existsb (fun f => bool_decide (f = name)) fields)
      then continue
      else
        value <- reflect.Field valueOfSource i;;
        destField <- reflect.FieldByName valueOfDestElem name;;
        if negb (reflect.IsValid destField) then continue
        else if negb (CanSet destField) then continue
        else
          dt <- TypeOfVal destField;;
          vt <- TypeOfVal value;;
          if negb (bool_decide (dt = vt)) then continue
          else Set_ destField value;;; continue
  end.

Definition scanInto (s dest : iface) (fields : list string) : M error :=
  let typeOfSource := TypeOf s in
  let valueOfSource := ValueOf s in
  let typeOfDest := TypeOf dest in
  k <- Type_Kind typeOfSource;;
  src <- (if decide (k = Ptr) then
            t <- Type_ElemOf typeOfSource;;
            v <- Elem valueOfSource;;
            ret (t, v)
          else ret (typeOfSource, valueOfSource));;
  let typeOfSource := fst src in
  let valueOfSource := snd src in
  k <- Type_Kind typeOfSource;;
  if negb (bool_decide (k = Struct_)) then ret (Some "Source is not a struct")
  else
    kd <- Type_Kind typeOfDest;;
    if negb (bool_decide (kd = Ptr)) then ret (Some "Destination is not a pointer")
    else
      de <- Type_ElemOf typeOfDest;;
      kde <- Type_Kind de;;
      if negb (bool_decide (kde = Struct_))
      then ret (Some "Destination is not a pointer to a struct")
      else
        let valueOfDest := ValueOf dest in
        valueOfDestElem <- Elem valueOfDest;;
        numFields <- Type_NumField typeOfSource;;
        scanInto_loop typeOfSource valueOfSource valueOfDestElem fields 0 numFields;;;
        ret None.

(** The source of [ScanInto] by the cases of its type switch: a
    [*Struct], or anything else. *)
Inductive scan_arg :=
  | StructPtr (s : Struct)
  | OtherSource (i : iface).

Definition ScanInto (s : scan_arg) (dest : iface) (fields : list string) : M error :=
  iFace <- match s with
           | StructPtr b => Interface b
           | OtherSource i => ret i
           end;;
  scanInto iFace dest fields.

(** [encoding/json] is not part of the package: [MarshalJSON] and
    [UnmarshalJSON] take its two entry points as parameters. *)
Section JSON.
Variable json_Marshal : iface -> M (string * error).
Variable json_Unmarshal : string -> iface -> M error.

Definition MarshalJSON (s : Struct) : M (string * error) :=
  checkMade s "Cannot marshal if struct has not been made";;;
  v <- reflect.Interface (structValue s);;
  json_Marshal v.

Definition UnmarshalJSON (s : Struct) (data : string) : M error :=
  checkMade s "Cannot unmarshal if struct has not been made";;;
  p <- Addr (structValue s);;
  v <- reflect.Interface p;;
  json_Unmarshal data v.

End JSON.

(** ** Validators ([validators.go])

    [ValidatorMap] is the map type [map[string][]func(interface{}) error]:
    a value of it is the nil map or an allocated map, and what a key
    maps to is a slice, a window on a backing array that other slices
    may share.  A validator is a Go func value; calling it runs a
    closure on the program's heap and on the backing arrays, which it
    may read and write, and returns an error or nil, or panics.  The
    methods update an allocated map in place; here they return the
    updated map.  [Validate] looks the key up once, before the first
    call, so what a validator does to the map itself does not reach
    it, and the map is no part of the world. *)
Module ValidatorMap.

(** A validator: a Go func value [func(interface{}) error], nil or a
    reference to a closure. *)
Definition func := option nat.

(** A slice value [[]func(interface{}) error] that is not nil: its
    backing array, the offset it starts at, its length and capacity.
    The nil slice is [None]. *)
Record slice := mkSlice { arr : nat; off : nat; len : nat; cap : nat }.

(** What a call of a validator can read and write: the program's heap
    and the backing arrays of validator slices. *)
Record world := mkWorld { mem : heap; arrays : list (list func) }.

Inductive result (A : Type) :=
  | Done (a : A) (w : world)
  | Panicked (msg : string) (w : world).
Arguments Done {A} a w.
Arguments Panicked {A} msg w.

(** What the closures do when they are called. *)
Definition closures := nat -> iface -> world -> result error.

(** A [ValidatorMap] value: the nil map, or an allocated map. *)
Definition t := option (gmap string (option slice)).

(** [validator(value)] *)
Definition call (code : closures) (validator : func) (value : iface)
    (w : world) : result error :=
  match validator with
  | None => Panicked nil_deref w
  | Some c => code c value w
  end.

(** [v[field]] as an expression: the nil slice for the nil map and
    for a key the map does not have. *)
Definition index (v : t) (field : string) : option slice :=
  match v with
  | None => None
  | Some m => default None (m !! field)
  end.

(** [v[field] = sl] *)
Definition assign (v : t) (field : string) (sl : option slice) (w : world)
    : result t :=
  match v with
  | None => Panicked "assignment to entry in nil map" w
  | Some m => Done (Some (<[field := sl]> m)) w
  end.

(** The elements of a slice. *)
Definition elems (w : world) (sl : option slice) : list func :=
  match sl with
  | None => []
  | Some s => take (len s) (drop (off s) (default [] (arrays w !! arr s)))
  end.

(** [append(sl, x)]: in place when the capacity allows it, else into
    a new array, whose capacity the runtime chooses ([growslice], from
    the old capacity and the length needed). *)
Definition append (growslice : nat -> nat -> nat) (sl : option slice)
    (x : func) (w : world) : option slice * world :=
  match sl with
  | Some s =>
      if (len s <? cap s)%nat then
        (Some (mkSlice (arr s) (off s) (S (len s)) (cap s)),
         mkWorld (mem w)
           (alter (fun xs => <[off s + len s := x]> xs) (arr s) (arrays w)))
      else
        let c := max (S (len s)) (growslice (cap s) (S (len s))) in
        (Some (mkSlice (List.length (arrays w)) 0 (S (len s)) c),
         mkWorld (mem w)
           (arrays w ++ [elems w sl ++ x :: replicate (c - S (len s)) None]))
  | None =>
      let c := max 1 (growslice 0 1) in
      (Some (mkSlice (List.length (arrays w)) 0 1 c),
       mkWorld (mem w) (arrays w ++ [x :: replicate (c - 1) None]))
  end.

(** [[]func(interface{}) error{validator}] *)
Definition literal (x : func) (w : world) : option slice * world :=
  (Some (mkSlice (List.length (arrays w)) 0 1 1),
   mkWorld (mem w) (arrays w ++ [[x]])).

Definition Add (growslice : nat -> nat -> nat) (v : t) (field : string)
    (validator : func) (w : world) : result t :=
  let (sl, w') := append growslice (index v field) validator w in
  assign v field sl w'.

Definition Set_ (v : t) (field : string) (validator : func) (w : world)
    : result t :=
  let (sl, w') := literal validator w in
  assign v field sl w'.


(** [for _, validator := range sl { ... }] from index [i], with [n]
    rounds to go: the length is taken once, each round reads [sl[i]]
    from the backing array as it is then. *)
Fixpoint Validate_loop (code : closures) (s : slice) (i n : nat)
    (value : iface) (w : world) : result error :=
  match n with
  | 0 => Done None w
  | S n' =>
      match arrays w !! arr s ≫= (.!! (off s + i)) with
      | None => Panicked "index out of range" w
      | Some validator =>
          match call code validator value w with
          | Done (Some e) w' => Done (Some e) w'
          | Done None w' => Validate_loop code s (S i) n' value w'
          | Panicked msg w' => Panicked msg w'
          end
      end
  end.

Definition Validate (code : closures) (v : t) (field : string)
    (value : iface) (w : world) : result error :=
  match index v field with
  | None => Done None w
  | Some s => Validate_loop code s 0 (len s) value w
  end.

End ValidatorMap.

(** ** What a client does with a slice it got from a field

    [sl[i]] and [sl[i] = x] on a slice value: both go to the backing
    array in the heap. *)
Definition index_get (sl : Value) (i : nat) : M Value :=
  match sl with
  | VSlice (Some (a, off, len)) =>
      if decide (i < len)%nat then
        fun h => match h !! a with
                 | Some (VArr elems) =>
                     match elems !! (off + i)%nat with
                     | Some x => Ret x h
                     | None => Panic "fault: slice outside its array" h
                     end
                 | _ => Panic "fault: slice without array" h
                 end
      else panic "runtime error: index out of range"
  | _ => panic "runtime error: index out of range"
  end.

Definition index_set (sl : Value) (i : nat) (x : Value) : M unit :=
  match sl with
  | VSlice (Some (a, off, len)) =>
      if decide (i < len)%nat then
        fun h => match h !! a with
                 | Some (VArr elems) =>
                     if decide (off + i < List.length elems)%nat
                     then Ret tt (<[a := VArr (<[(off + i)%nat := x]> elems)]> h)
                     else Panic "fault: slice outside its array" h
                 | _ => Panic "fault: slice without array" h
                 end
      else panic "runtime error: index out of range"
  | _ => panic "runtime error: index out of range"
  end.

(** A slice literal [[]T{x1, ..., xn}]: a fresh backing array. *)
Definition slice_lit (elems : list Value) : M Value :=
  fun h => let (a, h') := alloc h (VArr elems) in
           Ret (VSlice (Some (a, O, List.length elems))) h'.

(** ** From

    [Type.Name()] and [Type.FieldByName(name)], which only [From]
    calls, and then [From] itself. *)

(** The text after the last dot of a qualified name. *)
Fixpoint after_last_dot (s : string) : string :=
  match s with
  | EmptyString => EmptyString
  | String c r =>
      if Str.contains_char "."%char r then after_last_dot r
      else if Ascii.eqb c "."%char then r
      else s
  end.

(** [Type.Name()]: the name of a predeclared or defined type within
    its package, empty for the other types. *)
Definition Type_Name (t : option GoType) : M string :=
  match t with
  | None => panic nil_deref
  | Some (TNamed n _) => ret (after_last_dot n)
  | Some (TStruct _ | TSlice _ | TMap _ _ | TPtr _) => ret EmptyString
  | Some t => ret (Type_String t)
  end.

(** [Type.FieldByName(name)]: the descriptor of the struct's first
    field of that name and [true], or no descriptor and [false]; it
    panics on a type that is not a struct. *)
Definition Type_FieldByName (t : option GoType) (name : string)
    : M (option StructField) :=
  match t with
  | None => panic nil_deref
  | Some t =>
      match underlying t with
      | TStruct fs =>
          match lookup_field t name with
          | Some i => f <- Type_Field (Some t) (Z.of_nat i);; ret (Some f)
          | None => ret None
          end
      | _ => panic ("reflect: FieldByName of non-struct type " +:+ Type_String t)
      end
  end.

(** The first argument of [From] by the cases of its type switch: a
    [reflect.Value], a [reflect.Type], a [Struct] (by value), or
    anything else. *)
Inductive from_arg :=
  | FromValue (v : Val)
  | FromType (t : GoType)
  | FromStruct (s : Struct)
  | FromOther (i : iface).

(** The loop of [From] over the names given. *)
Fixpoint From_names (structTyp : option GoType) (tag : string)
    (fields : list string) (s : Struct) : M Struct :=
  match fields with
  | [] => ret s
  | field :: rest =>
      fo <- Type_FieldByName structTyp field;;
      match fo with
      | None =>
          name <- Type_Name structTyp;;
          panic ("Field " +:+ field +:+ " does not exist in struct " +:+ name)
      | Some f =>
          let enc_name := StructTag.Get (Tag f) tag in
          if bool_decide (enc_name = "-") then From_names structTyp tag rest s
          else
            s' <- AddField s field enc_name (Type_ f) [];;
            From_names structTyp tag rest s'
      end
  end.

(** The loop of [From] over all fields: [i] is the loop counter and
    [n] the number of rounds left. *)
Fixpoint From_all (structTyp : option GoType) (tag : string) (i : Z) (n : nat)
    (s : Struct) : M Struct :=
  match n with
  | O => ret s
  | S n' =>
      field <- Type_Field structTyp i;;
      let enc_name := StructTag.Get (Tag field) tag in
      if bool_decide (enc_name = "-") then From_all structTyp tag (i + 1) n' s
      else
        let absolute_name := Name field in
        s' <- AddField s absolute_name enc_name (Type_ field) [];;
        From_all structTyp tag (i + 1) n' s'
  end.

Definition From (v : from_arg) (tag : string) (fields : list string) : M Struct :=
  let s := New tag in
  structTyp <-
    match v with
    | FromValue v =>
        if negb (bool_decide (Kind_ v = Struct_)) then
          panic ("Cannot create struct from value of type " +:+ Kind_String (Kind_ v))
        else
          t <- TypeOfVal v;; ret (Some t)
    | FromType t =>
        if negb (bool_decide (kindOf t = Struct_)) then
          panic ("Cannot create struct from type of type " +:+ Kind_String (kindOf t))
        else
          p <- reflect.New (Some t);; Elem p;;; ret (Some t)
    | FromStruct b =>
        p <- reflect.New (sstruct b);; Elem p;;; ret (sstruct b)
    | FromOther i =>
        p <- reflect.New (TypeOf i);; Elem p;;; ret (TypeOf i)
    end;;
  if (0 <? List.length fields)%nat then From_names structTyp tag fields s
  else
    n <- Type_NumField structTyp;;
    From_all structTyp tag 0 n s.

(** ** Predicates used in the statements *)

(** A built builder and its instance: the flag is set, the
    materialized type is the struct type [reflect.StructOf] gives for
    the pending descriptors, and the instance is a settable place
    holding one value per field.  [Make] establishes this and the
    accessors keep it. *)
Definition Built (s : Struct) (h : heap) : Prop :=
  made s = true /\
  exists fs a vs,
    StructOf_loop 0 EmptyString [] (fieldsByName s) = inr fs /\
    sstruct s = Some (TStruct fs) /\
    structValue s = Place (TStruct fs) false a [] /\
    h !! a = Some (VStruct vs) /\
    List.length vs = List.length fs.

(** What Go keeps of every slice: its window lies in its backing array. *)
Definition slice_ok (w : ValidatorMap.world) (sl : option ValidatorMap.slice) : Prop :=
  match sl with
  | None => True
  | Some s =>
      exists xs, ValidatorMap.arrays w !! ValidatorMap.arr s = Some xs /\
        ValidatorMap.off s + ValidatorMap.cap s <= List.length xs /\
        ValidatorMap.len s <= ValidatorMap.cap s
  end.


(** The capacity rule of the examples: twice the length needed. *)
Definition double_cap (old needed : nat) : nat := 2 * needed.


(** A closure that, when called, stores closure 2 into slot 1 of
    backing array 0 and returns nil; closures 1 and 2 return their
    own error. *)
Definition overwriting_closures : ValidatorMap.closures := fun c _ w =>
  match c with
  | 0 => ValidatorMap.Done None
           (ValidatorMap.mkWorld (ValidatorMap.mem w)
              (alter (fun xs => <[1 := Some 2]> xs) 0 (ValidatorMap.arrays w)))
  | 1 => ValidatorMap.Done (Some "one") w
  | _ => ValidatorMap.Done (Some "two") w
  end.

(** C9 in the spec's words, for [add]: on every registry the call
    returns and the field's list is the old one with [fn] at its
    end. *)
Definition add_appends_on_every_registry : Prop :=
  forall (growslice : nat -> nat -> nat) (v : ValidatorMap.t) (field : string)
         (fn : ValidatorMap.func) (w : ValidatorMap.world),
    slice_ok w (ValidatorMap.index v field) ->
    exists v' w',
      ValidatorMap.Add growslice v field fn w = ValidatorMap.Done v' w' /\
      ValidatorMap.elems w' (ValidatorMap.index v' field)
      = ValidatorMap.elems w (ValidatorMap.index v field) ++ [fn].

(** The descriptor [AddField] appends: its tag is [tag:"enc"], with
    the internal name for an empty external name, followed by the
    [required] marker when the first variadic argument is true. *)
Definition added_field (s : Struct) (absolute_name enc_name : string)
    (typeOf : option GoType) (required : list bool) : StructField :=
  let enc := if decide (enc_name = EmptyString) then absolute_name else enc_name in
  {| Name := absolute_name; PkgPath := EmptyString; Type_ := typeOf;
     Tag := match required with
            | true :: _ =>
                (tag s +:+ ":" +:+ quoted enc) +:+ " structs:" +:+ quoted "required"
            | _ => tag s +:+ ":" +:+ quoted enc
            end;
     Index := []; Anonymous := false |}.

(** The four primitive kinds of the typed adders. *)
Definition primitive (k : Kind) : bool :=
  match k with
  | Bool | Int | Float64 | String_ => true
  | _ => false
  end.

(** The round trip with the value chosen by kind only: on a built
    Struct with a field of primitive kind, SetField with any value of
    that kind returns and GetField then gives the value back. *)
Definition roundtrip_by_kind : Prop :=
  forall (s : Struct) (h : heap) (name : string) (T : GoType) (i : nat)
         (f : TField) (t : GoType) (v : Value),
    Built s h -> sstruct s = Some T ->
    lookup_field T name = Some i -> struct_fields T !! i = Some f ->
    primitive (kindOf (tf_type f)) = true ->
    kindOf t = kindOf (tf_type f) ->
    exists h' t',
      SetField s name (OtherValue (IVal t v)) h = Ret tt h' /\
      GetField s name h' = Ret (IVal t' v) h'.

(** The record of the package's test, built: Name, Age and Is_cool. *)
Definition person : M Struct :=
  s <- StringField (New "json") "Name" "name" [true];;
  s <- IntField s "Age" "age" [true];;
  s <- BoolField s "Is_cool" "is_cool" [true];;
  Make s.

Definition person_state : Struct * heap :=
  Eval vm_compute in
    match person [] with
    | Ret s h => (s, h)
    | Panic _ h => (New EmptyString, h)
    end.

(** The fields of the built type of [person]. *)
Definition person_fields : list TField :=
  Eval vm_compute in
    match sstruct (fst person_state) with
    | Some T => struct_fields T
    | None => []
    end.

(** The descriptor of Age in the built type of [person]. *)
Definition person_Age : TField :=
  mkTField "Age" EmptyString
    ("json:" +:+ quoted "age" +:+ " structs:" +:+ quoted "required") TInt.

(** [type MyInt int] *)
Definition MyInt : GoType := TNamed "main.MyInt" TInt.

(** Make read as total: every call returns and leaves the builder
    built. *)
Definition Make_always_builds : Prop :=
  forall (s : Struct) (h : heap),
    exists s' h', Make s h = Ret s' h' /\ made s' = true.

(** A builder with the one pending field [name string]. *)
Definition lowercase_builder : Struct :=
  Eval vm_compute in
    match StringField (New "json") "name" "name" [] [] with
    | Ret s _ => s
    | Panic _ _ => New EmptyString
    end.

(** The type assertion [x.(T)] on a field value the client got. *)
Definition dynamic_value (i : iface) : M Value :=
  match i with
  | IVal _ v => ret v
  | INil => panic "interface conversion: interface is nil"
  end.

(** A record with the slice field [Tags []int], set to [[]int{1, 2}]
    and then deep-copied.  The client reads element 0 of the source's
    field, writes 9 to element 0 of the copy's field, and reads
    element 0 of the source's and of the copy's field. *)
Definition tags_scenario : M (Value * Value * Value) :=
  s <- SliceField (New "json") "Tags" "tags" TInt [];;
  s <- Make s;;
  xs <- slice_lit [VInt 1; VInt 2];;
  SetField s "Tags" (OtherValue (IVal (TSlice TInt) xs));;;
  c <- DeepCopy s;;
  before <- (f <- GetField s "Tags";; sl <- dynamic_value f;; index_get sl 0);;
  cf <- GetField c "Tags";;
  csl <- dynamic_value cf;;
  index_set csl 0 (VInt 9);;;
  after <- (f <- GetField s "Tags";; sl <- dynamic_value f;; index_get sl 0);;
  copy <- (f <- GetField c "Tags";; sl <- dynamic_value f;; index_get sl 0);;
  ret (before, after, copy).

(** The descriptor [reflect.TypeOf(T{}).Field(0)] of
    [type T struct { A int `json:"a" structs:"required,omitempty"` }]. *)
Definition tagged_descriptor : StructField :=
  {| Name := "A"; PkgPath := EmptyString; Type_ := Some TInt;
     Tag := "json:" +:+ quoted "a" +:+ " structs:" +:+ quoted "required,omitempty";
     Index := [0%Z]; Anonymous := false |}.

(** A builder with that descriptor added through AddStructField,
    built, and deep-copied: the source and the copy. *)
Definition tagged_scenario : M (Struct * Struct) :=
  s <- AddStructField (New "json") tagged_descriptor;;
  s <- Make s;;
  SetField s "A" (OtherValue (IVal TInt (VInt 7)));;;
  c <- DeepCopy s;;
  ret (s, c).

(** *** Well-formed tags *)

Fixpoint all_chars (P : ascii -> bool) (s : string) : bool :=
  match s with
  | EmptyString => true
  | String c r => P c && all_chars P r
  end.

(** A key [StructTag.Lookup] can read: not empty, of key characters. *)
Definition valid_key (k : string) : Prop :=
  k <> EmptyString /\ all_chars StructTag.key_char k = true.

(** A value that is its own quoted form: no quote, backslash or
    newline. *)
Definition plain_value (e : string) : Prop :=
  Str.contains_char Str.dquote e = false /\
  Str.contains_char Str.backslash e = false /\
  Str.contains_char Str.newline e = false.

(** A value that is valid UTF-8, which [strconv.Unquote] gives back
    as it is. *)
Definition utf8_value (e : string) : Prop := StructTag.ValidString e = true.

(** A descriptor as [AddField] makes it under the tag key [T], from
    a non-empty name and a plain encoding name. *)
Definition from_AddField (T : string) (f : StructField) : Prop :=
  exists absolute_name enc_name typeOf required,
    absolute_name <> EmptyString /\
    plain_value (if decide (enc_name = EmptyString) then absolute_name else enc_name) /\
    f = added_field (New T) absolute_name enc_name typeOf required.

(** The encoding name of C6 read as said, for every call: whenever
    AddField returns, the encoding name of the descriptor it appended,
    as [Tag.Get] reads it under the builder's tag key, is the external
    name given, or the internal name when that one is empty. *)
Definition encoding_name_as_given : Prop :=
  forall (s : Struct) (absolute_name enc_name : string) (typeOf : option GoType)
         (required : list bool) (h : heap) (s' : Struct) (h' : heap),
    AddField s absolute_name enc_name typeOf required h = Ret s' h' ->
    exists f,
      fieldsByName s' = fieldsByName s ++ [f] /\
      StructTag.Get (Tag f) (tag s)
      = if decide (enc_name = EmptyString) then absolute_name else enc_name.

(** An external name with a quote in it, the three bytes a, quote,
    b, and the one-byte name FF, which is not UTF-8. *)
Definition name_with_quote : string :=
  String "a" (String Str.dquote (String "b" EmptyString)).

Definition name_not_utf8 : string := String (StructTag.chr 255) EmptyString.

(** The same with an encoding name that is valid UTF-8: the name
    [Tag.Get] reads back is then the name given. *)
Definition from_AddField_utf8 (T : string) (f : StructField) : Prop :=
  exists absolute_name enc_name typeOf required,
    absolute_name <> EmptyString /\
    plain_value (if decide (enc_name = EmptyString) then absolute_name else enc_name) /\
    utf8_value (if decide (enc_name = EmptyString) then absolute_name else enc_name) /\
    f = added_field (New T) absolute_name enc_name typeOf required.

(** *** The field-subset scan in the spec's words *)

(** The source type after unwrapping one level of pointer. *)
Definition unwrap_ptr (t : GoType) : GoType :=
  if decide (kindOf t = Ptr) then default t (Type_Elem t) else t.



(** (a) the name is in the allowlist when one is supplied. *)
Definition allowed (fields : list string) (name : string) : Prop :=
  fields = [] \/ name ∈ fields.

(** Destination field [j] is set from source field [i]: (a) the name
    of the source field is allowed, (b) the destination's field of that
    exact name is field [j], (c) that field is writable (exported), and
    (d) the two field types are identical. *)
Definition scan_sets (fields : list string) (sfs dfs : list TField) (j i : nat) : Prop :=
  exists sf df,
    sfs !! i = Some sf /\ dfs !! j = Some df /\
    allowed fields (tf_name sf) /\
    lookup_field (TStruct dfs) (tf_name sf) = Some j /\
    tf_pkg df = EmptyString /\
    tf_type df = tf_type sf.


(** *** The loop of the scan on field values *)

(** The destination field a source field is copied to, if any; the
    tests are those of one round of the loop. *)
Definition scan_target (fields : list string) (dfs : list TField) (sf : TField)
    : option nat :=
  if (0 <? List.length fields)%nat
     && negb (existsb (fun f => bool_decide (f = tf_name sf)) fields)
  then None
  else
    match lookup_field (TStruct dfs) (tf_name sf) with
    | Some j =>
        match dfs !! j with
        | Some df =>
            if bool_decide (tf_pkg df = EmptyString)
               && bool_decide (tf_type df = tf_type sf)
            then Some j else None
        | None => None
        end
    | None => None
    end.

(** The destination's field values after the rounds for the source
    fields [sfs] with values [svs]. *)
Fixpoint scan_fold (fields : list string) (dfs sfs : list TField)
    (svs dvs : list Value) : list Value :=
  match sfs, svs with
  | sf :: sfs', sv :: svs' =>
      scan_fold fields dfs sfs' svs'
        match scan_target fields dfs sf with
        | Some j => <[j := sv]> dvs
        | None => dvs
        end
  | _, _ => dvs
  end.

(** Type and read-only flag of a [reflect.Value]. *)
Definition val_type (v : Val) : option GoType :=
  match v with
  | Zero => None
  | Imm t _ _ | Place t _ _ _ => Some t
  end.

Definition val_ro (v : Val) : bool :=
  match v with
  | Zero => false
  | Imm _ ro _ | Place _ ro _ _ => ro
  end.

(** The exported fields of a struct type have distinct names (Go
    requires it of all fields but the blank ones). *)
Definition exported_distinct (fs : list TField) : Prop :=
  forall i i' f f',
    fs !! i = Some f -> fs !! i' = Some f' ->
    tf_pkg f = EmptyString -> tf_pkg f' = EmptyString ->
    tf_name f = tf_name f' -> i = i'.

(** A source field is exported when the destination's field of the
    same name is (in Go the name decides). *)
Definition export_agrees (sfs dfs : list TField) : Prop :=
  forall sf df,
    sf ∈ sfs -> df ∈ dfs -> tf_name sf = tf_name df ->
    tf_pkg df = EmptyString -> tf_pkg sf = EmptyString.








(** A source record [{Name: "Nigel", Age: 23, Is_cool: true}] and a
    destination record type with Age of the same type, Name of the
    defined type [Label], and a field the source does not have. *)
Definition scan_src_type : GoType :=
  TStruct [mkTField "Name" EmptyString EmptyString TString;
           mkTField "Age" EmptyString EmptyString TInt;
           mkTField "Is_cool" EmptyString EmptyString TBool].

Definition scan_src_value : Value :=
  VStruct [VString "Nigel"; VInt 23; VBool true].

Definition scan_dst_type : GoType :=
  TStruct [mkTField "Age" EmptyString EmptyString TInt;
           mkTField "Name" EmptyString EmptyString (TNamed "main.Label" TString);
           mkTField "Email" EmptyString EmptyString TString].

Definition scan_dst_heap : heap :=
  [VStruct [VInt 0; VString "old"; VString "a@b"]].

(** A record that holds a record: [{In: {Name: "Nigel", Age: 23},
    Name: "old", Age: 0}], one heap object. *)
Definition scan_inner_type : GoType :=
  TNamed "main.Inner"
    (TStruct [mkTField "Name" EmptyString EmptyString TString;
              mkTField "Age" EmptyString EmptyString TInt]).

Definition scan_outer_type : GoType :=
  TNamed "main.Outer"
    (TStruct [mkTField "In" EmptyString EmptyString scan_inner_type;
              mkTField "Name" EmptyString EmptyString TString;
              mkTField "Age" EmptyString EmptyString TInt]).

Definition scan_outer_heap : heap :=
  [VStruct [VStruct [VString "Nigel"; VInt 23]; VString "old"; VInt 0]].

(** A built Struct with one field whose encoding name is the byte FF. *)
Definition not_utf8_state : Struct * heap :=
  Eval vm_compute in
    match (s <- AddField (New "json") "A" name_not_utf8 (Some TString) [];; Make s) [] with
    | Ret s h => (s, h)
    | Panic _ h => (New EmptyString, h)
    end.

(** *** Further predicates and examples *)

(** What [reflect.StructOf] makes of a descriptor: the field of same
    name, package path, tag and type. *)
Definition field_of (f : StructField) (tf : TField) : Prop :=
  tf_name tf = Name f /\ tf_pkg tf = PkgPath f /\ tf_tag tf = Tag f /\
  Type_ f = Some (tf_type tf).

(** The statements SetField and SetFieldByIndex share once the field
    is found: the value goes through one [Elem] when it is a pointer,
    its kind is compared with the field's, and the field is set.
    [label] is the name or the index as the panic message prints it. *)
Definition set_found (label : string) (field : Val) (value : value_arg) : M unit :=
  valueOf <- elem_if_ptr (valueOf value);;
  if negb (bool_decide (Kind_ field = Kind_ valueOf)) then
    panic ("Cannot set field " +:+ label +:+ " with value of type "
           +:+ Kind_String (Kind_ valueOf))
  else Set_ field valueOf.

(** What [reflect.StructOf] asks of an exported descriptor: an
    identifier that starts neither in lower case nor with an underscore,
    and a type. *)
Definition buildable (f : StructField) : Prop :=
  isValidFieldName (Name f) = true /\
  (forall c r, Name f = String c r -> Str.is_lower c || Str.is_underscore c = false) /\
  Type_ f <> None.


(** Descriptors as [AddField] makes them: exported, not embedded. *)
Definition plain_descriptor (f : StructField) : Prop :=
  PkgPath f = EmptyString /\ Anonymous f = false.


(** A builder with the one field [P *int], built. *)
Definition pointer_state : Struct * heap :=
  Eval vm_compute in
    match (s <- AddField (New "json") "P" "p" (Some (TPtr TInt)) [];; Make s) [] with
    | Ret s h => (s, h)
    | Panic _ h => (New EmptyString, h)
    end.

(** [type T struct { secret int }] seen from another package: the
    descriptor of its field. *)
Definition hidden_descriptor : StructField :=
  {| Name := "secret"; PkgPath := "main"; Type_ := Some TInt; Tag := EmptyString;
     Index := [0%Z]; Anonymous := false |}.

(** Two records of [person] in one heap, the first with Age set to 23. *)
Definition two_persons : Struct * Struct * heap :=
  Eval vm_compute in
    match (b <- person;;
           SetField b "Age" (OtherValue (IVal TInt (VInt 23)));;;
           d <- person;;
           ret (b, d)) [] with
    | Ret r h => (r, h)
    | Panic _ h => ((New EmptyString, New EmptyString), h)
    end.

(** The fields [From] keeps: those whose name under the tag key is
    not "-". *)
Definition From_kept (tag : string) (fs : list TField) : list TField :=
  filter (fun f => StructTag.Get (tf_tag f) tag <> "-") fs.

(** The descriptor [From] adds for a field of the type. *)
Definition From_descriptor (tag : string) (f : TField) : StructField :=
  added_field (New tag) (tf_name f) (StructTag.Get (tf_tag f) tag)
    (Some (tf_type f)) [].

(** The builder [From] returns for the fields it keeps. *)
Definition From_result (tag : string) (fs : list TField) : Struct :=
  {| tag := tag; fieldsByName := From_descriptor tag <$> fs;
     sstruct := None; structValue := Zero; made := false |}.

(** The field of a struct type a name designates. *)
Definition named_field (fs : list TField) (n : string) : option TField :=
  i ← lookup_field (TStruct fs) n; fs !! i.

(** One round of either loop of [From] on a field that is there. *)
Definition From_round (tag : string) (f : TField) (s : Struct) : M Struct :=
  if bool_decide (StructTag.Get (tf_tag f) tag = "-") then ret s
  else AddField s (tf_name f) (StructTag.Get (tf_tag f) tag) (Some (tf_type f)) [].

(** The rounds for the fields [fs], in order. *)
Fixpoint From_rounds (tag : string) (fs : list TField) (s : Struct) : M Struct :=
  match fs with
  | [] => ret s
  | f :: rest => s' <- From_round tag f s;; From_rounds tag rest s'
  end.

(** [type Point struct { X int `json:"x"`; Y int `json:"-"`; Label string }] *)
Definition Point : GoType :=
  TNamed "main.Point"
    (TStruct [mkTField "X" EmptyString ("json:" +:+ quoted "x") TInt;
              mkTField "Y" EmptyString ("json:" +:+ quoted "-") TInt;
              mkTField "Label" EmptyString EmptyString TString]).

(** After the adder [add] has returned, Make returns on any heap, and on
    the built Struct SetField of [name] with a value of type [ty]
    returns and GetField of [name] then returns that value. *)
Definition roundtrip_after (add : M Struct) (name : string) (ty : GoType) : Prop :=
  forall h s1 h1,
    add h = Ret s1 h1 ->
    forall g x, exists s2 g2 g3,
      Make s1 g = Ret s2 g2 /\
      SetField s2 name (OtherValue (IVal ty x)) g2 = Ret tt g3 /\
      GetField s2 name g3 = Ret (IVal ty x) g3.

(** * Properties *)


(** ** Struct tags *)

Section Tags.
Import Str StructTag.
Local Arguments String.append : simpl nomatch.

Lemma append_assoc (a b c : string) : (a +:+ b) +:+ c = a +:+ (b +:+ c).
Proof. induction a as [| x a IH]; simpl; [reflexivity | now rewrite IH]. Qed.

Lemma length_append (a b : string) :
  String.length (a +:+ b) = (String.length a + String.length b)%nat.
Proof. induction a as [| x a IH]; simpl; [reflexivity | now rewrite IH]. Qed.

Lemma skip_spaces_length (s : string) :
  (String.length (skip_spaces s) <= String.length s)%nat.
Proof.
  induction s as [| c s IH]; simpl; [lia |].
  destruct (Ascii.eqb c space); simpl; lia.
Qed.

Lemma scan_key_length (s k rest : string) :
  scan_key s = (k, rest) ->
  (String.length k + String.length rest = String.length s)%nat.
Proof.
  revert k rest. induction s as [| c s IH]; intros k rest H; simpl in H.
  - injection H as <- <-. reflexivity.
  - destruct (key_char c).
    + destruct (scan_key s) as [k' rest'] eqn:E. injection H as <- <-.
      simpl. rewrite <- (IH k' rest' eq_refl). lia.
    + injection H as <- <-. reflexivity.
Qed.

Lemma scan_quoted_length (s raw rest : string) :
  scan_quoted s = Some (raw, rest) ->
  (String.length rest < String.length s)%nat.
Proof.
  remember (String.length s) as n eqn:Hn. revert s raw rest Hn.
  induction n as [n IH] using lt_wf_ind. intros s raw rest Hn H.
  destruct s as [| c s]; simpl in H; [discriminate |].
  destruct (Ascii.eqb c dquote).
  - injection H as <- <-. simpl in Hn. lia.
  - destruct (Ascii.eqb c backslash).
    + destruct s as [| d s]; [discriminate |].
      destruct (scan_quoted s) as [[b rest'] |] eqn:E; [| discriminate].
      injection H as <- <-. simpl in Hn.
      pose proof (IH (String.length s) ltac:(lia) s b rest' eq_refl E). lia.
    + destruct (scan_quoted s) as [[b rest'] |] eqn:E; [| discriminate].
      injection H as <- <-. simpl in Hn.
      pose proof (IH (String.length s) ltac:(lia) s b rest' eq_refl E). lia.
Qed.

(** The fuel of [Lookup_loop] is enough: more rounds than the tag has
    bytes change nothing. *)
Lemma Lookup_loop_fuel (key : string) (n m : nat) (tag : string) :
  (String.length tag <= n)%nat -> (String.length tag <= m)%nat ->
  Lookup_loop n tag key = Lookup_loop m tag key.
Proof.
  revert m tag. induction n as [| n IH]; intros m tag Hn Hm.
  - destruct tag; [| simpl in Hn; lia]. destruct m; reflexivity.
  - destruct m as [| m].
    + destruct tag; [reflexivity | simpl in Hm; lia].
    + simpl. pose proof (skip_spaces_length tag) as Hs.
      destruct (decide (skip_spaces tag = EmptyString)); [reflexivity |].
      destruct (scan_key (skip_spaces tag)) as [name rest] eqn:Ek.
      apply scan_key_length in Ek.
      destruct (decide (name = EmptyString)); [reflexivity |].
      destruct rest as [| c1 [| c2 body]]; try reflexivity.
      destruct (Ascii.eqb c1 ":" && Ascii.eqb c2 dquote); [| reflexivity].
      destruct (scan_quoted body) as [[raw tag'] |] eqn:Eq; [| reflexivity].
      apply scan_quoted_length in Eq.
      destruct (decide (key = name)); [reflexivity |].
      simpl in Ek. apply IH; lia.
Qed.

Lemma key_char_not_space (c : ascii) : key_char c = true -> Ascii.eqb c space = false.
Proof.
  unfold key_char. intros H. destruct (Ascii.eqb_spec c space) as [-> | _];
    [discriminate H | reflexivity].
Qed.

Lemma scan_key_key (k r : string) :
  all_chars key_char k = true ->
  scan_key (k +:+ String ":" r) = (k, String ":" r).
Proof.
  induction k as [| c k IH]; cbn [String.append all_chars scan_key]; intros H.
  - reflexivity.
  - apply andb_true_iff in H as [Hc Hk]. rewrite Hc, (IH Hk). reflexivity.
Qed.

Lemma scan_quoted_plain (e rest : string) :
  contains_char dquote e = false -> contains_char backslash e = false ->
  scan_quoted (e +:+ String dquote rest) = Some (e, rest).
Proof.
  induction e as [| c e IH]; cbn [String.append contains_char scan_quoted].
  - now rewrite Ascii.eqb_refl.
  - rewrite (Ascii.eqb_sym c dquote), (Ascii.eqb_sym c backslash).
    destruct (Ascii.eqb dquote c); [discriminate |].
    destruct (Ascii.eqb backslash c); [discriminate |].
    intros Hq Hb. now rewrite (IH Hq Hb).
Qed.

Lemma hex_value_length (n : nat) (acc : N) (s : string) (v : N) (r : string) :
  hex_value n acc s = Some (v, r) -> (String.length r <= String.length s)%nat.
Proof.
  revert acc s. induction n as [| n IH]; intros acc s H; simpl in H.
  - injection H as <- <-. lia.
  - destruct s as [| c s]; [discriminate |].
    destruct (hex_digit c); [| discriminate].
    apply IH in H. simpl. lia.
Qed.

Lemma unquote_escape_length (s bytes r : string) :
  unquote_escape s = Some (bytes, r) -> (String.length r < String.length s)%nat.
Proof.
  destruct s as [| c s]; [discriminate |]. unfold unquote_escape.
  repeat match goal with
         | |- context [if Ascii.eqb c ?x then _ else _] =>
             destruct (Ascii.eqb c x);
             [try (intros H; injection H as <- <-; cbn [String.length]; lia) |]
         end;
    repeat match goal with
           | |- context [hex_value ?n ?a s] =>
               let E := fresh "E" in
               destruct (hex_value n a s) as [[v r0] |] eqn:E;
               [apply hex_value_length in E;
                try destruct (ValidRune v); intros H; try discriminate H;
                injection H as <- <-; cbn [String.length]; lia
               | discriminate]
           end.
  destruct (oct_digit c); [| discriminate].
  destruct s as [| c2 [| c3 s]]; try discriminate.
  destruct (oct_digit c2); [| discriminate].
  destruct (oct_digit c3); [| discriminate].
  match goal with |- context [if ?b then _ else _] => destruct b end;
    [discriminate |].
  intros H. injection H as <- <-. cbn [String.length]. lia.
Qed.

Lemma contains_char_app (c : ascii) (a b : string) :
  contains_char c (a +:+ b) = contains_char c a || contains_char c b.
Proof.
  induction a as [| x a IH]; cbn [String.append contains_char]; [reflexivity |].
  destruct (Ascii.eqb c x); [reflexivity | exact IH].
Qed.

(** The head [utf8_head] finds is a prefix of the string, it is not
    empty, and it is found again in front of any other text. *)
Lemma utf8_head_Some (s enc rest : string) :
  utf8_head s = Some (enc, rest) ->
  s = enc +:+ rest /\
  (String.length rest < String.length s)%nat /\
  (exists c e, enc = String c e) /\
  forall t, utf8_head (enc +:+ t) = Some (enc, t).
Proof.
  destruct s as [| c0 [| c1 r1]]; cbn [utf8_head]; try discriminate.
  destruct (utf8_two c0 c1) eqn:E2.
  { intros [= <- <-]. cbn [String.append String.length].
    repeat split; [lia | eauto |]. intros t. cbn [utf8_head]. now rewrite E2. }
  destruct r1 as [| c2 r2]; [discriminate |].
  destruct (utf8_three c0 c1 c2) eqn:E3.
  { intros [= <- <-]. cbn [String.append String.length].
    repeat split; [lia | eauto |]. intros t. cbn [utf8_head]. now rewrite E2, E3. }
  destruct r2 as [| c3 r3]; [discriminate |].
  destruct (utf8_four c0 c1 c2 c3) eqn:E4; [| discriminate].
  intros [= <- <-]. cbn [String.append String.length].
  repeat split; [lia | eauto |]. intros t. cbn [utf8_head]. now rewrite E2, E3, E4.
Qed.

(** The fuel of [unquote_body] is enough. *)
Lemma unquote_body_fuel (n m : nat) (s : string) :
  (String.length s < n)%nat -> (String.length s < m)%nat ->
  unquote_body n s = unquote_body m s.
Proof.
  revert m s. induction n as [| n IH]; intros m s Hn Hm; [lia |].
  destruct m as [| m]; [lia |]. cbn [unquote_body].
  destruct s as [| c s]; [reflexivity |]. cbn [String.length] in Hn, Hm.
  destruct (Ascii.eqb c dquote); [reflexivity |].
  destruct (Ascii.eqb c backslash).
  - destruct (unquote_escape s) as [[bytes r] |] eqn:E; [| reflexivity].
    apply unquote_escape_length in E. rewrite (IH m r) by lia. reflexivity.
  - destruct (byte c <? 128)%N; [rewrite (IH m s) by lia; reflexivity |].
    destruct (utf8_head (String c s)) as [[enc rest] |] eqn:E.
    + apply utf8_head_Some in E as (_ & Hl & _). cbn [String.length] in Hl.
      rewrite (IH m rest) by lia. reflexivity.
    + rewrite (IH m s) by lia. reflexivity.
Qed.

(** The slow path on a plain body: it returns, and what it returns is
    plain and valid UTF-8, and empty only for the empty body. *)
Lemma unquote_body_plain (n : nat) (s : string) :
  (String.length s < n)%nat -> plain_value s ->
  exists out,
    unquote_body n s = Some out /\ plain_value out /\
    (forall m, (String.length out < m)%nat -> ValidString_loop m out = true) /\
    (s <> EmptyString -> out <> EmptyString).
Proof.
  revert s. induction n as [| n IH]; intros s Hn (Hq & Hb & Hl); [lia |].
  destruct s as [| c s].
  { exists EmptyString. repeat split; try reflexivity; try contradiction.
    intros [| m] Hm; [cbn in Hm; lia | reflexivity]. }
  cbn [contains_char] in Hq, Hb, Hl. cbn [String.length] in Hn.
  destruct (Ascii.eqb dquote c) eqn:Eq; [discriminate |].
  destruct (Ascii.eqb backslash c) eqn:Eb; [discriminate |].
  destruct (Ascii.eqb newline c) eqn:El; [discriminate |].
  cbn [unquote_body]. rewrite (Ascii.eqb_sym c dquote), Eq,
    (Ascii.eqb_sym c backslash), Eb.
  destruct (byte c <? 128)%N eqn:Ea.
  - destruct (IH s ltac:(lia) (conj Hq (conj Hb Hl))) as (out & -> & (Oq & Ob & Ol) & Ov & _).
    exists (String c out).
    split; [reflexivity |]. split; [| split; [| discriminate]].
    + repeat split; cbn [contains_char]; [rewrite Eq | rewrite Eb | rewrite El]; assumption.
    + intros [| m] Hm; cbn [String.length] in Hm; [lia |].
      cbn [ValidString_loop]. rewrite Ea. apply Ov. lia.
  - destruct (utf8_head (String c s)) as [[enc rest] |] eqn:E.
    + destruct (utf8_head_Some _ _ _ E) as (Hs & Hlen & (c' & e' & He) & Hagain).
      cbn [String.length] in Hlen.
      assert (Hplain : forall x, Ascii.eqb x c = false -> contains_char x s = false ->
                                 contains_char x enc = false /\ contains_char x rest = false).
      { intros x H1 H2.
        assert (H : contains_char x (String c s) = false) by (cbn; now rewrite H1).
        rewrite Hs, contains_char_app in H. now apply orb_false_iff in H. }
      destruct (Hplain _ Eq Hq) as [Eq1 Eq2].
      destruct (Hplain _ Eb Hb) as [Eb1 Eb2].
      destruct (Hplain _ El Hl) as [El1 El2].
      destruct (IH rest ltac:(lia) (conj Eq2 (conj Eb2 El2)))
        as (out & -> & (Oq & Ob & Ol) & Ov & _).
      exists (enc +:+ out).
      split; [reflexivity |]. split; [| split].
      * repeat split; rewrite contains_char_app; apply orb_false_iff; split; assumption.
      * intros [| m] Hm; [lia |].
        assert (c' = c) as ->.
        { rewrite He in Hs. cbn [String.append] in Hs. congruence. }
        subst enc. cbn [String.append ValidString_loop]. rewrite Ea.
        change (String c (e' +:+ out)) with (String c e' +:+ out).
        rewrite Hagain. apply Ov.
        cbn [String.append String.length] in Hm. rewrite length_append in Hm. lia.
      * intros _. subst enc. discriminate.
    + destruct (IH s ltac:(lia) (conj Hq (conj Hb Hl))) as (out & -> & (Oq & Ob & Ol) & Ov & _).
      exists (RuneError +:+ out).
      split; [reflexivity |]. split; [| split; [| discriminate]].
      * repeat split; rewrite contains_char_app; apply orb_false_iff; split;
          first [reflexivity | assumption].
      * intros m Hm. unfold RuneError in *.
        cbn [String.append String.length] in Hm |- *.
        destruct m as [| m]; [lia |]. cbn [ValidString_loop].
        change (byte (chr 239) <? 128)%N with false. cbv iota.
        change (utf8_head (String (chr 239) (String (chr 191) (String (chr 189) out))))
          with (Some (String (chr 239) (String (chr 191) (String (chr 189) EmptyString)), out)).
        apply Ov. lia.
Qed.

(** [Unquote] of a plain body returns a plain body that is valid
    UTF-8, empty only for the empty body, and the body itself when it
    is valid UTF-8. *)
Lemma Unquote_plain (e : string) :
  plain_value e ->
  exists out,
    Unquote e = Some out /\ plain_value out /\ utf8_value out /\
    (e <> EmptyString -> out <> EmptyString) /\
    (utf8_value e -> out = e).
Proof.
  intros He. pose proof He as (Hq & Hb & Hl). unfold Unquote.
  rewrite Hl, Hb, Hq. cbn [negb andb].
  destruct (ValidString e) eqn:Ev.
  - exists e. split; [reflexivity |]. split; [exact He |]. split; [exact Ev |].
    split; [intros H; exact H | reflexivity].
  - destruct (unquote_body_plain (S (String.length e)) e ltac:(lia) He)
      as (out & Hout & Hp & Hv & Hne).
    exists out. split; [exact Hout |]. split; [exact Hp |].
    split; [apply Hv; lia |]. split; [exact Hne |].
    unfold utf8_value. congruence.
Qed.

(** On a tag that starts with [key:"value"], for a valid key and a
    value without quote or backslash, [Get] of that key is what
    [Unquote] makes of the value. *)
Lemma Get_raw (k e rest : string) :
  valid_key k ->
  contains_char dquote e = false -> contains_char backslash e = false ->
  Get (k +:+ ":" +:+ quoted e +:+ rest) k = default EmptyString (Unquote e).
Proof.
  intros [Hne Hk] Hq Hb. unfold Get, Lookup, quoted.
  destruct k as [| c k]; [contradiction |].
  simpl in Hk. apply andb_true_iff in Hk as [Hc Hk].
  cbn [String.append String.length Lookup_loop skip_spaces].
  rewrite (key_char_not_space c Hc).
  rewrite decide_False by discriminate.
  cbn [scan_key]. rewrite Hc.
  rewrite append_assoc. cbn [String.append].
  rewrite (scan_key_key k _ Hk).
  rewrite decide_False by discriminate.
  cbn [Ascii.eqb Bool.eqb andb].
  change (Ascii.eqb dquote dquote) with true. cbn [andb].
  rewrite (scan_quoted_plain e rest Hq Hb).
  rewrite decide_True by reflexivity. reflexivity.
Qed.

(** For a plain value that is valid UTF-8 it is the value. *)
Lemma Get_first (k e rest : string) :
  valid_key k -> plain_value e -> utf8_value e ->
  Get (k +:+ ":" +:+ quoted e +:+ rest) k = e.
Proof.
  intros Hk He Hu. rewrite (Get_raw k e rest Hk) by apply He.
  destruct (Unquote_plain e He) as (out & -> & _ & _ & _ & Hsame).
  cbn. now apply Hsame.
Qed.

Lemma append_empty_r (s : string) : s +:+ EmptyString = s.
Proof. induction s as [| c s IH]; simpl; [reflexivity | now rewrite IH]. Qed.

(** On a tag [key:"value" structs:"required"] with another key than
    structs, [Get] of structs is "required". *)
Lemma Get_structs_second (k e : string) :
  valid_key k -> plain_value e -> k <> "structs" ->
  Get (k +:+ ":" +:+ quoted e +:+ " structs:" +:+ quoted "required") "structs"
  = "required" /\
  Get (k +:+ ":" +:+ quoted e) "structs" = EmptyString.
Proof.
  intros [Hne Hk] (Hq & Hb & Hn) Hks. unfold Get, Lookup, quoted.
  destruct k as [| c k]; [contradiction |].
  simpl in Hk. apply andb_true_iff in Hk as [Hc Hk].
  cbn [String.append String.length Lookup_loop skip_spaces].
  rewrite (key_char_not_space c Hc).
  rewrite !decide_False by discriminate.
  cbn [scan_key]. rewrite Hc.
  rewrite !(scan_key_key k _ Hk).
  rewrite !decide_False by discriminate.
  change (Ascii.eqb ":" ":" && Ascii.eqb dquote dquote) with true. cbn iota.
  split.
  - rewrite append_assoc. cbn [String.append].
    rewrite (scan_quoted_plain e _ Hq Hb).
    rewrite decide_False by congruence.
    match goal with
    | |- context [Lookup_loop ?n ?t "structs"] =>
        rewrite (Lookup_loop_fuel "structs" n 19 t)
    end.
    + reflexivity.
    + repeat (rewrite ?length_append; cbn [String.length String.append]). lia.
    + cbn [String.length String.append]. lia.
  - rewrite (scan_quoted_plain e EmptyString Hq Hb).
    rewrite decide_False by congruence.
    now destruct (String.length _).
Qed.

End Tags.

(** The encoding name and the required marker read back from the
    descriptor [AddField] appends, for a valid tag key and a plain
    encoding name. *)
Lemma added_field_Get_raw (s : Struct) (absolute_name enc_name : string)
    (typeOf : option GoType) (required : list bool) :
  let enc := if decide (enc_name = EmptyString) then absolute_name else enc_name in
  valid_key (tag s) -> plain_value enc ->
  StructTag.Get (Tag (added_field s absolute_name enc_name typeOf required)) (tag s)
  = default EmptyString (StructTag.Unquote enc).
Proof.
  intros enc Hk (Hq & Hb & _). unfold added_field. cbn [Tag]. fold enc.
  destruct required as [| [] r].
  - rewrite <- (append_empty_r (quoted enc)). now apply Get_raw.
  - rewrite !append_assoc. now apply Get_raw.
  - rewrite <- (append_empty_r (quoted enc)). now apply Get_raw.
Qed.

Lemma added_field_Get (s : Struct) (absolute_name enc_name : string)
    (typeOf : option GoType) (required : list bool) :
  let enc := if decide (enc_name = EmptyString) then absolute_name else enc_name in
  valid_key (tag s) -> plain_value enc -> utf8_value enc ->
  StructTag.Get (Tag (added_field s absolute_name enc_name typeOf required)) (tag s)
  = enc.
Proof.
  intros enc Hk He Hu.
  rewrite (added_field_Get_raw s absolute_name enc_name typeOf required Hk He).
  fold enc. destruct (Unquote_plain enc He) as (out & -> & _ & _ & _ & Hsame).
  cbn. now apply Hsame.
Qed.

Lemma added_field_IsRequired (s : Struct) (absolute_name enc_name : string)
    (typeOf : option GoType) (required : list bool) :
  let enc := if decide (enc_name = EmptyString) then absolute_name else enc_name in
  valid_key (tag s) -> plain_value enc -> tag s <> "structs" ->
  StructTag.Get (Tag (added_field s absolute_name enc_name typeOf required)) "structs"
  = match required with true :: _ => "required" | _ => EmptyString end.
Proof.
  intros enc Hk He Hs. unfold added_field. cbn [Tag]. fold enc.
  destruct (Get_structs_second (tag s) enc Hk He Hs) as [H1 H2].
  destruct required as [| [] r].
  - exact H2.
  - rewrite !append_assoc. exact H1.
  - exact H2.
Qed.

Section NotBuilt.
Variable json_Marshal : iface -> M (string * error).
Variable json_Unmarshal : string -> iface -> M error.

Lemma checkMade_false s msg h : made s = false -> checkMade s msg h = Panic msg h.
Proof. intros E. unfold checkMade. now rewrite E. Qed.

Lemma checkMade_true s msg h : made s = true -> checkMade s msg h = Ret tt h.
Proof. intros E. unfold checkMade. now rewrite E. Qed.

(** C3: on a builder whose built-flag is false, each of FieldByName,
    Field, GetField, SetField, SetFieldByIndex, Interface, PtrTo,
    DeepCopy, MarshalJSON and UnmarshalJSON panics with its "has not
    been made" message, and the heap (the instance memory) is as it
    was. *)
Theorem not_built_panics (s : Struct) (h : heap) (name : string) (index : Z)
    (value : value_arg) (data : string) :
  made s = false ->
  FieldByName s name h
    = Panic "Cannot get field by name if struct has not been made" h /\
  Field s index h
    = Panic "Cannot get field by index if struct has not been made" h /\
  GetField s name h = Panic "Cannot get field if struct has not been made" h /\
  SetField s name value h = Panic "Cannot set field if struct has not been made" h /\
  SetFieldByIndex s index value h
    = Panic "Cannot set field if struct has not been made" h /\
  Interface s h = Panic "Cannot get interface if struct has not been made" h /\
  PtrTo s h = Panic "Cannot get pointer to if struct has not been made" h /\
  DeepCopy s h = Panic "Cannot deep copy if struct has not been made" h /\
  MarshalJSON json_Marshal s h
    = Panic "Cannot marshal if struct has not been made" h /\
  UnmarshalJSON json_Unmarshal s data h
    = Panic "Cannot unmarshal if struct has not been made" h.
Proof.
  intros E.
  unfold FieldByName, Field, GetField, SetField, SetFieldByIndex, Interface,
    PtrTo, DeepCopy, MarshalJSON, UnmarshalJSON, bind.
  rewrite !checkMade_false by exact E.
  repeat split.
Qed.

End NotBuilt.

(** C10: ScanInto on a *Struct that is not built panics in Interface's
    check; it does not return an error. *)
Theorem ScanInto_not_built_panics (b : Struct) (dest : iface)
    (fields : list string) (h : heap) :
  made b = false ->
  ScanInto (StructPtr b) dest fields h
    = Panic "Cannot get interface if struct has not been made" h.
Proof.
  intros E. unfold ScanInto, Interface, bind.
  now rewrite checkMade_false.
Qed.

Lemma not_built_panics_witness :
  made (New "json") = false /\
  DeepCopy (New "json") [] = Panic "Cannot deep copy if struct has not been made" [].
Proof.
  split; [reflexivity |].
  apply (not_built_panics (fun _ => ret (EmptyString, None)) (fun _ _ => ret None)
           (New "json") [] "Name" 0%Z (OtherValue INil) EmptyString).
  reflexivity.
Defined.

Lemma ScanInto_not_built_panics_witness :
  made (New "json") = false /\
  ScanInto (StructPtr (New "json")) INil [] []
    = Panic "Cannot get interface if struct has not been made" [].
Proof.
  split; [reflexivity |].
  apply (ScanInto_not_built_panics (New "json") INil [] []). reflexivity.
Defined.

(** ** AddField *)

Lemma existsb_Name (name : string) (fields : list StructField) :
  existsb (fun field => bool_decide (Name field = name)) fields = true
  <-> name ∈ (Name <$> fields).
Proof.
  rewrite existsb_exists, list_elem_of_fmap. split.
  - intros (f & Hin & Hf). apply bool_decide_eq_true in Hf.
    exists f. split; [now symmetry | now apply list_elem_of_In].
  - intros (f & -> & Hin). exists f. split; [now apply list_elem_of_In |].
    now apply bool_decide_eq_true.
Qed.

Lemma AddField_outcome (s : Struct) (absolute_name enc_name : string)
    (typeOf : option GoType) (required : list bool) (h : heap) :
  ((exists msg h', AddField s absolute_name enc_name typeOf required h = Panic msg h')
   <-> absolute_name = EmptyString \/ absolute_name ∈ (Name <$> fieldsByName s)) /\
  ((exists s' h', AddField s absolute_name enc_name typeOf required h = Ret s' h')
   <-> ~ (absolute_name = EmptyString \/ absolute_name ∈ (Name <$> fieldsByName s))) /\
  (forall s' h',
     AddField s absolute_name enc_name typeOf required h = Ret s' h' ->
     h' = h /\
     s' = {| tag := tag s;
             fieldsByName := fieldsByName s
                 ++ [added_field s absolute_name enc_name typeOf required];
             sstruct := sstruct s; structValue := structValue s;
             made := false |}).
Proof.
  unfold AddField.
  destruct (decide (absolute_name = EmptyString)) as [E | NE].
  { unfold panic. repeat split.
    - intros _. now left.
    - intros _. eauto.
    - intros (s' & h' & H). discriminate.
    - intros H. exfalso. apply H. now left.
    - discriminate.
    - discriminate. }
  destruct (existsb _ (fieldsByName s)) eqn:Ex.
  { apply existsb_Name in Ex. unfold panic. repeat split.
    - intros _. now right.
    - intros _. eauto.
    - intros (s' & h' & H). discriminate.
    - intros H. exfalso. apply H. now right.
    - discriminate.
    - discriminate. }
  assert (Hnot : ~ absolute_name ∈ (Name <$> fieldsByName s)).
  { intros Hin. apply existsb_Name in Hin. congruence. }
  unfold ret. repeat split.
  - intros (msg & h' & H). discriminate.
  - intros [E | Hin]; contradiction.
  - intros _ [E | Hin]; contradiction.
  - intros _. eauto.
  - congruence.
  - injection H as <- <-. reflexivity.
Qed.




(** C6 as stated fails at an external name with a quote in it: the
    quoted value of the tag ends at that quote, and the encoding name
    read back is the text before it. *)
Lemma encoding_name_as_given_counterexample : ~ encoding_name_as_given.
Proof.
  intros H.
  destruct (H (New "json") "A" name_with_quote None [] [] _ [] eq_refl)
    as (f & Hf & Hget).
  cbn in Hf. injection Hf as <-. discriminate Hget.
Qed.

(** What [Tag.Get] reads back for the external names the amended
    claim leaves out: the text before a quote, U+FFFD for a byte that
    is not UTF-8, nothing for a name that ends in a backslash or holds
    a newline, and nothing under a tag key with a space in it. *)
Example AddField_name_with_quote :
  StructTag.Get (Tag (added_field (New "json") "A" name_with_quote None [])) "json" = "a".
Proof. reflexivity. Qed.

Example AddField_name_not_utf8 :
  StructTag.Get (Tag (added_field (New "json") "A" name_not_utf8 None [])) "json"
  = StructTag.RuneError.
Proof. reflexivity. Qed.

Example AddField_name_with_backslash :
  StructTag.Get
    (Tag (added_field (New "json") "A" (String Str.backslash EmptyString) None []))
    "json"
  = EmptyString.
Proof. reflexivity. Qed.

Example AddField_name_with_newline :
  StructTag.Get
    (Tag (added_field (New "json") "A" (String Str.newline EmptyString) None []))
    "json"
  = EmptyString.
Proof. reflexivity. Qed.

Example AddField_key_with_space :
  StructTag.Get (Tag (added_field (New "my key") "A" "a" None [])) "my key"
  = EmptyString.
Proof. reflexivity. Qed.

(** ** Validators *)

Section Validators.
Import ValidatorMap.
Context (code : closures).











End Validators.


Lemma add_appends_on_every_registry_counterexample :
  ~ add_appends_on_every_registry.
Proof.
  intros H.
  destruct (H double_cap None "Name" (Some 0) (ValidatorMap.mkWorld [] []) I)
    as (v' & w' & Hadd & _).
  discriminate Hadd.
Qed.

(** The nil map: [var v ValidatorMap; v.Add(...)]. *)
Example Add_nil_map :
  ValidatorMap.Add double_cap None "Name" (Some 0) (ValidatorMap.mkWorld [] [])
  = ValidatorMap.Panicked "assignment to entry in nil map"
      (ValidatorMap.mkWorld [] [[Some 0; None]]).
Proof. reflexivity. Qed.

(** Two keys whose slices share a backing array with room left:
    adding to one changes the list of the other. *)
Example Add_shared_backing_array :
  let v : ValidatorMap.t :=
    Some (<["A" := Some (ValidatorMap.mkSlice 0 0 1 2)]>
         (<["B" := Some (ValidatorMap.mkSlice 0 0 2 2)]> ∅)) in
  let w := ValidatorMap.mkWorld [] [[Some 0; Some 1]] in
  ValidatorMap.elems w (ValidatorMap.index v "B") = [Some 0; Some 1] /\
  exists v' w',
    ValidatorMap.Add double_cap v "A" (Some 2) w = ValidatorMap.Done v' w' /\
    ValidatorMap.elems w' (ValidatorMap.index v' "A") = [Some 0; Some 2] /\
    ValidatorMap.elems w' (ValidatorMap.index v' "B") = [Some 0; Some 2].
Proof.
  split; [reflexivity |]. eexists _, _. split; [reflexivity |].
  split; vm_compute; reflexivity.
Qed.

(** A validator that overwrites the element after it while Validate
    runs: the validator that was in the list when Validate was called
    is not the one called. *)
Example Validate_overwritten_list :
  let v : ValidatorMap.t := Some (<["A" := Some (ValidatorMap.mkSlice 0 0 2 2)]> ∅) in
  let w := ValidatorMap.mkWorld [] [[Some 0; Some 1]] in
  ValidatorMap.elems w (ValidatorMap.index v "A") = [Some 0; Some 1] /\
  ValidatorMap.Validate overwriting_closures v "A" INil w
  = ValidatorMap.Done (Some "two") (ValidatorMap.mkWorld [] [[Some 0; Some 2]]).
Proof. split; reflexivity. Qed.

(** ** Reflection on a struct place *)

Lemma kindOf_not_Invalid (t : GoType) : kindOf t <> Invalid.
Proof.
  unfold kindOf. induction t; simpl; try discriminate. exact IHt.
Qed.

Lemma field_index_lookup (name : string) (fs : list TField) (i : nat) :
  field_index name fs = Some i ->
  exists f, fs !! i = Some f /\ tf_name f = name.
Proof.
  revert i. induction fs as [| g fs IH]; intros i H; simpl in H; [discriminate |].
  destruct (decide (tf_name g = name)) as [E | NE].
  - injection H as <-. exists g. split; [reflexivity | exact E].
  - destruct (field_index name fs) as [j |] eqn:Ej; [| discriminate].
    injection H as <-. destruct (IH j eq_refl) as (f & Hf & Hn).
    exists f. split; [exact Hf | exact Hn].
Qed.

Lemma field_index_first (name : string) (fs : list TField) (i j : nat) (g : TField) :
  field_index name fs = Some i -> (j < i)%nat -> fs !! j = Some g ->
  tf_name g <> name.
Proof.
  revert i j. induction fs as [| f0 fs IH]; intros i j H Hlt Hg; simpl in H;
    [discriminate |].
  destruct (decide (tf_name f0 = name)) as [E | NE].
  - injection H as <-. lia.
  - destruct (field_index name fs) as [k |] eqn:Ek; [| discriminate].
    injection H as <-. destruct j as [| j]; simpl in Hg.
    + now injection Hg as <-.
    + apply (IH k j eq_refl); [lia | exact Hg].
Qed.

Lemma field_index_None (name : string) (fs : list TField) :
  field_index name fs = None <-> name ∉ (tf_name <$> fs).
Proof.
  induction fs as [| g fs IH]; simpl.
  - split; [intros _; apply not_elem_of_nil | reflexivity].
  - rewrite not_elem_of_cons.
    destruct (decide (tf_name g = name)) as [E | NE].
    + split; [discriminate | intros [H _]; congruence].
    + destruct (field_index name fs) eqn:Ej; simpl.
      * split; [discriminate |]. intros [_ H]. apply IH in H. discriminate.
      * split; [| reflexivity]. intros _. split; [congruence |].
        now apply IH.
Qed.

Lemma lookup_field_absent (T : GoType) (name : string) :
  name ∉ (tf_name <$> struct_fields T) -> lookup_field T name = None.
Proof.
  intros H. unfold lookup_field. destruct (decide (name = EmptyString)); [reflexivity |].
  now apply field_index_None.
Qed.

(** FieldByName on a place of struct type: the place of the first
    field of that name, or the zero Value. *)
Lemma FieldByName_place (fs : list TField) (ro : bool) (a : nat) (p : list nat)
    (name : string) (h : heap) :
  reflect.FieldByName (Place (TStruct fs) ro a p) name h =
  match lookup_field (TStruct fs) name with
  | Some i =>
      match fs !! i with
      | Some f =>
          Ret (Place (tf_type f) (ro || negb (bool_decide (tf_pkg f = EmptyString)))
                 a (p ++ [i])) h
      | None => Panic "reflect: Field index out of range" h
      end
  | None => Ret Zero h
  end.
Proof.
  unfold reflect.FieldByName. simpl.
  destruct (lookup_field (TStruct fs) name) as [i |]; [| reflexivity].
  unfold reflect.Field. simpl. rewrite Nat2Z.id.
  destruct (decide (0 <= Z.of_nat i < Z.of_nat (List.length fs))%Z) as [Hi | Hi].
  - destruct (fs !! i); reflexivity.
  - rewrite (proj2 (lookup_ge_None fs i)) by lia. reflexivity.
Qed.

Lemma elem_if_ptr_heap (v w : Val) (h h1 : heap) :
  elem_if_ptr v h = Ret w h1 -> h1 = h.
Proof.
  unfold elem_if_ptr. destruct (decide (Kind_ v = Ptr)) as [_ | _].
  - unfold Elem. destruct v as [| t ro x | t ro a p]; [discriminate | |];
      destruct (underlying t); try discriminate; unfold bind, read, ret, panic.
    + destruct x as [| | | | | | [[a p] |] | | |]; intros H; inversion H; reflexivity.
    + destruct (load h a p) as [x |]; [| discriminate].
      destruct x as [| | | | | | [[a' p'] |] | | |]; intros H; inversion H; reflexivity.
  - unfold ret. intros H. now inversion H.
Qed.

Lemma read_heap (v : Val) (x : Value) (h h1 : heap) :
  read v h = Ret x h1 -> h1 = h.
Proof.
  destruct v as [| t ro y | t ro a p]; simpl; unfold panic, ret.
  - discriminate.
  - intros H; now inversion H.
  - destruct (load h a p); intros H; now inversion H.
Qed.

Lemma Built_place (s : Struct) (h : heap) (T : GoType) (a : nat) :
  Built s h -> structValue s = Place T false a [] ->
  exists fs vs,
    T = TStruct fs /\ sstruct s = Some T /\ h !! a = Some (VStruct vs) /\
    List.length vs = List.length fs /\
    StructOf_loop 0 EmptyString [] (fieldsByName s) = inr fs.
Proof.
  intros (_ & fs & a' & vs & Hof & Hty & Hval & Hcell & Hlen) HT.
  rewrite HT in Hval. injection Hval as -> ->.
  exists fs, vs. repeat split; assumption.
Qed.

Lemma store_field (h : heap) (a i : nat) (vs : list Value) (x : Value) :
  h !! a = Some (VStruct vs) -> (i < List.length vs)%nat ->
  store h a [i] x = Some (<[a := VStruct (<[i := x]> vs)]> h).
Proof.
  intros Hc Hi. unfold store. rewrite Hc. simpl.
  destruct (lookup_lt_is_Some_2 vs i Hi) as [w Hw]. rewrite Hw. reflexivity.
Qed.

Lemma Built_store (s : Struct) (h : heap) (a i : nat) (vs : list Value) (x : Value) :
  Built s h -> h !! a = Some (VStruct vs) ->
  Built s (<[a := VStruct (<[i := x]> vs)]> h).
Proof.
  intros (Hm & fs & a' & vs' & Hof & Hty & Hval & Hcell & Hlen) Hc.
  split; [exact Hm |]. destruct (decide (a' = a)) as [-> | Hne].
  - exists fs, a, (<[i := x]> vs). repeat split; try assumption.
    + apply list_lookup_insert_eq. now apply lookup_lt_Some in Hc.
    + rewrite length_insert. congruence.
  - exists fs, a', vs'. repeat split; try assumption.
    now rewrite list_lookup_insert_ne.
Qed.

(** ** SetField *)

(** When SetField returns, it has stored the data of the value, after
    one [Elem] if it was a pointer, in the field of the instance. *)
Lemma SetField_returns (s : Struct) (h h' : heap) (name : string)
    (value : value_arg) (T : GoType) (a : nat) :
  Built s h -> structValue s = Place T false a [] ->
  SetField s name value h = Ret tt h' ->
  exists i f w x vs,
    lookup_field T name = Some i /\ struct_fields T !! i = Some f /\
    elem_if_ptr (valueOf value) h = Ret w h /\
    Kind_ w = kindOf (tf_type f) /\
    read w h = Ret x h /\
    h !! a = Some (VStruct vs) /\
    h' = <[a := VStruct (<[i := x]> vs)]> h /\
    Built s h'.
Proof.
  intros HB HT H.
  destruct (Built_place s h T a HB HT) as (fs & vs & -> & Hty & Hcell & Hlen & Hof).
  assert (Hmade : made s = true) by apply HB.
  unfold SetField, bind in H.
  rewrite checkMade_true in H by exact Hmade.
  rewrite HT, FieldByName_place in H.
  destruct (lookup_field (TStruct fs) name) as [i |] eqn:Hi; [| discriminate].
  destruct (fs !! i) as [f |] eqn:Hf; [| discriminate].
  simpl in H.
  destruct (elem_if_ptr (valueOf value) h) as [w h1 | msg h1] eqn:Hw;
    [| discriminate].
  pose proof (elem_if_ptr_heap _ _ _ _ Hw) as ->.
  destruct (bool_decide (kindOf (tf_type f) = Kind_ w)) eqn:Hk;
    simpl in H; [| discriminate].
  apply bool_decide_eq_true in Hk.
  destruct (bool_decide (tf_pkg f = EmptyString)); simpl in H; [| discriminate].
  destruct w as [| V rox y | V rox a' p']; [discriminate | |];
    (destruct rox; [discriminate |]);
    (destruct (directlyAssignable (tf_type f) V); [| discriminate]);
    unfold bind in H.
  + simpl in H. rewrite (store_field h a i vs y Hcell) in H
      by (apply lookup_lt_Some in Hf; lia).
    injection H as <-.
    exists i, f, (Imm V false y), y, vs. repeat split; try assumption.
    * now symmetry.
    * now apply Built_store.
  + simpl in H. destruct (load h a' p') as [y |] eqn:Hy; [| discriminate].
    rewrite (store_field h a i vs y Hcell) in H
      by (apply lookup_lt_Some in Hf; lia).
    injection H as <-.
    exists i, f, (Place V false a' p'), y, vs. repeat split; try assumption.
    * now symmetry.
    * simpl. now rewrite Hy.
    * now apply Built_store.
Qed.

(** C7: on a built Struct whose instance is the place [a] of type [T],
    SetField panics when [T] has no field of that name; the value is
    passed through one [Elem] when its kind is Ptr, and only then
    compared: a kind other than the field's panics, on the heap as it
    was; so does every pointer to a pointer given for a field that is
    not of pointer kind.  For an exported field and a value (after that
    one [Elem]) of the field's kind and of a type assignable to the
    field's, SetField returns, and the heap it leaves is the old one
    with field [i] of the instance at [a] replaced by the data of the
    value: the instance is changed in place.  Whenever SetField
    returns, the new heap is of that form, and the builder is still
    built on it. *)
Theorem SetField_spec (s : Struct) (h : heap) (name : string) (value : value_arg)
    (T : GoType) (a : nat) :
  Built s h -> structValue s = Place T false a [] ->
  (name ∉ (tf_name <$> struct_fields T) ->
   SetField s name value h = Panic ("Field " +:+ name +:+ " does not exist") h) /\
  (forall i f w,
     lookup_field T name = Some i -> struct_fields T !! i = Some f ->
     elem_if_ptr (valueOf value) h = Ret w h ->
     Kind_ w <> kindOf (tf_type f) ->
     SetField s name value h
       = Panic ("Cannot set field " +:+ name +:+ " with value of type "
                +:+ Kind_String (Kind_ w)) h) /\
  (forall i f t p,
     lookup_field T name = Some i -> struct_fields T !! i = Some f ->
     kindOf (tf_type f) <> Ptr ->
     value = OtherValue (IVal (TPtr (TPtr t)) (VPtr p)) ->
     SetField s name value h
       = Panic ("Cannot set field " +:+ name +:+ " with value of type "
                +:+ Kind_String (match p with Some _ => Ptr | None => Invalid end)) h) /\
  (forall i f w V x vs,
     lookup_field T name = Some i -> struct_fields T !! i = Some f ->
     tf_pkg f = EmptyString ->
     elem_if_ptr (valueOf value) h = Ret w h ->
     Kind_ w = kindOf (tf_type f) ->
     val_type w = Some V -> val_ro w = false ->
     directlyAssignable (tf_type f) V = true ->
     read w h = Ret x h ->
     h !! a = Some (VStruct vs) ->
     SetField s name value h = Ret tt (<[a := VStruct (<[i := x]> vs)]> h) /\
     (<[a := VStruct (<[i := x]> vs)]> h) !! a = Some (VStruct (<[i := x]> vs)) /\
     (<[i := x]> vs) !! i = Some x) /\
  (forall h',
     SetField s name value h = Ret tt h' ->
     exists i f w x vs,
       lookup_field T name = Some i /\ struct_fields T !! i = Some f /\
       elem_if_ptr (valueOf value) h = Ret w h /\
       Kind_ w = kindOf (tf_type f) /\
       read w h = Ret x h /\
       h !! a = Some (VStruct vs) /\
       h' = <[a := VStruct (<[i := x]> vs)]> h /\
       Built s h').
Proof.
  intros HB HT.
  destruct (Built_place s h T a HB HT) as (fs & vs & -> & Hty & Hcell & Hlen & Hof).
  assert (Hmade : made s = true) by apply HB.
  assert (Hfield : forall i f w,
            lookup_field (TStruct fs) name = Some i -> fs !! i = Some f ->
            elem_if_ptr (valueOf value) h = Ret w h ->
            Kind_ w <> kindOf (tf_type f) ->
            SetField s name value h
              = Panic ("Cannot set field " +:+ name +:+ " with value of type "
                       +:+ Kind_String (Kind_ w)) h).
  { intros i f w Hi Hf Hw Hk.
    unfold SetField, bind. rewrite checkMade_true by exact Hmade.
    rewrite HT, FieldByName_place, Hi, Hf. simpl. rewrite Hw. simpl.
    rewrite bool_decide_eq_false_2 by congruence. reflexivity. }
  split; [| split; [| split; [| split]]].
  - intros Hno. unfold SetField, bind. rewrite checkMade_true by exact Hmade.
    rewrite HT, FieldByName_place.
    rewrite (lookup_field_absent (TStruct fs) name Hno). reflexivity.
  - exact Hfield.
  - intros i f t p Hi Hf Hk ->. simpl in Hf.
    destruct p as [[a' p'] |].
    + apply (Hfield i f (Place (TPtr t) false a' p') Hi Hf); [reflexivity |].
      simpl. unfold kindOf at 1. simpl. congruence.
    + apply (Hfield i f Zero Hi Hf); [reflexivity |].
      simpl. intros E. symmetry in E. now apply kindOf_not_Invalid in E.
  - intros i f w V x vs0 Hi Hf Hpkg Hw Hk HV Hro Hasg Hx Hvs0.
    rewrite Hcell in Hvs0. injection Hvs0 as <-.
    change (fs !! i = Some f) in Hf.
    assert (Hlt : (i < List.length vs)%nat) by (apply lookup_lt_Some in Hf; lia).
    split; [| split].
    + unfold SetField, bind. rewrite checkMade_true by exact Hmade.
      rewrite HT, FieldByName_place, Hi, Hf. simpl. rewrite Hw. simpl.
      rewrite bool_decide_eq_true_2 by congruence. simpl.
      rewrite Hpkg. simpl.
      destruct w as [| V' rox y | V' rox a' p']; [discriminate HV | |];
        simpl in HV, Hro; injection HV as ->; subst rox;
        rewrite Hasg; unfold bind; rewrite Hx;
        now rewrite (store_field h a i vs x Hcell Hlt).
    + apply list_lookup_insert_eq. now apply lookup_lt_Some in Hcell.
    + now apply list_lookup_insert_eq.
  - intros h' H. exact (SetField_returns s h h' name value (TStruct fs) a HB HT H).
Qed.

Lemma person_runs : person [] = Ret (fst person_state) (snd person_state).
Proof. reflexivity. Qed.

Lemma person_built : Built (fst person_state) (snd person_state).
Proof.
  split; [reflexivity |]. do 3 eexists. repeat split; reflexivity.
Qed.

Lemma SetField_spec_witness :
  Built (fst person_state) (snd person_state) /\
  SetField (fst person_state) "Nope" (OtherValue (IVal TInt (VInt 1)))
    (snd person_state)
    = Panic "Field Nope does not exist" (snd person_state) /\
  SetField (fst person_state) "Age" (OtherValue (IVal TInt (VInt 23)))
    (snd person_state)
    = Ret tt [VStruct [VString EmptyString; VInt 23; VBool false]].
Proof.
  split; [exact person_built |]. split.
  - destruct (SetField_spec (fst person_state) (snd person_state) "Nope"
                (OtherValue (IVal TInt (VInt 1))) _ 0%nat person_built eq_refl)
      as (H & _).
    apply H. vm_compute. intros Hin.
    repeat (apply elem_of_cons in Hin as [Hin | Hin]; [discriminate Hin |]).
    now apply not_elem_of_nil in Hin.
  - destruct (SetField_spec (fst person_state) (snd person_state) "Age"
                (OtherValue (IVal TInt (VInt 23))) _ 0%nat person_built eq_refl)
      as (_ & _ & _ & H & _).
    apply (H 1%nat person_Age (Imm TInt false (VInt 23)) TInt (VInt 23)
             [VString EmptyString; VInt 0; VBool false]); reflexivity.
Defined.

(** ** SetField then GetField *)

Lemma primitive_not_Ptr (k : Kind) : primitive k = true -> k <> Ptr.
Proof. destruct k; simpl; congruence. Qed.

Lemma directlyAssignable_refl (t : GoType) : directlyAssignable t t = true.
Proof. unfold directlyAssignable. now rewrite decide_True. Qed.

(** C5, amended: on a built Struct with an exported field of primitive
    kind, SetField with a value of exactly the field's declared type
    returns, and GetField then returns that value. *)
Theorem SetField_GetField (s : Struct) (h : heap) (name : string) (T : GoType)
    (a i : nat) (f : TField) (v : Value) :
  Built s h -> structValue s = Place T false a [] ->
  lookup_field T name = Some i -> struct_fields T !! i = Some f ->
  tf_pkg f = EmptyString ->
  primitive (kindOf (tf_type f)) = true ->
  exists h',
    SetField s name (OtherValue (IVal (tf_type f) v)) h = Ret tt h' /\
    GetField s name h' = Ret (IVal (tf_type f) v) h'.
Proof.
  intros HB HT Hi Hf Hpkg Hprim.
  destruct (Built_place s h T a HB HT) as (fs & vs & -> & Hty & Hcell & Hlen & Hof).
  assert (Hmade : made s = true) by apply HB.
  change (fs !! i = Some f) in Hf.
  assert (Hlt : (i < List.length vs)%nat) by (apply lookup_lt_Some in Hf; lia).
  exists (<[a := VStruct (<[i := v]> vs)]> h). split.
  - unfold SetField, bind. rewrite checkMade_true by exact Hmade.
    rewrite HT, FieldByName_place, Hi, Hf. simpl.
    unfold elem_if_ptr. simpl.
    rewrite decide_False by now apply primitive_not_Ptr.
    unfold ret. rewrite bool_decide_eq_true_2 by reflexivity. simpl.
    rewrite Hpkg. simpl. rewrite directlyAssignable_refl. unfold bind. simpl.
    now rewrite (store_field h a i vs v Hcell Hlt).
  - unfold GetField, bind. rewrite checkMade_true by exact Hmade.
    rewrite HT, FieldByName_place, Hi, Hf. simpl. rewrite Hpkg. simpl.
    unfold bind, load. simpl.
    rewrite list_lookup_insert_eq by now apply lookup_lt_Some in Hcell.
    simpl. rewrite list_lookup_insert_eq by exact Hlt. reflexivity.
Qed.

Lemma SetField_GetField_witness :
  Built (fst person_state) (snd person_state) /\
  exists h',
    SetField (fst person_state) "Age" (OtherValue (IVal TInt (VInt 23)))
      (snd person_state) = Ret tt h' /\
    GetField (fst person_state) "Age" h' = Ret (IVal TInt (VInt 23)) h'.
Proof.
  split; [exact person_built |].
  apply (SetField_GetField (fst person_state) (snd person_state) "Age" _ 0%nat 1%nat
           person_Age (VInt 23) person_built eq_refl eq_refl eq_refl eq_refl eq_refl).
Defined.

(** C5 as stated, with the value chosen by kind, fails: a value of the
    defined type [MyInt] has kind Int, and SetField on the int field
    Age of the test's record panics in [reflect]'s Set. *)
Lemma roundtrip_by_kind_counterexample : ~ roundtrip_by_kind.
Proof.
  intros H.
  destruct (H (fst person_state) (snd person_state) "Age" _ 1%nat person_Age
              MyInt (VInt 5) person_built eq_refl eq_refl eq_refl eq_refl eq_refl)
    as (h' & t' & Hset & _).
  discriminate Hset.
Qed.

Example SetField_MyInt_panics :
  SetField (fst person_state) "Age" (OtherValue (IVal MyInt (VInt 5)))
    (snd person_state)
  = Panic "reflect.Set: value of type main.MyInt is not assignable to type int"
      (snd person_state).
Proof. reflexivity. Qed.

(** ** Make *)

Lemma zero_fields_lookup (fs : list TField) (i : nat) (f : TField) :
  fs !! i = Some f -> List.map zero_field fs !! i = Some (zero (tf_type f)).
Proof.
  intros Hf. change (List.map zero_field fs) with (zero_field <$> fs).
  rewrite list_lookup_fmap, Hf. now destruct f.
Qed.

Lemma Make_made (s : Struct) (h : heap) (fs : list TField) :
  made s = true -> sstruct s = Some (TStruct fs) ->
  Make s h
  = Ret (set_value s (Place (TStruct fs) false (List.length h) []))
      (h ++ [zero (TStruct fs)]).
Proof.
  intros Hm Hty. unfold Make, bind. rewrite Hm. simpl. rewrite Hm, Hty.
  reflexivity.
Qed.

Lemma Make_not_made (s : Struct) (h : heap) (fs : list TField) :
  made s = false ->
  StructOf_loop 0 EmptyString [] (fieldsByName s) = inr fs ->
  Make s h
  = Ret (set_value (set_type s (TStruct fs))
           (Place (TStruct fs) false (List.length h) []))
      (h ++ [zero (TStruct fs)]).
Proof.
  intros Hm Hof. unfold Make, bind, StructOf. rewrite Hm, Hof. reflexivity.
Qed.

(** Make establishes [Built], from a builder that is not built or
    was built before. *)
Lemma Make_Built (s s' : Struct) (h h' : heap) :
  made s = false \/ (exists h0, Built s h0) ->
  Make s h = Ret s' h' -> Built s' h'.
Proof.
  intros [Hm | (h0 & Hm & fs & a & vs & Hof & Hty & _)] Hrun.
  - unfold Make, bind, StructOf in Hrun. rewrite Hm in Hrun. simpl in Hrun.
    destruct (StructOf_loop 0 EmptyString [] (fieldsByName s)) as [e | fs] eqn:Hof;
      [discriminate |].
    simpl in Hrun. injection Hrun as <- <-.
    split; [reflexivity |].
    exists fs, (List.length h), (List.map zero_field fs).
    repeat split; try assumption.
    + rewrite lookup_app_r by lia. now rewrite Nat.sub_diag.
    + apply length_map.
  - rewrite (Make_made s h fs Hm Hty) in Hrun. injection Hrun as <- <-.
    split; [exact Hm |].
    exists fs, (List.length h), (List.map zero_field fs).
    repeat split; try assumption.
    + rewrite lookup_app_r by lia. now rewrite Nat.sub_diag.
    + apply length_map.
Qed.

(** C8, amended: on a builder that is already built, or whose pending
    descriptors [reflect.StructOf] accepts, Make returns with the flag
    set, the struct type [T] of the descriptors, and as instance a
    fresh heap object holding the zero value of [T].  A second call
    right after it, on whatever heap [h2] the accessors left, keeps
    [T] and again installs a fresh zero instance, so every exported
    field reads as the zero value of its type. *)
Theorem Make_spec (s : Struct) (h : heap) (fs : list TField) :
  (made s = true /\ sstruct s = Some (TStruct fs)) \/
  (made s = false /\ StructOf_loop 0 EmptyString [] (fieldsByName s) = inr fs) ->
  let T := TStruct fs in
  let s1 := {| tag := tag s; fieldsByName := fieldsByName s; sstruct := Some T;
               structValue := Place T false (List.length h) []; made := true |} in
  Make s h = Ret s1 (h ++ [zero T]) /\
  h !! List.length h = None /\
  forall h2 : heap,
    let s2 := set_value s1 (Place T false (List.length h2) []) in
    Make s1 h2 = Ret s2 (h2 ++ [zero T]) /\
    made s2 = true /\ sstruct s2 = sstruct s1 /\
    h2 !! List.length h2 = None /\
    forall i f,
      lookup_field T (tf_name f) = Some i -> fs !! i = Some f ->
      tf_pkg f = EmptyString ->
      GetField s2 (tf_name f) (h2 ++ [zero T])
        = Ret (IVal (tf_type f) (zero (tf_type f))) (h2 ++ [zero T]).
Proof.
  intros Hs. cbv zeta. split; [| split].
  - destruct Hs as [[Hm Hty] | [Hm Hof]].
    + rewrite (Make_made s h fs Hm Hty). unfold set_value.
      rewrite Hm, Hty. reflexivity.
    + rewrite (Make_not_made s h fs Hm Hof). reflexivity.
  - apply lookup_ge_None. lia.
  - intros h2. split; [| split; [| split; [| split]]].
    + now rewrite (Make_made _ h2 fs).
    + reflexivity.
    + reflexivity.
    + apply lookup_ge_None. lia.
    + intros i f Hi Hf Hpkg. unfold GetField, bind.
      rewrite checkMade_true by reflexivity. cbn [set_value structValue].
      rewrite FieldByName_place, Hi, Hf. simpl.
      rewrite Hpkg. simpl. unfold bind, load. simpl.
      rewrite lookup_app_r by lia. rewrite Nat.sub_diag. simpl.
      now rewrite (zero_fields_lookup fs i f Hf).
Qed.

Lemma Make_spec_witness :
  (made (fst person_state) = true /\
   sstruct (fst person_state) = Some (TStruct person_fields)) /\
  Make (fst person_state) [VStruct [VString "Nigel"; VInt 23; VBool true]]
  = Ret (set_value (fst person_state) (Place (TStruct person_fields) false 1 []))
      [VStruct [VString "Nigel"; VInt 23; VBool true];
       VStruct [VString EmptyString; VInt 0; VBool false]].
Proof.
  split; [split; reflexivity |].
  destruct (Make_spec (fst person_state)
              [VStruct [VString "Nigel"; VInt 23; VBool true]] person_fields
              (or_introl (conj eq_refl eq_refl)))
    as (H & _).
  exact H.
Defined.

(** C8 as stated fails: with the pending field [name string], whose
    name is lower case, [reflect.StructOf] panics, and so does Make;
    the builder is not built. *)
Lemma Make_always_builds_counterexample : ~ Make_always_builds.
Proof.
  intros H. destruct (H lowercase_builder []) as (s' & h' & Hrun & _).
  discriminate Hrun.
Qed.

Example Make_lowercase_panics :
  Make lowercase_builder []
  = Panic ("reflect.StructOf: field " +:+ quoted "name"
           +:+ " is unexported but missing PkgPath") [].
Proof. reflexivity. Qed.

(** ** DeepCopy *)

(** C1 at a slice field: after DeepCopy the field of the copy has the
    same backing array as the field of the source.  Element 0 of the
    source's field reads 1 before the client writes 9 to element 0 of
    the copy's field, and 9 after it. *)
Theorem DeepCopy_shares_slice_elements :
  exists h, tags_scenario [] = Ret (VInt 1, VInt 9, VInt 9) h.
Proof. eexists. reflexivity. Qed.

(** C2 at a descriptor whose structs tag is "required,omitempty":
    DeepCopy returns a built copy whose descriptor has the same name
    and the same encoding name, but IsRequired holds of the source's
    descriptor and not of the copy's. *)
Theorem DeepCopy_drops_required :
  exists s c h,
    tagged_scenario [] = Ret (s, c) h /\
    made s = true /\ made c = true /\
    Name <$> fieldsByName c = Name <$> fieldsByName s /\
    (fun f => StructTag.Get (Tag f) (tag c)) <$> fieldsByName c
      = (fun f => StructTag.Get (Tag f) (tag s)) <$> fieldsByName s /\
    IsRequired <$> fieldsByName s = [true] /\
    IsRequired <$> fieldsByName c = [false].
Proof. do 3 eexists. repeat split; reflexivity. Qed.

(** ** Paths into heap objects *)

Lemma set_path_same (v : Value) (p : list nat) (x : Value) :
  get_path v p = Some x -> set_path v p x = Some v.
Proof.
  revert v. induction p as [| i p IH]; intros v H; simpl in *.
  - congruence.
  - destruct v; try discriminate.
    destruct (fs !! i) as [w |] eqn:Hw; simpl in *; [| discriminate].
    rewrite (IH w H). simpl. now rewrite list_insert_id.
Qed.

Lemma get_set_path (v v' : Value) (p : list nat) (x : Value) :
  set_path v p x = Some v' -> get_path v' p = Some x.
Proof.
  revert v v'. induction p as [| i p IH]; intros v v' H; simpl in *.
  - congruence.
  - destruct v; try discriminate.
    destruct (fs !! i) as [w |] eqn:Hw; simpl in *; [| discriminate].
    destruct (set_path w p x) as [w' |] eqn:Hs; simpl in *; [| discriminate].
    injection H as <-. simpl.
    rewrite list_lookup_insert_eq by now apply lookup_lt_Some in Hw.
    simpl. now apply (IH w).
Qed.

Lemma set_set_path (v v' : Value) (p : list nat) (x y : Value) :
  set_path v p x = Some v' -> set_path v' p y = set_path v p y.
Proof.
  revert v v'. induction p as [| i p IH]; intros v v' H; simpl in *.
  - reflexivity.
  - destruct v; try discriminate.
    destruct (fs !! i) as [w |] eqn:Hw; simpl in *; [| discriminate].
    destruct (set_path w p x) as [w' |] eqn:Hs; simpl in *; [| discriminate].
    injection H as <-. simpl.
    rewrite list_lookup_insert_eq by now apply lookup_lt_Some in Hw.
    simpl. rewrite (IH w w' Hs).
    destruct (set_path w p y); simpl; [| reflexivity].
    now rewrite list_insert_insert_eq.
Qed.

Lemma set_path_field (v : Value) (p : list nat) (j : nat) (vs : list Value)
    (x : Value) :
  get_path v p = Some (VStruct vs) -> (j < List.length vs)%nat ->
  set_path v (p ++ [j]) x = set_path v p (VStruct (<[j := x]> vs)).
Proof.
  revert v. induction p as [| i p IH]; intros v H Hj; simpl in *.
  - injection H as ->. destruct (lookup_lt_is_Some_2 vs j Hj) as [w Hw].
    now rewrite Hw.
  - destruct v; try discriminate.
    destruct (fs !! i) as [w |] eqn:Hw; simpl in *; [| discriminate].
    now rewrite (IH w H Hj).
Qed.


Lemma store_same (h : heap) (a : nat) (p : list nat) (x : Value) :
  load h a p = Some x -> store h a p x = Some h.
Proof.
  unfold load, store. destruct (h !! a) as [v |] eqn:Hv; simpl; [| discriminate].
  intros H. rewrite (set_path_same v p x H). simpl. now rewrite list_insert_id.
Qed.

Lemma load_store (h h' : heap) (a : nat) (p : list nat) (x : Value) :
  store h a p x = Some h' -> load h' a p = Some x.
Proof.
  unfold load, store. destruct (h !! a) as [v |] eqn:Hv; simpl; [| discriminate].
  destruct (set_path v p x) as [v' |] eqn:Hs; simpl; [| discriminate].
  intros H. injection H as <-.
  rewrite list_lookup_insert_eq by now apply lookup_lt_Some in Hv.
  simpl. now apply (get_set_path v).
Qed.


Lemma store_store (h h' : heap) (a : nat) (p : list nat) (x y : Value) :
  store h a p x = Some h' -> store h' a p y = store h a p y.
Proof.
  unfold store. destruct (h !! a) as [v |] eqn:Hv; simpl; [| discriminate].
  destruct (set_path v p x) as [v' |] eqn:Hs; simpl; [| discriminate].
  intros H. injection H as <-.
  rewrite list_lookup_insert_eq by now apply lookup_lt_Some in Hv.
  simpl. rewrite (set_set_path v v' p x y Hs).
  destruct (set_path v p y); simpl; [| reflexivity].
  now rewrite list_insert_insert_eq.
Qed.

Lemma store_field_at (h h1 : heap) (a : nat) (p : list nat) (j : nat)
    (vs : list Value) (x : Value) :
  load h a p = Some (VStruct vs) -> (j < List.length vs)%nat ->
  store h a (p ++ [j]) x = store h a p (VStruct (<[j := x]> vs)).
Proof.
  unfold load, store. destruct (h !! a) as [v |] eqn:Hv; simpl; [| discriminate].
  intros H Hj. now rewrite (set_path_field v p j vs x H Hj).
Qed.


Lemma store_is_Some (h h' : heap) (a : nat) (p : list nat) (x y : Value) :
  store h a p x = Some h' -> is_Some (store h a p y).
Proof.
  unfold store. destruct (h !! a) as [v |] eqn:Hv; simpl; [| discriminate].
  intros H. assert (Hs : is_Some (set_path v p y)).
  { destruct (set_path v p x) as [v' |] eqn:Hx; [| discriminate]. clear H Hv.
    revert v v' Hx. induction p as [| i p IH]; intros v v' Hx; simpl in *.
    - eauto.
    - destruct v; try discriminate.
      destruct (fs !! i) as [w |] eqn:Hw; simpl in *; [| discriminate].
      destruct (set_path w p x) as [w' |] eqn:Hs; simpl in *; [| discriminate].
      destruct (IH w w' Hs) as [w'' ->]. simpl. eauto. }
  destruct Hs as [v'' ->]. simpl. eauto.
Qed.

(** ** Paths that part, and the types along a path *)
















(** ** ScanInto: what the loop does to the field values *)

Lemma scan_fold_length (fields : list string) (dfs sfs : list TField)
    (svs dvs : list Value) :
  List.length (scan_fold fields dfs sfs svs dvs) = List.length dvs.
Proof.
  revert svs dvs. induction sfs as [| sf sfs IH]; intros svs dvs; simpl.
  - reflexivity.
  - destruct svs as [| sv svs]; [reflexivity |]. rewrite IH.
    destruct (scan_target fields dfs sf); [apply length_insert | reflexivity].
Qed.

Lemma scan_fold_untouched (fields : list string) (dfs sfs : list TField)
    (svs dvs : list Value) (j : nat) :
  (forall i sf, sfs !! i = Some sf -> scan_target fields dfs sf <> Some j) ->
  scan_fold fields dfs sfs svs dvs !! j = dvs !! j.
Proof.
  revert svs dvs. induction sfs as [| sf sfs IH]; intros svs dvs H; simpl.
  - reflexivity.
  - destruct svs as [| sv svs]; [reflexivity |].
    rewrite IH by (intros i sf' Hi; apply (H (S i) sf' Hi)).
    destruct (scan_target fields dfs sf) as [j' |] eqn:Et; [| reflexivity].
    apply list_lookup_insert_ne. intros ->. now apply (H O sf).
Qed.

Lemma scan_fold_set (fields : list string) (dfs sfs : list TField)
    (svs dvs : list Value) (i j : nat) (sf : TField) :
  List.length svs = List.length sfs ->
  sfs !! i = Some sf -> scan_target fields dfs sf = Some j ->
  (forall i' sf', i' <> i -> sfs !! i' = Some sf' ->
                  scan_target fields dfs sf' <> Some j) ->
  (j < List.length dvs)%nat ->
  scan_fold fields dfs sfs svs dvs !! j = svs !! i.
Proof.
  revert svs dvs i. induction sfs as [| sf0 sfs IH]; intros svs dvs i Hlen Hi Ht Hu Hj.
  - discriminate.
  - destruct svs as [| sv svs]; [discriminate |]. simpl in Hlen.
    destruct i as [| i]; simpl in *.
    + injection Hi as ->. rewrite Ht.
      rewrite scan_fold_untouched.
      * now apply list_lookup_insert_eq.
      * intros i' sf' Hi'. apply (Hu (S i') sf'); [lia | exact Hi'].
    + apply IH; try assumption; [lia | |].
      * intros i' sf' Hne Hi'. apply (Hu (S i') sf'); [lia | exact Hi'].
      * destruct (scan_target fields dfs sf0); [now rewrite length_insert | exact Hj].
Qed.

Lemma allowed_test (fields : list string) (name : string) :
  (0 <? List.length fields)%nat
    && negb (existsb (fun f => bool_decide (f = name)) fields) = false
  <-> allowed fields name.
Proof.
  unfold allowed. destruct fields as [| f0 fields]; simpl.
  - split; [now left | reflexivity].
  - rewrite negb_false_iff. split.
    + intros H. right.
      change (existsb (fun f => bool_decide (f = name)) (f0 :: fields) = true) in H.
      apply existsb_exists in H as (f & Hin & Hf).
      apply bool_decide_eq_true in Hf. subst f. now apply list_elem_of_In.
    + intros [H | H]; [discriminate |].
      change (existsb (fun f => bool_decide (f = name)) (f0 :: fields) = true).
      apply existsb_exists. exists name. split; [now apply list_elem_of_In |].
      now apply bool_decide_eq_true.
Qed.

Lemma scan_target_Some (fields : list string) (dfs : list TField) (sf : TField)
    (j : nat) :
  scan_target fields dfs sf = Some j <->
  exists df,
    dfs !! j = Some df /\ allowed fields (tf_name sf) /\
    lookup_field (TStruct dfs) (tf_name sf) = Some j /\
    tf_pkg df = EmptyString /\ tf_type df = tf_type sf.
Proof.
  unfold scan_target. split.
  - destruct ((0 <? List.length fields)%nat && _) eqn:Ea; [discriminate |].
    apply allowed_test in Ea.
    destruct (lookup_field (TStruct dfs) (tf_name sf)) as [j' |]; [| discriminate].
    destruct (dfs !! j') as [df |] eqn:Hdf; [| discriminate].
    destruct (bool_decide (tf_pkg df = EmptyString)) eqn:Ep; [| discriminate].
    destruct (bool_decide (tf_type df = tf_type sf)) eqn:Et; [| discriminate].
    simpl. intros H. injection H as ->.
    apply bool_decide_eq_true in Ep, Et. exists df. repeat split; assumption.
  - intros (df & Hdf & Ha & Hl & Hp & Ht).
    apply allowed_test in Ha. rewrite Ha, Hl, Hdf.
    now rewrite !bool_decide_eq_true_2.
Qed.

Lemma scan_target_name (fields : list string) (dfs : list TField) (sf : TField)
    (j : nat) (df : TField) :
  scan_target fields dfs sf = Some j -> dfs !! j = Some df ->
  tf_name df = tf_name sf.
Proof.
  intros H Hdf. apply scan_target_Some in H as (df' & Hdf' & _ & Hl & _).
  unfold lookup_field in Hl. destruct (decide (tf_name sf = EmptyString)); [discriminate |].
  apply field_index_lookup in Hl as (g & Hg & Hn).
  change (dfs !! j = Some g) in Hg. congruence.
Qed.

(** The fold field by field: what [scan_sets] describes. *)
Lemma scan_fold_spec (fields : list string) (dfs sfs : list TField)
    (svs dvs : list Value) (j : nat) :
  List.length svs = List.length sfs -> List.length dvs = List.length dfs ->
  exported_distinct sfs -> export_agrees sfs dfs ->
  (forall i, scan_sets fields sfs dfs j i ->
             scan_fold fields dfs sfs svs dvs !! j = svs !! i) /\
  ((forall i, ~ scan_sets fields sfs dfs j i) ->
   scan_fold fields dfs sfs svs dvs !! j = dvs !! j).
Proof.
  intros Hls Hld Hnd Hexp. split.
  - intros i (sf & df & Hsf & Hdf & Ha & Hl & Hp & Ht).
    assert (Htgt : scan_target fields dfs sf = Some j).
    { apply scan_target_Some. exists df. repeat split; assumption. }
    apply (scan_fold_set fields dfs sfs svs dvs i j sf Hls Hsf Htgt).
    + intros i' sf' Hne Hsf' Htgt'. apply Hne.
      pose proof (scan_target_name _ _ _ _ _ Htgt Hdf) as E1.
      pose proof (scan_target_name _ _ _ _ _ Htgt' Hdf) as E2.
      assert (Hin : df ∈ dfs) by (apply list_elem_of_lookup; eauto).
      apply (Hnd i' i sf' sf Hsf' Hsf).
      * apply (Hexp sf' df); [apply list_elem_of_lookup; eauto | | |]; congruence.
      * apply (Hexp sf df); [apply list_elem_of_lookup; eauto | | |]; congruence.
      * congruence.
    + apply lookup_lt_Some in Hdf. lia.
  - intros Hnone. apply scan_fold_untouched.
    intros i sf Hsf Htgt. apply (Hnone i).
    apply scan_target_Some in Htgt as (df & Hdf & Ha & Hl & Hp & Ht).
    exists sf, df. repeat split; assumption.
Qed.


(** ** ScanInto: the loop on the heap *)

Lemma lookup_field_underlying (T : GoType) (fs : list TField) (name : string) :
  underlying T = TStruct fs -> lookup_field T name = lookup_field (TStruct fs) name.
Proof. intros H. unfold lookup_field, struct_fields. now rewrite H. Qed.

Lemma FieldByName_struct (T : GoType) (fs : list TField) (ro : bool) (a : nat)
    (p : list nat) (name : string) (h : heap) :
  underlying T = TStruct fs ->
  reflect.FieldByName (Place T ro a p) name h =
  match lookup_field (TStruct fs) name with
  | Some i =>
      match fs !! i with
      | Some f =>
          Ret (Place (tf_type f) (ro || negb (bool_decide (tf_pkg f = EmptyString)))
                 a (p ++ [i])) h
      | None => Panic "reflect: Field index out of range" h
      end
  | None => Ret Zero h
  end.
Proof.
  intros HT. unfold reflect.FieldByName. rewrite HT.
  rewrite (lookup_field_underlying T fs name HT).
  destruct (lookup_field (TStruct fs) name) as [i |]; [| reflexivity].
  unfold reflect.Field. rewrite HT, Nat2Z.id.
  destruct (decide (0 <= Z.of_nat i < Z.of_nat (List.length fs))%Z) as [Hi | Hi].
  - destruct (fs !! i); reflexivity.
  - rewrite (proj2 (lookup_ge_None fs i)) by lia. reflexivity.
Qed.

Lemma Type_Field_struct (S : GoType) (sfs : list TField) (i : nat) (sf : TField)
    (h : heap) :
  underlying S = TStruct sfs -> sfs !! i = Some sf ->
  Type_Field (Some S) (Z.of_nat i) h
  = Ret {| Name := tf_name sf; PkgPath := tf_pkg sf; Type_ := Some (tf_type sf);
           Tag := tf_tag sf; Index := [Z.of_nat i]; Anonymous := false |} h.
Proof.
  intros HS Hsf. unfold Type_Field. rewrite HS, Nat2Z.id, Hsf.
  rewrite decide_True; [reflexivity |]. apply lookup_lt_Some in Hsf. lia.
Qed.

Lemma Set_place (T V : GoType) (a : nat) (p : list nat) (value : Val) (x : Value)
    (h h' : heap) :
  val_type value = Some V -> val_ro value = false ->
  directlyAssignable T V = true ->
  read value h = Ret x h -> store h a p x = Some h' ->
  Set_ (Place T false a p) value h = Ret tt h'.
Proof.
  intros Hty Hro Hassign Hread Hstore. unfold Set_. simpl.
  destruct value as [| V' ro y | V' ro a' p']; [discriminate | |];
    simpl in Hty, Hro; injection Hty as ->; subst ro;
    rewrite Hassign; unfold bind; rewrite Hread, Hstore; reflexivity.
Qed.

Section ScanLoop.
Variable fields : list string.
Variables SrcT DstT : GoType.
Variables sfs dfs : list TField.
Variable svs : list Value.
Variable vsrc : Val.
Variables (ad : nat) (pd : list nat).
Variable h0 : heap.
Variable Inv : list Value -> Prop.

Hypothesis HS : underlying SrcT = TStruct sfs.
Hypothesis HD : underlying DstT = TStruct dfs.
Hypothesis Hlen_src : List.length svs = List.length sfs.

Hypothesis Hexport : export_agrees sfs dfs.

(** [Field(i)] of the source returns on every heap the loop passes
    through, and in a round that sets a destination field, reading it
    gives [svs !! i].  [Inv] is what the rounds keep of the
    destination's field values. *)
Hypothesis Hread :
  forall i sf x dvs hk,
    sfs !! i = Some sf -> svs !! i = Some x -> Inv dvs ->
    store h0 ad pd (VStruct dvs) = Some hk ->
    exists value,
      reflect.Field vsrc (Z.of_nat i) hk = Ret value hk /\
      val_type value = Some (tf_type sf) /\
      val_ro value = negb (bool_decide (tf_pkg sf = EmptyString)) /\
      (is_Some (scan_target fields dfs sf) -> read value hk = Ret x hk).

Hypothesis Hinv :
  forall i sf x j dvs,
    sfs !! i = Some sf -> svs !! i = Some x ->
    scan_target fields dfs sf = Some j ->
    Inv dvs -> Inv (<[j := x]> dvs).

Lemma scanInto_loop_spec (n i : nat) (dvs : list Value) (hk : heap) :
  (i + n = List.length sfs)%nat ->
  List.length dvs = List.length dfs ->
  Inv dvs ->
  store h0 ad pd (VStruct dvs) = Some hk ->
  exists h',
    scanInto_loop (Some SrcT) vsrc (Place DstT false ad pd) fields (Z.of_nat i) n hk
      = Ret tt h' /\
    store h0 ad pd
      (VStruct (scan_fold fields dfs (drop i sfs) (drop i svs) dvs)) = Some h'.
Proof.
  revert i dvs hk. induction n as [| n IH]; intros i dvs hk Hin Hld HI Hk.
  - exists hk. split; [reflexivity |].
    rewrite drop_ge by lia. exact Hk.
  - assert (Hi : (i < List.length sfs)%nat) by lia.
    destruct (lookup_lt_is_Some_2 sfs i Hi) as [sf Hsf].
    destruct (lookup_lt_is_Some_2 svs i ltac:(lia)) as [x Hx].
    rewrite (drop_S sfs sf i Hsf), (drop_S svs x i Hx).
    cbn [scanInto_loop scan_fold]. unfold bind at 1.
    rewrite (Type_Field_struct SrcT sfs i sf hk HS Hsf). cbn [Name].
    replace (Z.of_nat i + 1)%Z with (Z.of_nat (S i)) by lia.
    destruct (scan_target fields dfs sf) as [j |] eqn:Htgt.
    + pose proof Htgt as Htgt'.
      apply scan_target_Some in Htgt' as (df & Hdf & Ha & Hl & Ep & Et).
      apply allowed_test in Ha. rewrite Ha.
      destruct (Hread i sf x dvs hk Hsf Hx HI Hk)
        as (value & Hfield & Hvt & Hvro & Hvread).
      rewrite Htgt in Hvread. specialize (Hvread (mk_is_Some _ _ eq_refl)).
      unfold bind at 1. rewrite Hfield.
      unfold bind at 1. rewrite (FieldByName_struct DstT dfs false ad pd _ hk HD).
      rewrite Hl, Hdf. cbn [reflect.IsValid negb orb CanSet].
      rewrite (bool_decide_eq_true_2 _ Ep). cbn [negb andb].
      unfold bind at 1. cbn [TypeOfVal]. unfold ret at 1.
      unfold bind at 1.
      assert (Htv : TypeOfVal value hk = Ret (tf_type sf) hk).
      { destruct value; [discriminate | |]; simpl in Hvt; injection Hvt as ->;
          reflexivity. }
      rewrite Htv. rewrite (bool_decide_eq_true_2 _ Et). cbn [negb andb].
      assert (Hjlt : (j < List.length dvs)%nat) by (apply lookup_lt_Some in Hdf; lia).
      pose proof (load_store _ _ _ _ _ Hk) as Hload.
      destruct (store_is_Some h0 hk ad pd (VStruct dvs) (VStruct (<[j := x]> dvs)) Hk)
        as [h1 Hh1].
      assert (Hstore : store hk ad (pd ++ [j]) x = Some h1).
      { rewrite (store_field_at hk hk ad pd j dvs x Hload Hjlt).
        now rewrite (store_store h0 hk ad pd _ _ Hk). }
      assert (Hvro' : val_ro value = false).
      { rewrite Hvro. rewrite bool_decide_eq_true_2; [reflexivity |].
        apply (Hexport sf df).
        - apply list_elem_of_lookup. eauto.
        - apply list_elem_of_lookup. eauto.
        - symmetry. apply (scan_target_name fields dfs sf j df Htgt Hdf).
        - exact Ep. }
      unfold bind at 1.
      rewrite (Set_place (tf_type df) (tf_type sf) ad (pd ++ [j]) value x hk h1
                 Hvt Hvro'
                 ltac:(rewrite Et; apply directlyAssignable_refl) Hvread Hstore).
      apply IH; [lia | now rewrite length_insert | | exact Hh1].
      apply (Hinv i sf x j dvs Hsf Hx Htgt HI).
    + unfold scan_target in Htgt.
      destruct ((0 <? List.length fields)%nat
                && negb (existsb (fun f => bool_decide (f = tf_name sf)) fields)) eqn:Ea.
      { apply IH; [lia | exact Hld | exact HI | exact Hk]. }
      destruct (Hread i sf x dvs hk Hsf Hx HI Hk)
        as (value & Hfield & Hvt & Hvro & _).
      unfold bind at 1. rewrite Hfield.
      unfold bind at 1. rewrite (FieldByName_struct DstT dfs false ad pd _ hk HD).
      destruct (lookup_field (TStruct dfs) (tf_name sf)) as [j |] eqn:Hl.
      2:{ cbn [reflect.IsValid negb]. apply IH; [lia | exact Hld | exact HI | exact Hk]. }
      assert (Hlj := Hl). unfold lookup_field in Hlj.
      destruct (decide (tf_name sf = EmptyString)); [discriminate |].
      apply field_index_lookup in Hlj as (df & Hdf & Hname).
      change (dfs !! j = Some df) in Hdf. rewrite Hdf in Htgt |- *.
      cbn [reflect.IsValid negb orb CanSet].
      destruct (bool_decide (tf_pkg df = EmptyString)) eqn:Ep; cbn [negb andb].
      2:{ apply IH; [lia | exact Hld | exact HI | exact Hk]. }
      unfold bind at 1. cbn [TypeOfVal]. unfold ret at 1.
      unfold bind at 1.
      assert (Htv : TypeOfVal value hk = Ret (tf_type sf) hk).
      { destruct value; [discriminate | |]; simpl in Hvt; injection Hvt as ->;
          reflexivity. }
      rewrite Htv.
      destruct (bool_decide (tf_type df = tf_type sf)) eqn:Et; cbn [negb andb].
      2:{ apply IH; [lia | exact Hld | exact HI | exact Hk]. }
      discriminate Htgt.
Qed.

End ScanLoop.

Lemma kindOf_Ptr (t : GoType) :
  kindOf t = Ptr -> exists e, underlying t = TPtr e /\ Type_Elem t = Some e.
Proof.
  unfold kindOf, Type_Elem. destruct (underlying t); try discriminate. eauto.
Qed.

Lemma kindOf_Struct (t : GoType) :
  kindOf t = Struct_ -> exists fs, underlying t = TStruct fs.
Proof. unfold kindOf. destruct (underlying t); try discriminate. eauto. Qed.

Lemma underlying_kind (t : GoType) (fs : list TField) :
  underlying t = TStruct fs -> kindOf t = Struct_.
Proof. unfold kindOf. now intros ->. Qed.

Ltac scan_dest_checks td SrcT Hs :=
  let Hd := fresh "Hd" in
  let Hds := fresh "Hds" in
  let de := fresh "de" in
  let Hud := fresh "Hud" in
  let Hde := fresh "Hde" in
  let sfs := fresh "sfs" in
  let Hsfs := fresh "Hsfs" in
  destruct (decide (kindOf td = Ptr)) as [Hd | Hd];
    [| now rewrite bool_decide_eq_false_2];
  rewrite bool_decide_eq_true_2 by exact Hd; cbn [negb Type_ElemOf];
  destruct (kindOf_Ptr td Hd) as (de & Hud & Hde); rewrite Hde;
  unfold ret; cbn [Type_Kind]; unfold ret;
  destruct (decide (kindOf de = Struct_)) as [Hds | Hds];
    [| now rewrite bool_decide_eq_false_2];
  rewrite bool_decide_eq_true_2 by exact Hds; cbn [negb];
  destruct (kindOf_Struct SrcT Hs) as (sfs & Hsfs);
  cbn [Type_NumField]; unfold struct_fields; rewrite Hsfs; unfold ret;
  reflexivity.

(** The checks of scanInto before its loop, on non-nil interface
    values: an error for a source that is not a record after one
    pointer, then for a destination that is not a pointer to a record;
    else the loop. *)
Lemma scanInto_checks (ts td : GoType) (v vd : Value) (fields : list string)
    (h : heap) :
  (kindOf ts = Ptr -> exists p, v = VPtr p) ->
  scanInto (IVal ts v) (IVal td vd) fields h =
  if decide (kindOf (unwrap_ptr ts) = Struct_) then
    if decide (kindOf td = Ptr) then
      match Type_Elem td with
      | Some DstT =>
          if decide (kindOf DstT = Struct_) then
            (valueOfSource <- elem_if_ptr (Imm ts false v);;
             valueOfDestElem <- Elem (Imm td false vd);;
             scanInto_loop (Some (unwrap_ptr ts)) valueOfSource valueOfDestElem
               fields 0 (List.length (struct_fields (unwrap_ptr ts)));;;
             ret None) h
          else Ret (Some "Destination is not a pointer to a struct") h
      | None => Ret (Some "Destination is not a pointer") h
      end
    else Ret (Some "Destination is not a pointer") h
  else Ret (Some "Source is not a struct") h.
Proof.
  intros Hshape. unfold scanInto, unwrap_ptr, elem_if_ptr.
  cbn [TypeOf ValueOf Type_Kind Kind_]. unfold bind, ret.
  destruct (decide (kindOf ts = Ptr)) as [Hp | Hp].
  - destruct (kindOf_Ptr ts Hp) as (e & Hu & He).
    destruct (Hshape Hp) as [p ->]. rewrite He. cbn [default Type_ElemOf].
    rewrite He. unfold ret, id.
    assert (Hel : Elem (Imm ts false (VPtr p)) h
                  = Ret match p with
                        | Some (a, q) => Place e false a q
                        | None => Zero
                        end h).
    { unfold Elem. rewrite Hu. unfold bind, read, ret. now destruct p as [[a q] |]. }
    rewrite Hel. cbn [fst snd Type_Kind]. unfold ret.
    destruct (decide (kindOf e = Struct_)) as [Hs | Hs];
      [| now rewrite bool_decide_eq_false_2].
    rewrite bool_decide_eq_true_2 by exact Hs. cbn [negb].
    scan_dest_checks td e Hs.
  - cbn [fst snd Type_Kind]. unfold ret.
    destruct (decide (kindOf ts = Struct_)) as [Hs | Hs];
      [| now rewrite bool_decide_eq_false_2].
    rewrite bool_decide_eq_true_2 by exact Hs. cbn [negb].
    scan_dest_checks td ts Hs.
Qed.

Lemma read_source_value (SrcT : GoType) (sfs : list TField) (svs : list Value)
    (i : nat) (sf : TField) (x : Value) (hk : heap) :
  underlying SrcT = TStruct sfs ->
  sfs !! i = Some sf -> svs !! i = Some x ->
  exists value,
    reflect.Field (Imm SrcT false (VStruct svs)) (Z.of_nat i) hk = Ret value hk /\
    val_type value = Some (tf_type sf) /\
    val_ro value = negb (bool_decide (tf_pkg sf = EmptyString)) /\
    read value hk = Ret x hk.
Proof.
  intros HS Hsf Hx.
  exists (Imm (tf_type sf) (negb (bool_decide (tf_pkg sf = EmptyString))) x).
  repeat split. unfold reflect.Field. rewrite HS, Nat2Z.id, Hsf.
  rewrite decide_True by (apply lookup_lt_Some in Hsf; lia).
  unfold bind, read, ret. simpl. now rewrite Hx.
Qed.






Lemma Type_Elem_Elem (td DstT : GoType) (p : option (nat * list nat)) (h : heap) :
  kindOf td = Ptr -> Type_Elem td = Some DstT ->
  Elem (Imm td false (VPtr p)) h
  = Ret match p with
        | Some (a, q) => Place DstT false a q
        | None => Zero
        end h.
Proof.
  intros Hk He. destruct (kindOf_Ptr td Hk) as (e & Hu & He').
  assert (e = DstT) as -> by congruence.
  unfold Elem. rewrite Hu. unfold bind, read, ret. now destruct p as [[a q] |].
Qed.





Example ScanInto_nil_pointer_destination :
  ScanInto (OtherSource (IVal scan_src_type scan_src_value))
    (IVal (TPtr scan_dst_type) (VPtr None)) [] []
  = Panic "reflect: call of reflect.Value.FieldByName on zero Value" [].
Proof. reflexivity. Qed.

Example ScanInto_nil_destination :
  ScanInto (OtherSource (IVal scan_src_type scan_src_value)) INil [] []
  = Panic nil_deref [].
Proof. reflexivity. Qed.

Example ScanInto_nil_source :
  ScanInto (OtherSource INil) (IVal (TPtr scan_dst_type) (VPtr (Some (O, []))))
    [] scan_dst_heap
  = Panic nil_deref scan_dst_heap.
Proof. reflexivity. Qed.

(** A source that points into the destination's own object: the inner
    record of an outer record scanned into the outer record, and a
    record scanned into itself. *)
Example ScanInto_from_inner_record :
  ScanInto (OtherSource (IVal (TPtr scan_inner_type) (VPtr (Some (O, [O])))))
    (IVal (TPtr scan_outer_type) (VPtr (Some (O, [])))) [] scan_outer_heap
  = Ret None [VStruct [VStruct [VString "Nigel"; VInt 23]; VString "Nigel"; VInt 23]].
Proof. reflexivity. Qed.

Example ScanInto_into_itself :
  ScanInto (OtherSource (IVal (TPtr scan_outer_type) (VPtr (Some (O, [])))))
    (IVal (TPtr scan_outer_type) (VPtr (Some (O, [])))) [] scan_outer_heap
  = Ret None scan_outer_heap.
Proof. reflexivity. Qed.

Example ScanInto_copies_Age :
  ScanInto (OtherSource (IVal scan_src_type scan_src_value))
    (IVal (TPtr scan_dst_type) (VPtr (Some (O, [])))) [] scan_dst_heap
  = Ret None [VStruct [VInt 23; VString "old"; VString "a@b"]].
Proof. reflexivity. Qed.

(** A built *Struct as source: ScanInto scans the instance, by
    value. *)
Lemma ScanInto_builder (b : Struct) (h : heap) (T : GoType) (a : nat)
    (dest : iface) (fields : list string) :
  Built b h -> structValue b = Place T false a [] ->
  exists vs,
    h !! a = Some (VStruct vs) /\
    ScanInto (StructPtr b) dest fields h
    = ScanInto (OtherSource (IVal T (VStruct vs))) dest fields h.
Proof.
  intros HB HT.
  destruct (Built_place b h T a HB HT) as (fs & vs & -> & Hty & Hcell & Hlen & Hof).
  exists vs. split; [exact Hcell |].
  unfold ScanInto, Interface, bind. rewrite checkMade_true by apply HB.
  rewrite HT. simpl. unfold bind, load. simpl. now rewrite Hcell.
Qed.

(** ** DeepCopy of a builder filled through AddField *)

Lemma from_AddField_utf8_plain (T : string) (f : StructField) :
  from_AddField_utf8 T f -> from_AddField T f.
Proof.
  intros (abs & enc & ty & req & Habs & Hplain & _ & ->).
  exists abs, enc, ty, req. split; [exact Habs |]. split; [exact Hplain | reflexivity].
Qed.

Lemma readd_field (T : string) (f : StructField) (s : Struct) :
  valid_key T -> T <> "structs" -> from_AddField_utf8 T f -> tag s = T ->
  added_field s (Name f) (StructTag.Get (Tag f) T) (Type_ f)
    [bool_decide (StructTag.Get (Tag f) "structs" = "required")] = f.
Proof.
  intros Hk Hs (abs & enc & ty & req & Habs & Hplain & Hutf & ->) Ht.
  pose proof (added_field_Get (New T) abs enc ty req Hk Hplain Hutf) as HG.
  pose proof (added_field_IsRequired (New T) abs enc ty req Hk Hplain Hs) as HR.
  cbv zeta in HG, HR. cbn [tag New] in HG. rewrite HG, HR.
  unfold added_field. cbn [Name Type_ tag New]. rewrite Ht.
  set (enc' := if decide (enc = EmptyString) then abs else enc) in *.
  assert (Hne : enc' <> EmptyString).
  { unfold enc'. now destruct (decide (enc = EmptyString)). }
  rewrite (decide_False (P := enc' = EmptyString)) by exact Hne.
  destruct req as [| [] r]; reflexivity.
Qed.

Lemma from_AddField_Name (T : string) (f : StructField) :
  from_AddField T f ->
  Name f <> EmptyString /\ PkgPath f = EmptyString /\ Index f = [].
Proof. intros (abs & enc & ty & req & Habs & _ & ->). now repeat split. Qed.

Lemma DeepCopy_fields_same (T : string) (fs pre : list StructField)
    (ty : option GoType) (v : Val) (h : heap) :
  valid_key T -> T <> "structs" -> Forall (from_AddField_utf8 T) fs ->
  NoDup (Name <$> (pre ++ fs)) ->
  DeepCopy_fields T fs
    {| tag := T; fieldsByName := pre; sstruct := ty; structValue := v;
       made := false |} h
  = Ret {| tag := T; fieldsByName := pre ++ fs; sstruct := ty; structValue := v;
           made := false |} h.
Proof.
  intros Hk Hs Hall. revert pre.
  induction Hall as [| f fs Hf Hall IH]; intros pre Hnd; cbn [DeepCopy_fields].
  - now rewrite app_nil_r.
  - set (ns := {| tag := T; fieldsByName := pre; sstruct := ty; structValue := v;
                  made := false |}).
    destruct (from_AddField_Name T f (from_AddField_utf8_plain T f Hf)) as (Hname & _ & _).
    assert (Hfresh : ~ (Name f = EmptyString \/ Name f ∈ (Name <$> fieldsByName ns))).
    { intros [E | Hin]; [contradiction |]. cbn [fieldsByName ns] in Hin.
      rewrite fmap_app in Hnd. apply NoDup_app in Hnd as (_ & Hdis & _).
      apply (Hdis (Name f) Hin). rewrite fmap_cons. left. }
    destruct (AddField_outcome ns (Name f) (StructTag.Get (Tag f) T) (Type_ f)
                [bool_decide (StructTag.Get (Tag f) "structs" = "required")] h)
      as (_ & Hex & Heq).
    destruct (proj2 Hex Hfresh) as (s' & h' & Hrun).
    destruct (Heq s' h' Hrun) as [-> ->].
    unfold bind. rewrite Hrun.
    rewrite (readd_field T f ns Hk Hs Hf eq_refl). cbn [tag fieldsByName sstruct structValue ns].
    rewrite (IH (pre ++ [f])) by now rewrite <- app_assoc.
    now rewrite <- app_assoc.
Qed.

Lemma StructOf_loop_names (i : nat) (pkgpath : string) (seen : list string)
    (fs : list StructField) (tfs : list TField) :
  StructOf_loop i pkgpath seen fs = inr tfs ->
  Forall (fun f => PkgPath f = EmptyString) fs ->
  NoDup (Name <$> fs) /\ forall f, f ∈ fs -> Name f ∉ seen.
Proof.
  intros H Hall. revert i pkgpath seen tfs H.
  induction Hall as [| f fs Hp Hall IH]; intros i pkgpath seen tfs H.
  - split; [constructor | intros f Hf; now apply not_elem_of_nil in Hf].
  - cbn [StructOf_loop] in H.
    destruct (Name f) as [| c r] eqn:En; [discriminate |].
    destruct (negb (isValidFieldName (String c r))); [discriminate |].
    destruct (Type_ f) as [ft |]; [| discriminate].
    rewrite Hp in H. rewrite bool_decide_eq_true_2 in H by reflexivity.
    cbn [negb andb] in H. rewrite andb_false_r in H.
    destruct (Str.is_lower c || Str.is_underscore c) eqn:Ec; [discriminate |].
    destruct (Anonymous f); [discriminate |].
    assert (Hnu : String c r <> "_").
    { intros E. injection E as -> _. discriminate Ec. }
    rewrite (bool_decide_eq_false_2 (String c r = "_")) in H by exact Hnu.
    cbn [negb] in H. rewrite andb_true_r in H.
    destruct (bool_decide (String c r ∈ seen)) eqn:Es; [discriminate |].
    apply bool_decide_eq_false in Es.
    destruct (StructOf_loop (S i) pkgpath (String c r :: seen) fs) as [e | tfs'] eqn:Er;
      [discriminate |].
    destruct (IH _ _ _ _ Er) as [Hnd Hseen].
    rewrite fmap_cons, En. split.
    + constructor; [| exact Hnd]. intros Hin.
      apply list_elem_of_fmap in Hin as (g & Hg & Hgin).
      apply (Hseen g Hgin). rewrite <- Hg. left.
    + intros g Hg. apply elem_of_cons in Hg as [Eg | Hg].
      * subst g. now rewrite En.
      * intros Hin. apply (Hseen g Hg). now right.
Qed.

(** One round of the second loop for a descriptor with an empty
    index: FieldByIndex gives the whole instance on both sides, and
    Set copies the source's instance over the copy's. *)
Lemma DeepCopy_values_whole (s ns : Struct) (T : GoType) (fs : list TField)
    (a : nat) (vs : list Value) (h : heap) (x : Value)
    (fields : list StructField) :
  T = TStruct fs ->
  structValue s = Place T false a [] ->
  structValue ns = Place T false (List.length h) [] ->
  h !! a = Some (VStruct vs) ->
  Forall (fun f => Index f = []) fields ->
  DeepCopy_values s ns fields (h ++ [x])
  = Ret tt (match fields with [] => h ++ [x] | _ => h ++ [VStruct vs] end).
Proof.
  intros -> Hs Hns Hcell Hall. revert x.
  induction Hall as [| f fields Hf Hall IH]; intros x; cbn [DeepCopy_values].
  - reflexivity.
  - rewrite Hf, Hs, Hns. unfold FieldByIndex, elem_if_ptr, bind, ret.
    cbn [Kind_ FieldByIndex_loop].
    repeat (change (kindOf (TStruct fs)) with Struct_;
            first [ rewrite decide_True by reflexivity
                  | rewrite decide_False by discriminate
                  | rewrite bool_decide_eq_true_2 by reflexivity ];
            unfold ret; cbn beta iota; cbn [Kind_ negb CanSet]).
    assert (Ha : (a < List.length h)%nat) by now apply lookup_lt_Some in Hcell.
    rewrite (Set_place (TStruct fs) (TStruct fs) (List.length h) []
               (Place (TStruct fs) false a []) (VStruct vs) (h ++ [x])
               (h ++ [VStruct vs]) eq_refl eq_refl (directlyAssignable_refl _)).
    + rewrite IH. now destruct fields.
    + unfold read, load. rewrite lookup_app_l by exact Ha. now rewrite Hcell.
    + unfold store. rewrite lookup_app_r by lia. rewrite Nat.sub_diag. simpl.
      rewrite insert_app_r_alt by lia. now rewrite Nat.sub_diag.
Qed.

(** DeepCopy of a built Struct whose descriptors all come from
    AddField, under a valid tag key other than structs and with
    encoding names that are valid UTF-8 without quote, backslash or
    newline: it returns a built copy with the same descriptors and the
    same type, whose instance is a new heap object holding the field
    values of the source's instance; the heap is otherwise as it
    was.  (With another encoding name [Tag.Get] reads back a different
    name, the copy's type differs from the source's, and the copy of
    the instance panics in [reflect]: see [DeepCopy_name_not_utf8].) *)
Theorem DeepCopy_of_AddField_builder (s : Struct) (h : heap) (T : GoType) (a : nat)
    (vs : list Value) :
  Built s h -> structValue s = Place T false a [] -> h !! a = Some (VStruct vs) ->
  valid_key (tag s) -> tag s <> "structs" ->
  Forall (from_AddField_utf8 (tag s)) (fieldsByName s) ->
  DeepCopy s h
  = Ret {| tag := tag s; fieldsByName := fieldsByName s; sstruct := sstruct s;
           structValue := Place T false (List.length h) []; made := true |}
      (h ++ [VStruct vs]).
Proof.
  intros HB HT Hcell Hk Hs Hall.
  destruct (Built_place s h T a HB HT) as (fs & vs' & -> & Hty & Hcell' & Hlen & Hof).
  assert (vs' = vs) as -> by congruence.
  assert (Hmeta : Forall (fun f => PkgPath f = EmptyString) (fieldsByName s)
                  /\ Forall (fun f => Index f = []) (fieldsByName s)).
  { split; eapply Forall_impl; try exact Hall; intros f Hf;
      now destruct (from_AddField_Name _ f (from_AddField_utf8_plain _ f Hf))
        as (_ & ? & ?). }
  destruct Hmeta as [Hpkg Hidx].
  destruct (StructOf_loop_names _ _ _ _ _ Hof Hpkg) as [Hnd _].
  unfold DeepCopy, bind. rewrite checkMade_true by apply HB.
  unfold New.
  rewrite (DeepCopy_fields_same (tag s) (fieldsByName s) [] None Zero h Hk Hs Hall Hnd).
  cbn [app].
  rewrite (Make_not_made
             {| tag := tag s; fieldsByName := fieldsByName s; sstruct := None;
                structValue := Zero; made := false |} h fs eq_refl Hof).
  unfold set_value, set_type. cbn [tag fieldsByName sstruct structValue made].
  rewrite (DeepCopy_values_whole s
             {| tag := tag s; fieldsByName := fieldsByName s;
                sstruct := Some (TStruct fs);
                structValue := Place (TStruct fs) false (List.length h) [];
                made := true |}
             (TStruct fs) fs a vs h _ (fieldsByName s)
             eq_refl HT eq_refl Hcell Hidx).
  unfold ret. rewrite Hty.
  destruct (fieldsByName s) as [| f0 fields] eqn:Ef; [| reflexivity].
  cbn [StructOf_loop] in Hof. injection Hof as <-.
  destruct vs; [reflexivity | discriminate Hlen].
Qed.

Lemma DeepCopy_of_AddField_builder_witness :
  Built (fst person_state) (snd person_state) /\
  exists c h',
    DeepCopy (fst person_state) (snd person_state) = Ret c h' /\
    fieldsByName c = fieldsByName (fst person_state) /\
    structValue c = Place (TStruct person_fields) false 1 [].
Proof.
  split; [exact person_built |].
  assert (Hall : Forall (from_AddField_utf8 "json") (fieldsByName (fst person_state))).
  { repeat constructor.
    - exists "Name", "name", (Some TString), [true].
      split; [discriminate | split; [repeat split | split; reflexivity]].
    - exists "Age", "age", (Some TInt), [true].
      split; [discriminate | split; [repeat split | split; reflexivity]].
    - exists "Is_cool", "is_cool", (Some TBool), [true].
      split; [discriminate | split; [repeat split | split; reflexivity]]. }
  do 2 eexists. split.
  - apply (DeepCopy_of_AddField_builder (fst person_state) (snd person_state)
             (TStruct person_fields) 0%nat [VString EmptyString; VInt 0; VBool false]
             person_built eq_refl eq_refl).
    + split; [discriminate | reflexivity].
    + discriminate.
    + exact Hall.
  - split; reflexivity.
Defined.

(** ** ScanInto on nil *)

(** A nil source makes scanInto panic at its first [Kind()] call. *)
Lemma scanInto_nil_source (dest : iface) (fields : list string) (h : heap) :
  scanInto INil dest fields h = Panic nil_deref h.
Proof. reflexivity. Qed.

(** A nil destination, after a source that passed its check, makes
    scanInto panic at the destination's [Kind()] call. *)
Lemma scanInto_nil_destination (ts : GoType) (svs : list Value)
    (fields : list string) (h : heap) :
  kindOf ts = Struct_ ->
  scanInto (IVal ts (VStruct svs)) INil fields h = Panic nil_deref h.
Proof.
  intros Hk. unfold scanInto. cbn [TypeOf ValueOf Type_Kind].
  unfold bind, ret. rewrite Hk. rewrite decide_False by discriminate.
  cbn [fst snd Type_Kind]. unfold ret. rewrite Hk.
  rewrite bool_decide_eq_true_2 by reflexivity. reflexivity.
Qed.

(** An encoding name that is not valid UTF-8: the builder builds, and
    its DeepCopy panics. *)
Example DeepCopy_name_not_utf8 :
  (s <- AddField (New "json") "A" name_not_utf8 (Some TString) [];; Make s) []
  = Ret (fst not_utf8_state) (snd not_utf8_state) /\
  exists msg h', DeepCopy (fst not_utf8_state) (snd not_utf8_state) = Panic msg h'.
Proof.
  split; [vm_compute; reflexivity |].
  destruct (DeepCopy (fst not_utf8_state) (snd not_utf8_state)) as [c h1 | msg h1] eqn:E;
    [vm_compute in E; discriminate E | eauto].
Qed.

(** ** The copy and the source do not share their instance *)



(** * Further properties *)


(** ** Descriptors and the fields of the built type *)

Lemma StructOf_loop_cons (i : nat) (pk : string) (seen : list string)
    (f : StructField) (rest : list StructField) (tfs : list TField) :
  StructOf_loop i pk seen (f :: rest) = inr tfs ->
  exists ft tfs' pk',
    tfs = mkTField (Name f) (PkgPath f) (Tag f) ft :: tfs' /\
    Type_ f = Some ft /\
    isValidFieldName (Name f) = true /\
    Anonymous f = false /\
    (PkgPath f = EmptyString ->
     forall c r, Name f = String c r -> Str.is_lower c || Str.is_underscore c = false) /\
    (Name f <> "_" -> Name f ∉ seen) /\
    StructOf_loop (S i) pk' (Name f :: seen) rest = inr tfs'.
Proof.
  cbn [StructOf_loop].
  destruct (Name f) as [| c r] eqn:Hn; [discriminate |].
  destruct (negb (isValidFieldName (String c r))) eqn:Hv; [discriminate |].
  destruct (Type_ f) as [ft |]; [| discriminate].
  destruct (Anonymous f && negb (bool_decide (PkgPath f = ""))) eqn:H1; [discriminate |].
  destruct (bool_decide (PkgPath f = "") && (Str.is_lower c || Str.is_underscore c)) eqn:H2;
    [discriminate |].
  match goal with |- (if ?b then _ else _) = _ -> _ => destruct b; [discriminate |] end.
  destruct (Anonymous f) eqn:Ha; [discriminate |].
  destruct (bool_decide (String c r ∈ seen) && negb (bool_decide (String c r = "_"))) eqn:H3;
    [discriminate |].
  match goal with |- match ?x with _ => _ end = _ -> _ => destruct x as [e | tfs'] eqn:Hrec end;
    [discriminate |].
  intros [= <-]. eexists ft, tfs', _. repeat split; eauto.
  - now apply negb_false_iff in Hv.
  - intros Hp c' r' [= <- <-].
    rewrite bool_decide_eq_true_2 in H2 by assumption. exact H2.
  - intros Hne Hin. apply andb_false_iff in H3 as [H3 | H3].
    + apply bool_decide_eq_false in H3. contradiction.
    + apply negb_false_iff, bool_decide_eq_true in H3. contradiction.
Qed.

Lemma StructOf_loop_fields (fields : list StructField) :
  forall i pk seen tfs,
    StructOf_loop i pk seen fields = inr tfs -> Forall2 field_of fields tfs.
Proof.
  induction fields as [| f rest IH]; intros i pk seen tfs H.
  - cbn in H. injection H as <-. constructor.
  - apply StructOf_loop_cons in H as (ft & tfs' & pk' & -> & Ht & _ & _ & _ & _ & Hrec).
    constructor; [| eapply IH; eassumption].
    repeat split; assumption.
Qed.

Lemma StructOf_loop_index (fields : list StructField) :
  forall i pk seen tfs j f,
    StructOf_loop i pk seen fields = inr tfs ->
    fields !! j = Some f -> Name f <> "_" ->
    field_index (Name f) tfs = Some j /\ Name f ∉ seen.
Proof.
  induction fields as [| g rest IH]; intros i pk seen tfs j f H Hj Hb; [discriminate |].
  apply StructOf_loop_cons in H as (ft & tfs' & pk' & -> & Ht & _ & _ & _ & Hseen & Hrec).
  destruct j as [| j].
  - injection Hj as ->. split; [| auto].
    cbn. rewrite decide_True by reflexivity. reflexivity.
  - cbn in Hj. destruct (IH _ _ _ _ _ _ Hrec Hj Hb) as [Hi Hns].
    split.
    + cbn. rewrite decide_False.
      * rewrite Hi. reflexivity.
      * intros E. apply Hns. rewrite <- E. left.
    + intros Hin. apply Hns. right. assumption.
Qed.

Lemma StructOf_loop_exported (fields : list StructField) :
  forall i pk seen tfs f,
    StructOf_loop i pk seen fields = inr tfs ->
    f ∈ fields -> PkgPath f = EmptyString ->
    Name f <> "_" /\ Name f <> EmptyString.
Proof.
  induction fields as [| g rest IH]; intros i pk seen tfs f H Hin Hp.
  - inversion Hin.
  - apply StructOf_loop_cons in H as (ft & tfs' & pk' & -> & Ht & Hv & _ & Hlow & _ & Hrec).
    apply elem_of_cons in Hin as [-> | Hin]; [| eapply IH; eassumption].
    destruct (Name g) as [| c r] eqn:Hn; [discriminate |].
    split; [| discriminate].
    intros [= -> ->]. specialize (Hlow Hp _ _ eq_refl). discriminate.
Qed.

Lemma StructOf_loop_named (fields : list StructField) :
  forall i pk seen tfs f,
    StructOf_loop i pk seen fields = inr tfs -> f ∈ fields ->
    Name f <> EmptyString.
Proof.
  induction fields as [| g rest IH]; intros i pk seen tfs f H Hin.
  - inversion Hin.
  - apply StructOf_loop_cons in H as (ft & tfs' & pk' & -> & Ht & Hv & _ & _ & _ & Hrec).
    apply elem_of_cons in Hin as [-> | Hin]; [| eapply IH; eassumption].
    destruct (Name g); [discriminate | discriminate].
Qed.

Lemma field_of_names (fields : list StructField) (tfs : list TField) :
  Forall2 field_of fields tfs -> tf_name <$> tfs = Name <$> fields.
Proof.
  induction 1 as [| f tf fields tfs (Hn & _) _ IH]; [reflexivity |].
  cbn. rewrite Hn, IH. reflexivity.
Qed.

(** The field of the built type a name designates: the one made from
    the descriptor of that name, or one as unexported as it. *)
Lemma StructOf_loop_lookup (fields : list StructField) (tfs : list TField)
    (f : StructField) :
  StructOf_loop 0 EmptyString [] fields = inr tfs -> f ∈ fields ->
  exists j tf,
    lookup_field (TStruct tfs) (Name f) = Some j /\ tfs !! j = Some tf /\
    tf_name tf = Name f /\
    (tf_pkg tf = EmptyString <-> PkgPath f = EmptyString) /\
    (Name f <> "_" -> fields !! j = Some f).
Proof.
  intros H Hin.
  pose proof (StructOf_loop_fields _ _ _ _ _ H) as HF.
  pose proof (StructOf_loop_named _ _ _ _ _ _ H Hin) as Hne.
  unfold lookup_field. rewrite decide_False by assumption.
  change (struct_fields (TStruct tfs)) with tfs.
  destruct (decide (Name f = "_")) as [Hb | Hb].
  - destruct (field_index (Name f) tfs) as [j |] eqn:Hi.
    + destruct (field_index_lookup _ _ _ Hi) as (tf & Htf & Hname).
      exists j, tf. repeat split; try assumption; try contradiction.
      * intros Hp. destruct (Forall2_lookup_r _ _ _ _ _ HF Htf) as (g & Hg & Hgn & Hgp & _).
        assert (g ∈ fields) by (eapply list_elem_of_lookup_2; eassumption).
        rewrite Hp in Hgp. symmetry in Hgp.
        destruct (StructOf_loop_exported _ _ _ _ _ _ H H0 Hgp) as [Hc _].
        exfalso. apply Hc. rewrite <- Hgn, Hname. assumption.
      * intros Hp.
        destruct (StructOf_loop_exported _ _ _ _ _ _ H Hin Hp) as [Hc _]. contradiction.
    + apply field_index_None in Hi. exfalso. apply Hi.
      rewrite (field_of_names _ _ HF). apply list_elem_of_fmap. eauto.
  - apply list_elem_of_lookup in Hin as [j Hj].
    destruct (StructOf_loop_index _ _ _ _ _ _ _ H Hj Hb) as [Hi _].
    destruct (Forall2_lookup_l _ _ _ _ _ HF Hj) as (tf & Htf & Hn & Hp & _).
    exists j, tf. repeat split; try assumption; intros; congruence.
Qed.

(** ** Reading the instance *)

Lemma GetField_run (s : Struct) (fs : list TField) (a : nat) (name : string) (h : heap) :
  made s = true -> structValue s = Place (TStruct fs) false a [] ->
  GetField s name h =
  match lookup_field (TStruct fs) name with
  | Some i =>
      match fs !! i with
      | Some f =>
          if bool_decide (tf_pkg f = EmptyString) then
            match load h a [i] with
            | Some x => Ret (IVal (tf_type f) x) h
            | None => Panic "fault: place outside the heap" h
            end
          else Panic "reflect.Value.Interface: cannot return value obtained from unexported field or method" h
      | None => Panic "reflect: Field index out of range" h
      end
  | None => Panic ("Field " +:+ name +:+ " does not exist") h
  end.
Proof.
  intros Hm Hv. unfold GetField, bind. rewrite checkMade_true by assumption.
  rewrite Hv, FieldByName_place.
  destruct (lookup_field (TStruct fs) name) as [i |]; [| reflexivity].
  destruct (fs !! i) as [f |]; [| reflexivity].
  cbn. destruct (bool_decide (tf_pkg f = "")); cbn; [| reflexivity].
  unfold bind. cbn. destruct (load h a [i]); reflexivity.
Qed.

Lemma load_field (h : heap) (a i : nat) (vs : list Value) :
  h !! a = Some (VStruct vs) -> load h a [i] = vs !! i.
Proof.
  intros H. unfold load. rewrite H. cbn. destruct (vs !! i); reflexivity.
Qed.

Lemma NumField_run (s : Struct) (h : heap) :
  Built s h -> NumField s h = Ret (List.length (fieldsByName s)) h.
Proof.
  intros (Hm & fs & a & vs & Hso & Hty & Hv & Hh & Hl).
  unfold NumField. rewrite Hm, Hty. cbn.
  apply StructOf_loop_fields, Forall2_length in Hso. rewrite Hso. reflexivity.
Qed.

(** X1: on a built Struct, NumField returns the number of pending
    descriptors, which is what NumUninitializedField returns: the
    materialized type has exactly one field per descriptor; and IsValid
    holds. *)
Theorem NumField_Built (s : Struct) (h : heap) :
  Built s h ->
  NumField s h = Ret (NumUninitializedField s) h /\ IsValid s = true.
Proof.
  intros HB. split; [exact (NumField_run s h HB) |].
  destruct HB as (Hm & fs & a & vs & _ & _ & Hv & _).
  unfold IsValid. rewrite Hm, Hv. reflexivity.
Qed.

Lemma NumField_Built_witness :
  Built (fst person_state) (snd person_state) /\
  NumField (fst person_state) (snd person_state) = Ret 3%nat (snd person_state).
Proof.
  split; [exact person_built |].
  exact (proj1 (NumField_Built _ _ person_built)).
Defined.

(** X2: on a built Struct, Field(i) returns the i-th pending
    descriptor as the materialized type has it: its name, package path,
    type and tag, with Index [i] and not embedded; an index outside the
    descriptors panics in [reflect]. *)
Theorem Field_Built (s : Struct) (h : heap) :
  Built s h ->
  (forall i f,
     fieldsByName s !! i = Some f ->
     Field s (Z.of_nat i) h =
     Ret {| Name := Name f; PkgPath := PkgPath f; Type_ := Type_ f; Tag := Tag f;
            Index := [Z.of_nat i]; Anonymous := false |} h) /\
  (forall i : Z,
     ~ (0 <= i < Z.of_nat (List.length (fieldsByName s)))%Z ->
     Field s i h = Panic "reflect: Field index out of bounds" h).
Proof.
  intros (Hm & fs & a & vs & Hso & Hty & Hv & Hh & Hl).
  pose proof (StructOf_loop_fields _ _ _ _ _ Hso) as HF.
  split.
  - intros i f Hi.
    destruct (Forall2_lookup_l _ _ _ _ _ HF Hi) as (tf & Htf & Hn & Hp & Ht & Hy).
    unfold Field, bind. rewrite checkMade_true by assumption. rewrite Hty.
    rewrite (Type_Field_struct (TStruct fs) fs i tf h eq_refl Htf).
    rewrite Hn, Hp, Ht, Hy. reflexivity.
  - intros i Hr. unfold Field, bind. rewrite checkMade_true by assumption.
    rewrite Hty. cbn. rewrite <- (Forall2_length _ _ _ HF).
    rewrite decide_False by assumption. reflexivity.
Qed.

Lemma Field_Built_witness :
  Built (fst person_state) (snd person_state) /\
  Field (fst person_state) 1 (snd person_state) =
  Ret {| Name := "Age"; PkgPath := EmptyString; Type_ := Some TInt;
         Tag := "json:" +:+ quoted "age" +:+ " structs:" +:+ quoted "required";
         Index := [1%Z]; Anonymous := false |} (snd person_state) /\
  Field (fst person_state) 3 (snd person_state) =
  Panic "reflect: Field index out of bounds" (snd person_state).
Proof.
  split; [exact person_built |].
  destruct (Field_Built _ _ person_built) as [H1 H2].
  split.
  - exact (H1 1%nat _ eq_refl).
  - apply H2. vm_compute. intros [_ H]. discriminate H.
Defined.

(** X3: on a built Struct whose instance holds the values [vs],
    GetField panics with "Field <name> does not exist" for a name no
    descriptor has; for the exported descriptor at position [i] it
    returns the [i]-th value under the descriptor's type; for an
    unexported descriptor it panics in [reflect].  The heap is left as
    it was in all three cases. *)
Theorem GetField_Built (s : Struct) (h : heap) (T : GoType) (a : nat)
    (vs : list Value) (name : string) :
  Built s h -> structValue s = Place T false a [] -> h !! a = Some (VStruct vs) ->
  (name ∉ Name <$> fieldsByName s ->
   GetField s name h = Panic ("Field " +:+ name +:+ " does not exist") h) /\
  (forall i f,
     fieldsByName s !! i = Some f -> Name f = name -> PkgPath f = EmptyString ->
     exists ty x,
       Type_ f = Some ty /\ vs !! i = Some x /\
       GetField s name h = Ret (IVal ty x) h) /\
  (forall f,
     f ∈ fieldsByName s -> Name f = name -> PkgPath f <> EmptyString ->
     GetField s name h =
     Panic "reflect.Value.Interface: cannot return value obtained from unexported field or method" h).
Proof.
  intros HB Hv Hh.
  destruct (Built_place _ _ _ _ HB Hv) as (fs & vs' & -> & Hty & Hh' & Hl & Hso).
  rewrite Hh in Hh'. injection Hh' as <-.
  pose proof (StructOf_loop_fields _ _ _ _ _ Hso) as HF.
  destruct HB as [Hm _].
  rewrite (GetField_run s fs a name h Hm Hv).
  split; [| split].
  - intros Hn. rewrite lookup_field_absent; [reflexivity |].
    change (struct_fields (TStruct fs)) with fs.
    rewrite (field_of_names _ _ HF). assumption.
  - intros i f Hi <- Hp.
    assert (Hin : f ∈ fieldsByName s) by (eapply list_elem_of_lookup_2; eassumption).
    destruct (StructOf_loop_exported _ _ _ _ _ _ Hso Hin Hp) as [Hb _].
    destruct (StructOf_loop_lookup _ _ _ Hso Hin) as (j & tf & Hlk & Htf & _ & _ & Hj).
    specialize (Hj Hb).
    assert (j = i) as ->.
    { destruct (StructOf_loop_index _ _ _ _ _ _ _ Hso Hi Hb) as [E1 _].
      destruct (StructOf_loop_index _ _ _ _ _ _ _ Hso Hj Hb) as [E2 _].
      congruence. }
    destruct (Forall2_lookup_l _ _ _ _ _ HF Hi) as (tf' & Htf' & _ & Hpk & _ & Hy).
    rewrite Htf in Htf'. injection Htf' as <-.
    rewrite Hlk, Htf. rewrite bool_decide_eq_true_2 by congruence.
    rewrite (load_field _ _ _ _ Hh).
    destruct (lookup_lt_is_Some_2 vs i) as [x Hx].
    { rewrite Hl. eapply lookup_lt_Some. eassumption. }
    rewrite Hx. eauto.
  - intros f Hin <- Hp.
    destruct (StructOf_loop_lookup _ _ _ Hso Hin) as (j & tf & Hlk & Htf & _ & Hpk & _).
    rewrite Hlk, Htf. rewrite bool_decide_eq_false_2; [reflexivity |].
    intros E. apply Hp, Hpk, E.
Qed.

Lemma GetField_Built_witness :
  Built (fst person_state) (snd person_state) /\
  GetField (fst person_state) "Email" (snd person_state)
  = Panic "Field Email does not exist" (snd person_state) /\
  exists ty x,
    GetField (fst person_state) "Age" (snd person_state)
    = Ret (IVal ty x) (snd person_state).
Proof.
  split; [exact person_built |]. split.
  - destruct (GetField_Built (fst person_state) (snd person_state)
                (TStruct person_fields) 0%nat [VString ""; VInt 0; VBool false] "Email"
                person_built eq_refl eq_refl) as (H & _).
    apply H. vm_compute. intros Hin.
    repeat (apply elem_of_cons in Hin as [Hin | Hin]; [discriminate Hin |]).
    now apply not_elem_of_nil in Hin.
  - destruct (GetField_Built (fst person_state) (snd person_state)
                (TStruct person_fields) 0%nat [VString ""; VInt 0; VBool false] "Age"
                person_built eq_refl eq_refl) as (_ & H & _).
    destruct (H 1%nat _ eq_refl eq_refl eq_refl) as (ty & x & _ & _ & Hg).
    exists ty, x. exact Hg.
Defined.

(** ** Writing the instance *)

Lemma SetField_run (s : Struct) (fs : list TField) (a : nat) (name : string)
    (value : value_arg) (h : heap) :
  made s = true -> structValue s = Place (TStruct fs) false a [] ->
  SetField s name value h =
  match lookup_field (TStruct fs) name with
  | Some i =>
      match fs !! i with
      | Some f =>
          set_found name
            (Place (tf_type f) (negb (bool_decide (tf_pkg f = EmptyString))) a [i])
            value h
      | None => Panic "reflect: Field index out of range" h
      end
  | None => Panic ("Field " +:+ name +:+ " does not exist") h
  end.
Proof.
  intros Hm Hv. unfold SetField, bind. rewrite checkMade_true by assumption.
  rewrite Hv, FieldByName_place.
  destruct (lookup_field (TStruct fs) name) as [i |]; [| reflexivity].
  destruct (fs !! i) as [f |]; reflexivity.
Qed.

Lemma SetFieldByIndex_run (s : Struct) (fs : list TField) (a : nat) (index : Z)
    (value : value_arg) (h : heap) :
  made s = true -> structValue s = Place (TStruct fs) false a [] ->
  SetFieldByIndex s index value h =
  if decide (0 <= index < Z.of_nat (List.length fs))%Z then
    match fs !! Z.to_nat index with
    | Some f =>
        set_found (pretty index)
          (Place (tf_type f) (negb (bool_decide (tf_pkg f = EmptyString))) a
             [Z.to_nat index])
          value h
    | None => Panic "reflect: Field index out of range" h
    end
  else Panic "reflect: Field index out of range" h.
Proof.
  intros Hm Hv. unfold SetFieldByIndex, bind. rewrite checkMade_true by assumption.
  rewrite Hv. cbn [reflect.Field underlying].
  destruct (decide (0 <= index < Z.of_nat (List.length fs))%Z); [| reflexivity].
  destruct (fs !! Z.to_nat index) as [f |]; reflexivity.
Qed.

(** The two messages apart, [set_found] does not depend on its label. *)
Lemma set_found_label (l1 l2 : string) (field : Val) (value : value_arg) (h : heap) :
  (forall h', set_found l1 field value h = Ret tt h' <->
              set_found l2 field value h = Ret tt h') /\
  ((exists msg h', set_found l1 field value h = Panic msg h') <->
   (exists msg h', set_found l2 field value h = Panic msg h')).
Proof.
  unfold set_found, bind.
  destruct (elem_if_ptr (valueOf value) h) as [w h1 | msg h1].
  - destruct (negb (bool_decide (Kind_ field = Kind_ w))).
    + split; [intros h'; split; discriminate |]. split; intros _; eauto.
    + split; [intros h' |]; reflexivity.
  - split; [intros h' |]; reflexivity.
Qed.

(** X5: on a built Struct, SetFieldByIndex at the position of a
    descriptor (not the blank one) and SetField at its name do the same:
    one returns exactly when the other does, with the same heap, and
    one panics exactly when the other does.  An index outside the
    descriptors panics in [reflect], before the package's own
    "does not exist" test. *)
Theorem SetFieldByIndex_SetField (s : Struct) (h : heap) (value : value_arg) :
  Built s h ->
  (forall i f,
     fieldsByName s !! i = Some f -> Name f <> "_" ->
     (forall h', SetFieldByIndex s (Z.of_nat i) value h = Ret tt h' <->
                 SetField s (Name f) value h = Ret tt h') /\
     ((exists msg h', SetFieldByIndex s (Z.of_nat i) value h = Panic msg h') <->
      (exists msg h', SetField s (Name f) value h = Panic msg h'))) /\
  (forall index : Z,
     ~ (0 <= index < Z.of_nat (NumUninitializedField s))%Z ->
     SetFieldByIndex s index value h = Panic "reflect: Field index out of range" h).
Proof.
  intros (Hm & fs & a & vs & Hso & Hty & Hv & Hh & Hl).
  pose proof (StructOf_loop_fields _ _ _ _ _ Hso) as HF.
  split.
  - intros i f Hi Hb.
    assert (Hin : f ∈ fieldsByName s) by (eapply list_elem_of_lookup_2; eassumption).
    destruct (StructOf_loop_index _ _ _ _ _ _ _ Hso Hi Hb) as [Hidx _].
    destruct (Forall2_lookup_l _ _ _ _ _ HF Hi) as (tf & Htf & _).
    rewrite (SetFieldByIndex_run s fs a _ value h Hm Hv).
    rewrite (SetField_run s fs a _ value h Hm Hv).
    rewrite decide_True by (apply lookup_lt_Some in Htf; lia).
    rewrite Nat2Z.id, Htf. unfold lookup_field.
    rewrite decide_False by (eapply StructOf_loop_named; eassumption).
    change (struct_fields (TStruct fs)) with fs. rewrite Hidx, Htf.
    apply set_found_label.
  - intros index Hr. rewrite (SetFieldByIndex_run s fs a _ value h Hm Hv).
    unfold NumUninitializedField in Hr. rewrite (Forall2_length _ _ _ HF) in Hr.
    rewrite decide_False by assumption. reflexivity.
Qed.

Lemma SetFieldByIndex_SetField_witness :
  Built (fst person_state) (snd person_state) /\
  SetFieldByIndex (fst person_state) 7 (OtherValue (IVal TInt (VInt 1)))
    (snd person_state)
  = Panic "reflect: Field index out of range" (snd person_state).
Proof.
  split; [exact person_built |].
  destruct (SetFieldByIndex_SetField (fst person_state) (snd person_state)
              (OtherValue (IVal TInt (VInt 1))) person_built) as [_ H].
  apply H. vm_compute. intros [_ H']. discriminate H'.
Defined.

(** X6: SetField changes the one field it names: when it returns,
    GetField on any other name returns what it returned before, and
    panics if it did before. *)
Theorem SetField_other_fields (s : Struct) (h h' : heap) (name : string)
    (value : value_arg) (T : GoType) (a : nat) :
  Built s h -> structValue s = Place T false a [] ->
  SetField s name value h = Ret tt h' ->
  forall name' v,
    name' <> name ->
    (GetField s name' h = Ret v h <-> GetField s name' h' = Ret v h') /\
    ((exists msg, GetField s name' h = Panic msg h) <->
     (exists msg, GetField s name' h' = Panic msg h')).
Proof.
  intros HB Hv Hset name' v Hne.
  destruct (SetField_returns _ _ _ _ _ _ _ HB Hv Hset)
    as (i & f & w & x & vs & Hi & Hf & _ & _ & _ & Hh & -> & _).
  destruct (Built_place _ _ _ _ HB Hv) as (fs & vs' & -> & _ & Hh' & Hl & _).
  rewrite Hh in Hh'. injection Hh' as <-.
  destruct HB as [Hm _].
  rewrite !(GetField_run s fs a name' _ Hm Hv).
  destruct (lookup_field (TStruct fs) name') as [j |] eqn:Hj.
  2:{ split; [split; discriminate | split; intros _; eauto]. }
  destruct (fs !! j) as [g |] eqn:Hg.
  2:{ split; [split; discriminate | split; intros _; eauto]. }
  destruct (bool_decide (tf_pkg g = "")).
  2:{ split; [split; discriminate | split; intros _; eauto]. }
  assert (Hij : i <> j).
  { intros ->. unfold lookup_field in Hi, Hj.
    destruct (decide (name = "")); [discriminate |].
    destruct (decide (name' = "")); [discriminate |].
    apply field_index_lookup in Hi as (f1 & H1 & E1).
    apply field_index_lookup in Hj as (f2 & H2 & E2).
    change (struct_fields (TStruct fs)) with fs in H1, H2. congruence. }
  rewrite (load_field _ _ j _ Hh).
  rewrite (load_field (<[a:=VStruct (<[i:=x]> vs)]> h) a j (<[i:=x]> vs)).
  2:{ apply list_lookup_insert_eq. eapply lookup_lt_Some. eassumption. }
  rewrite list_lookup_insert_ne by assumption.
  destruct (vs !! j) as [y |].
  - split; [split; intros [= <-]; reflexivity | split; intros [? [=]]].
  - split; [split; discriminate | split; intros _; eauto].
Qed.

Lemma SetField_other_fields_witness :
  Built (fst person_state) (snd person_state) /\
  exists h',
    SetField (fst person_state) "Age" (OtherValue (IVal TInt (VInt 23)))
      (snd person_state) = Ret tt h' /\
    GetField (fst person_state) "Name" h' = Ret (IVal TString (VString "")) h'.
Proof.
  split; [exact person_built |].
  eexists. split; [reflexivity |].
  apply (SetField_other_fields (fst person_state) (snd person_state) _ "Age"
           (OtherValue (IVal TInt (VInt 23))) (TStruct person_fields) 0%nat
           person_built eq_refl eq_refl "Name" (IVal TString (VString ""))).
  - discriminate.
  - reflexivity.
Defined.

(** The field of the built type an exported descriptor designates. *)
Lemma Built_exported_field (s : Struct) (h : heap) (T : GoType) (a i : nat)
    (f : StructField) :
  Built s h -> structValue s = Place T false a [] ->
  fieldsByName s !! i = Some f -> PkgPath f = EmptyString ->
  exists fs vs ty,
    T = TStruct fs /\ made s = true /\ h !! a = Some (VStruct vs) /\
    List.length vs = List.length fs /\
    Type_ f = Some ty /\
    lookup_field (TStruct fs) (Name f) = Some i /\
    fs !! i = Some (mkTField (Name f) EmptyString (Tag f) ty).
Proof.
  intros HB Hv Hi Hp.
  destruct (Built_place _ _ _ _ HB Hv) as (fs & vs & -> & _ & Hh & Hl & Hso).
  pose proof (StructOf_loop_fields _ _ _ _ _ Hso) as HF.
  assert (Hin : f ∈ fieldsByName s) by (eapply list_elem_of_lookup_2; eassumption).
  destruct (StructOf_loop_exported _ _ _ _ _ _ Hso Hin Hp) as [Hb Hne].
  destruct (StructOf_loop_index _ _ _ _ _ _ _ Hso Hi Hb) as [Hidx _].
  destruct (Forall2_lookup_l _ _ _ _ _ HF Hi) as (tf & Htf & Hn & Hpk & Htg & Hy).
  exists fs, vs, (tf_type tf). repeat split; try assumption; try apply HB.
  - unfold lookup_field. rewrite decide_False by assumption. exact Hidx.
  - rewrite Htf. destruct tf as [n p t ty]. cbn in *. congruence.
Qed.

(** X7: SetField given a non-nil pointer to a value of the field's
    type stores the value pointed to (SetField dereferences one
    pointer): GetField then returns that value under the field's type,
    and the pointed-to object is left as it was. *)
Theorem SetField_through_pointer (s : Struct) (h : heap) (T : GoType)
    (a i b : nat) (q : list nat) (f : StructField) (ty : GoType) (x : Value) :
  Built s h -> structValue s = Place T false a [] ->
  fieldsByName s !! i = Some f -> PkgPath f = EmptyString -> Type_ f = Some ty ->
  load h b q = Some x ->
  exists h',
    SetField s (Name f) (OtherValue (IVal (TPtr ty) (VPtr (Some (b, q))))) h
    = Ret tt h' /\
    GetField s (Name f) h' = Ret (IVal ty x) h' /\
    (b <> a -> load h' b q = Some x).
Proof.
  intros HB Hv Hi Hp Hty Hx.
  destruct (Built_exported_field _ _ _ _ _ _ HB Hv Hi Hp)
    as (fs & vs & ty' & -> & Hm & Hh & Hl & Hty' & Hlk & Hf).
  assert (ty' = ty) as -> by congruence.
  assert (Hlt : (i < List.length vs)%nat) by (apply lookup_lt_Some in Hf; lia).
  exists (<[a := VStruct (<[i := x]> vs)]> h). split; [| split].
  - rewrite (SetField_run s fs a _ _ h Hm Hv), Hlk, Hf.
    unfold set_found, elem_if_ptr, bind. cbn.
    rewrite decide_True by reflexivity. cbn.
    rewrite bool_decide_eq_true_2 by reflexivity. cbn.
    rewrite directlyAssignable_refl. unfold bind. cbn [read].
    rewrite bool_decide_eq_true_2 by reflexivity. cbn [negb]. cbv beta. rewrite Hx.
    rewrite (store_field h a i vs x Hh Hlt). reflexivity.
  - rewrite (GetField_run s fs a _ _ Hm Hv), Hlk, Hf. cbn.
    rewrite (load_field _ a i (<[i:=x]> vs)).
    + rewrite list_lookup_insert_eq by assumption. reflexivity.
    + apply list_lookup_insert_eq. eapply lookup_lt_Some. eassumption.
  - intros Hne. unfold load in *. rewrite list_lookup_insert_ne by congruence.
    exact Hx.
Qed.

Lemma SetField_through_pointer_witness :
  Built (fst person_state) (snd person_state ++ [VInt 41]) /\
  exists h',
    SetField (fst person_state) "Age" (OtherValue (IVal (TPtr TInt) (VPtr (Some (1%nat, [])))))
      (snd person_state ++ [VInt 41]) = Ret tt h' /\
    GetField (fst person_state) "Age" h' = Ret (IVal TInt (VInt 41)) h'.
Proof.
  assert (HB : Built (fst person_state) (snd person_state ++ [VInt 41])).
  { split; [reflexivity |]. do 3 eexists. repeat split; reflexivity. }
  split; [exact HB |].
  destruct (SetField_through_pointer (fst person_state) (snd person_state ++ [VInt 41])
              (TStruct person_fields) 0%nat 1%nat 1%nat [] _ TInt (VInt 41)
              HB eq_refl eq_refl eq_refl eq_refl eq_refl) as (h' & H1 & H2 & _).
  exists h'. split; assumption.
Defined.

(** X8: a field of pointer type [*E], with [E] not itself a pointer
    type, cannot be set by handing SetField a value of the field's own
    type: the pointer is dereferenced before the kinds are compared,
    and the call panics with the kind of [E], or with "invalid" for
    the nil pointer. *)
Theorem SetField_pointer_field (s : Struct) (h : heap) (T : GoType)
    (a i : nat) (f : StructField) (e : GoType) (p : option (nat * list nat)) :
  Built s h -> structValue s = Place T false a [] ->
  fieldsByName s !! i = Some f -> PkgPath f = EmptyString ->
  Type_ f = Some (TPtr e) -> kindOf e <> Ptr ->
  SetField s (Name f) (OtherValue (IVal (TPtr e) (VPtr p))) h
  = Panic ("Cannot set field " +:+ Name f +:+ " with value of type "
           +:+ Kind_String (match p with Some _ => kindOf e | None => Invalid end)) h.
Proof.
  intros HB Hv Hi Hp Hty Hk.
  destruct (Built_exported_field _ _ _ _ _ _ HB Hv Hi Hp)
    as (fs & vs & ty' & -> & Hm & Hh & Hl & Hty' & Hlk & Hf).
  assert (ty' = TPtr e) as -> by congruence.
  rewrite (SetField_run s fs a _ _ h Hm Hv), Hlk, Hf.
  unfold set_found, elem_if_ptr, bind. cbn.
  rewrite decide_True by reflexivity. cbn.
  destruct p as [[b q] |]; cbn.
  - rewrite bool_decide_eq_false_2; [reflexivity |].
    intros E. apply Hk. symmetry. exact E.
  - reflexivity.
Qed.

Lemma pointer_built : Built (fst pointer_state) (snd pointer_state).
Proof.
  split; [reflexivity |]. do 3 eexists. repeat split; reflexivity.
Qed.

Lemma SetField_pointer_field_witness :
  Built (fst pointer_state) (snd pointer_state) /\
  SetField (fst pointer_state) "P" (OtherValue (IVal (TPtr TInt) (VPtr (Some (0%nat, [0%nat])))))
    (snd pointer_state)
  = Panic "Cannot set field P with value of type int" (snd pointer_state).
Proof.
  split; [exact pointer_built |].
  apply (SetField_pointer_field (fst pointer_state) (snd pointer_state) _ 0%nat 0%nat _
           TInt (Some (0%nat, [0%nat])) pointer_built eq_refl eq_refl eq_refl eq_refl).
  discriminate.
Defined.

(** ** Make, Remake and the adders *)

(** X10: on a built Struct, Remake and Make do the same: both return
    the builder with the same type and a fresh instance holding zero
    values, allocated at the end of the heap, and leave the heap
    otherwise as it was. *)
Theorem Remake_Built (s : Struct) (h0 h : heap) (T : GoType) (a : nat) :
  Built s h0 -> structValue s = Place T false a [] ->
  let s' := set_value s (Place T false (List.length h) []) in
  Remake s h = Ret s' (h ++ [zero T]) /\
  Make s h = Ret s' (h ++ [zero T]) /\
  Built s' (h ++ [zero T]).
Proof.
  intros HB Hv s'.
  destruct (Built_place _ _ _ _ HB Hv) as (fs & vs & -> & Hty & _ & _ & Hso).
  assert (Hm : made s = true) by apply HB.
  assert (HM : Make s h = Ret s' (h ++ [zero (TStruct fs)])).
  { apply Make_made; assumption. }
  split; [| split].
  - unfold Remake.
    rewrite (Make_not_made _ h fs); [| reflexivity | exact Hso]. f_equal.
    subst s'. unfold set_value, set_type. cbn. rewrite Hm, Hty. reflexivity.
  - exact HM.
  - eapply Make_Built; [| exact HM]. right. eauto.
Qed.

Lemma Remake_Built_witness :
  Built (fst person_state) (snd person_state) /\
  Remake (fst person_state) (snd person_state)
  = Make (fst person_state) (snd person_state).
Proof.
  split; [exact person_built |].
  destruct (Remake_Built (fst person_state) (snd person_state) (snd person_state)
              (TStruct person_fields) 0%nat person_built eq_refl) as (H1 & H2 & _).
  rewrite H1, H2. reflexivity.
Defined.





Lemma StructOf_loop_snoc (l1 : list StructField) :
  forall i pk seen t1 f ty,
    StructOf_loop i pk seen l1 = inr t1 ->
    plain_descriptor f -> buildable f -> Type_ f = Some ty ->
    Name f ∉ seen -> Name f ∉ Name <$> l1 ->
    StructOf_loop i pk seen (l1 ++ [f])
    = inr (t1 ++ [mkTField (Name f) EmptyString (Tag f) ty]).
Proof.
  induction l1 as [| g rest IH]; intros i pk seen t1 f ty H [Hpk Han] (Hv & Hlow & _) Hty Hs Hn.
  - cbn in H. injection H as <-. cbn [app StructOf_loop].
    destruct (Name f) as [| c r] eqn:Hnf; [discriminate |].
    rewrite Hv, Hty, Han, Hpk. cbn [negb andb].
    rewrite bool_decide_eq_true_2 by reflexivity.
    rewrite (Hlow c r eq_refl). cbn [andb negb].
    rewrite bool_decide_eq_false_2 by exact Hs.
    reflexivity.
  - cbn in Hn. apply not_elem_of_cons in Hn as [Hne Hn].
    cbn [app StructOf_loop] in H |- *.
    destruct (Name g) as [| c r] eqn:Hg; [discriminate |].
    destruct (negb (isValidFieldName (String c r))); [discriminate |].
    destruct (Type_ g) as [gt |]; [| discriminate].
    destruct (Anonymous g && negb (bool_decide (PkgPath g = ""))); [discriminate |].
    destruct (bool_decide (PkgPath g = "") && (Str.is_lower c || Str.is_underscore c));
      [discriminate |].
    match type of H with (if ?b then _ else _) = _ => destruct b; [discriminate |] end.
    destruct (Anonymous g); [discriminate |].
    destruct (bool_decide (String c r ∈ seen) && negb (bool_decide (String c r = "_")));
      [discriminate |].
    match type of H with
    | match ?x with _ => _ end = _ => destruct x as [e | t1'] eqn:Hrec
    end; [discriminate |].
    injection H as <-.
    erewrite IH; [reflexivity | exact Hrec | split; assumption | | exact Hty | | exact Hn].
    + repeat split; [assumption | assumption | congruence].
    + intros Hin. apply elem_of_cons in Hin as [E | Hin]; [| contradiction].
      apply Hne. rewrite E. reflexivity.
Qed.

(** X12: a built Struct can be extended.  AddField with a type and an
    exportable name leaves the heap alone and the builder not valid,
    with NumField 0; the next Make returns a built Struct whose type
    is the old one with the new field appended, on a fresh zero
    instance, with one more field. *)
Theorem AddField_then_Make (s s1 : Struct) (h h1 : heap) (T : GoType) (a : nat)
    (name enc : string) (ty : GoType) (required : list bool) :
  Built s h -> structValue s = Place T false a [] ->
  AddField s name enc (Some ty) required h = Ret s1 h1 ->
  isValidFieldName name = true ->
  (forall c r, name = String c r -> Str.is_lower c || Str.is_underscore c = false) ->
  exists fs,
    let f := added_field s name enc (Some ty) required in
    let T' := TStruct (fs ++ [mkTField name EmptyString (Tag f) ty]) in
    let s2 := set_value (set_type s1 T') (Place T' false (List.length h) []) in
    T = TStruct fs /\ h1 = h /\
    IsValid s1 = false /\ NumField s1 h = Ret O h /\
    Make s1 h = Ret s2 (h ++ [zero T']) /\
    Built s2 (h ++ [zero T']) /\
    NumField s2 (h ++ [zero T']) = Ret (S (List.length fs)) (h ++ [zero T']).
Proof.
  intros HB Hv Hadd Hvalid Hlow.
  destruct (Built_place _ _ _ _ HB Hv) as (fs & vs & -> & Hty & Hh & Hl & Hso).
  destruct (AddField_outcome s name enc (Some ty) required h) as (Hpanic & _ & Hret).
  destruct (Hret _ _ Hadd) as [-> ->].
  assert (Hnin : name ∉ Name <$> fieldsByName s).
  { intros Hin. destruct (proj2 Hpanic (or_intror Hin)) as (msg & h' & E). congruence. }
  exists fs. cbv zeta.
  set (f := added_field s name enc (Some ty) required).
  set (T' := TStruct (fs ++ [mkTField name "" (Tag f) ty])).
  assert (Hso' : StructOf_loop 0 "" [] (fieldsByName s ++ [f])
                 = inr (fs ++ [mkTField name "" (Tag f) ty])).
  { apply (StructOf_loop_snoc (fieldsByName s) 0%nat "" [] fs f ty Hso).
    - split; reflexivity.
    - repeat split; [exact Hvalid | exact Hlow | discriminate].
    - reflexivity.
    - intros Hin. inversion Hin.
    - exact Hnin. }
  match goal with |- context [Make ?x h] => set (s1 := x) end.
  assert (HM : Make s1 h =
               Ret (set_value (set_type s1 T') (Place T' false (List.length h) []))
                 (h ++ [zero T'])).
  { apply Make_not_made; [reflexivity | exact Hso']. }
  assert (HB2 : Built (set_value (set_type s1 T') (Place T' false (List.length h) []))
                  (h ++ [zero T'])).
  { eapply Make_Built; [| exact HM]. left. reflexivity. }
  do 4 (split; [reflexivity |]). split; [exact HM |]. split; [exact HB2 |].
  rewrite (NumField_run _ _ HB2). cbn. rewrite length_app. cbn.
  apply StructOf_loop_fields, Forall2_length in Hso. rewrite Hso.
  f_equal. lia.
Qed.

Lemma AddField_then_Make_witness :
  Built (fst person_state) (snd person_state) /\
  exists s1 s2 h2,
    AddField (fst person_state) "Email" "email" (Some TString) [] (snd person_state)
    = Ret s1 (snd person_state) /\
    Make s1 (snd person_state) = Ret s2 h2 /\
    NumField s2 h2 = Ret 4%nat h2.
Proof.
  split; [exact person_built |].
  assert (Hlow : forall c r, "Email" = String c r ->
                             Str.is_lower c || Str.is_underscore c = false).
  { intros c r [= <- <-]. reflexivity. }
  destruct (AddField_then_Make (fst person_state) _ (snd person_state) _
              (TStruct person_fields) 0%nat "Email" "email" TString []
              person_built eq_refl eq_refl eq_refl Hlow)
    as (fs & HT & _ & _ & _ & HM & _ & HN).
  injection HT as <-.
  do 3 eexists. split; [reflexivity |]. split; [exact HM | exact HN].
Defined.

(** X13: under a valid tag key other than "structs" and a plain
    encoding name, the descriptor AddField appends has the name and
    the type given, and IsRequired holds of it exactly when the first
    [required] argument is true. *)
Theorem IsRequired_AddField (s s' : Struct) (h h' : heap) (name enc : string)
    (ty : option GoType) (required : list bool) :
  valid_key (tag s) -> tag s <> "structs" ->
  plain_value (if decide (enc = EmptyString) then name else enc) ->
  AddField s name enc ty required h = Ret s' h' ->
  exists f,
    fieldsByName s' = fieldsByName s ++ [f] /\ Name f = name /\ Type_ f = ty /\
    IsRequired f = match required with true :: _ => true | _ => false end.
Proof.
  intros Hk Hne Hpl Hadd.
  destruct (AddField_outcome s name enc ty required h) as (_ & _ & Hret).
  destruct (Hret _ _ Hadd) as [-> ->].
  exists (added_field s name enc ty required).
  split; [reflexivity |]. split; [reflexivity |]. split; [reflexivity |].
  unfold IsRequired.
  rewrite (added_field_IsRequired s name enc ty required Hk Hpl Hne).
  destruct required as [| [] ?]; reflexivity.
Qed.

Lemma IsRequired_AddField_witness :
  valid_key "json" /\
  exists s' f,
    AddField (New "json") "Age" "age" (Some TInt) [true] [] = Ret s' [] /\
    fieldsByName s' = [f] /\ IsRequired f = true.
Proof.
  assert (Hk : valid_key "json") by (split; [discriminate | reflexivity]).
  split; [exact Hk |].
  assert (Hne : "json" <> "structs") by discriminate.
  assert (Hpl : plain_value "age") by (repeat split).
  destruct (IsRequired_AddField (New "json") _ [] [] "Age" "age" (Some TInt) [true]
              Hk Hne Hpl eq_refl) as (f & Hf & _ & _ & Hr).
  eexists _, f. split; [reflexivity |]. split; [exact Hf | exact Hr].
Defined.

(** X9: Interface hands out the instance by value and PtrTo a pointer
    to the instance itself.  After a SetField that returns, PtrTo
    returns the same pointer as before, Interface returns the updated
    record, MarshalJSON passes that record to [json.Marshal] and
    UnmarshalJSON passes the pointer to the instance to
    [json.Unmarshal]. *)
Theorem Interface_snapshot_PtrTo_alias
    (json_Marshal : iface -> M (string * error))
    (json_Unmarshal : string -> iface -> M error)
    (s : Struct) (h h' : heap) (T : GoType) (a : nat) (vs : list Value)
    (name : string) (value : value_arg) (data : string) :
  Built s h -> structValue s = Place T false a [] -> h !! a = Some (VStruct vs) ->
  SetField s name value h = Ret tt h' ->
  exists vs',
    h' !! a = Some (VStruct vs') /\
    Interface s h = Ret (IVal T (VStruct vs)) h /\
    Interface s h' = Ret (IVal T (VStruct vs')) h' /\
    PtrTo s h = Ret (IVal (TPtr T) (VPtr (Some (a, [])))) h /\
    PtrTo s h' = Ret (IVal (TPtr T) (VPtr (Some (a, [])))) h' /\
    MarshalJSON json_Marshal s h' = json_Marshal (IVal T (VStruct vs')) h' /\
    UnmarshalJSON json_Unmarshal s data h'
    = json_Unmarshal data (IVal (TPtr T) (VPtr (Some (a, [])))) h'.
Proof.
  intros HB Hv Hh Hset.
  destruct (SetField_returns _ _ _ _ _ _ _ HB Hv Hset)
    as (i & f & w & x & vs0 & _ & _ & _ & _ & _ & Hh0 & -> & HB').
  rewrite Hh in Hh0. injection Hh0 as <-.
  assert (Hm : made s = true) by apply HB.
  assert (Hcell : <[a:=VStruct (<[i:=x]> vs)]> h !! a = Some (VStruct (<[i:=x]> vs))).
  { apply list_lookup_insert_eq. eapply lookup_lt_Some. eassumption. }
  assert (HI : forall g ws, g !! a = Some (VStruct ws) ->
                            Interface s g = Ret (IVal T (VStruct ws)) g).
  { intros g ws Hg. unfold Interface, bind. rewrite checkMade_true by assumption.
    rewrite Hv. cbn. unfold bind, load. cbn. rewrite Hg. reflexivity. }
  assert (HP : forall g, PtrTo s g = Ret (IVal (TPtr T) (VPtr (Some (a, [])))) g).
  { intros g. unfold PtrTo, bind. rewrite checkMade_true by assumption.
    rewrite Hv. reflexivity. }
  exists (<[i:=x]> vs). split; [exact Hcell |].
  split; [apply HI; assumption |]. split; [apply HI; assumption |].
  split; [apply HP |]. split; [apply HP |]. split.
  - unfold MarshalJSON, bind. rewrite checkMade_true by assumption.
    rewrite Hv. cbn. unfold bind, load. cbn. rewrite Hcell. reflexivity.
  - unfold UnmarshalJSON, bind. rewrite checkMade_true by assumption.
    rewrite Hv. reflexivity.
Qed.

Lemma Interface_snapshot_PtrTo_alias_witness :
  Built (fst person_state) (snd person_state) /\
  exists h',
    SetField (fst person_state) "Age" (OtherValue (IVal TInt (VInt 23)))
      (snd person_state) = Ret tt h' /\
    Interface (fst person_state) h'
    = Ret (IVal (TStruct person_fields) (VStruct [VString ""; VInt 23; VBool false])) h'.
Proof.
  split; [exact person_built |].
  eexists. split; [reflexivity |].
  destruct (Interface_snapshot_PtrTo_alias (fun _ => ret (EmptyString, None))
              (fun _ _ => ret None)
              (fst person_state) (snd person_state) _ (TStruct person_fields) 0%nat
              [VString ""; VInt 0; VBool false] "Age"
              (OtherValue (IVal TInt (VInt 23))) EmptyString
              person_built eq_refl eq_refl eq_refl)
    as (vs' & Hc & _ & HI & _).
  injection Hc as <-. exact HI.
Defined.

(** X14: a descriptor with a package path, which only AddStructField
    can add, is built by Make into a field the builder can neither
    read nor write: GetField panics in [reflect], and SetField panics
    whatever the value. *)
Theorem AddStructField_unexported (s s1 s2 : Struct) (h h1 h2 : heap)
    (field : StructField) :
  PkgPath field <> EmptyString ->
  AddStructField s field h = Ret s1 h1 ->
  Make s1 h1 = Ret s2 h2 ->
  Built s2 h2 /\
  GetField s2 (Name field) h2 =
  Panic "reflect.Value.Interface: cannot return value obtained from unexported field or method" h2 /\
  forall value, exists msg h3, SetField s2 (Name field) value h2 = Panic msg h3.
Proof.
  intros Hp Hadd HM.
  assert (Hs1 : made s1 = false /\ field ∈ fieldsByName s1).
  { unfold AddStructField in Hadd.
    destruct (decide (Name field = "")); [discriminate |].
    destruct (existsb _ _); [discriminate |].
    destruct (Anonymous field); [discriminate |].
    injection Hadd as <- <-. split; [reflexivity |].
    cbn. apply elem_of_app. right. left. }
  destruct Hs1 as [Hm1 Hin1].
  assert (HB : Built s2 h2) by (eapply Make_Built; [left; exact Hm1 | exact HM]).
  assert (Hf : fieldsByName s2 = fieldsByName s1).
  { unfold Make, bind in HM. rewrite Hm1 in HM. cbn [negb] in HM.
    destruct (StructOf (fieldsByName s1) h1) as [t h' | ] eqn:E; [| discriminate].
    unfold ret in HM. cbn in HM.
    destruct (h' ++ [zero t]); cbn in HM; injection HM as <- <-; reflexivity. }
  split; [exact HB |].
  destruct HB as (Hm & fs & a & vs & Hso & Hty & Hv & Hh & Hl).
  rewrite Hf in Hso.
  destruct (StructOf_loop_lookup _ _ _ Hso Hin1) as (j & tf & Hlk & Htf & _ & Hpk & _).
  assert (Hro : bool_decide (tf_pkg tf = "") = false).
  { apply bool_decide_eq_false_2. intros E. apply Hp, Hpk, E. }
  split.
  - rewrite (GetField_run s2 fs a _ h2 Hm Hv), Hlk, Htf, Hro. reflexivity.
  - intros value.
    rewrite (SetField_run s2 fs a _ value h2 Hm Hv), Hlk, Htf, Hro.
    unfold set_found, bind.
    destruct (elem_if_ptr (valueOf value) h2) as [w h3 | msg h3]; [| eauto].
    destruct (negb (bool_decide _)); [unfold panic; eauto |].
    cbn. unfold panic. eauto.
Qed.

Lemma AddStructField_unexported_witness :
  PkgPath hidden_descriptor <> EmptyString /\
  exists s2 h2,
    (s1 <- AddStructField (New "json") hidden_descriptor;; Make s1) [] = Ret s2 h2 /\
    GetField s2 "secret" h2 =
    Panic "reflect.Value.Interface: cannot return value obtained from unexported field or method" h2.
Proof.
  assert (Hp : PkgPath hidden_descriptor <> EmptyString) by discriminate.
  split; [exact Hp |].
  destruct (AddStructField_unexported (New "json") _ _ [] _ _ hidden_descriptor
              Hp eq_refl eq_refl) as (_ & HG & _).
  do 2 eexists. split; [reflexivity |]. exact HG.
Defined.

(** ** ScanInto between two builders *)

Lemma Built_replace (s : Struct) (h : heap) (a : nat) (vs new : list Value) :
  Built s h -> h !! a = Some (VStruct vs) -> List.length new = List.length vs ->
  Built s (<[a := VStruct new]> h).
Proof.
  intros (Hm & fs & a' & vs' & Hso & Hty & Hv & Hh & Hl) Ha Hn.
  split; [exact Hm |].
  destruct (decide (a' = a)) as [-> | Hne].
  - rewrite Ha in Hh. injection Hh as <-.
    exists fs, a, new. repeat split; try assumption.
    + apply list_lookup_insert_eq. eapply lookup_lt_Some. eassumption.
    + congruence.
  - exists fs, a', vs'. repeat split; try assumption.
    rewrite list_lookup_insert_ne by congruence. assumption.
Qed.

Lemma StructOf_exported_distinct (fields : list StructField) (tfs : list TField) :
  StructOf_loop 0 EmptyString [] fields = inr tfs -> exported_distinct tfs.
Proof.
  intros Hso i i' f f' Hi Hi' Hp Hp' Hn.
  pose proof (StructOf_loop_fields _ _ _ _ _ Hso) as HF.
  destruct (Forall2_lookup_r _ _ _ _ _ HF Hi) as (g & Hg & Hgn & Hgp & _).
  destruct (Forall2_lookup_r _ _ _ _ _ HF Hi') as (g' & Hg' & Hgn' & Hgp' & _).
  assert (Hin : g ∈ fields) by (eapply list_elem_of_lookup_2; eassumption).
  assert (Hin' : g' ∈ fields) by (eapply list_elem_of_lookup_2; eassumption).
  destruct (StructOf_loop_exported _ _ _ _ _ _ Hso Hin) as [Hb _]; [congruence |].
  destruct (StructOf_loop_exported _ _ _ _ _ _ Hso Hin') as [Hb' _]; [congruence |].
  destruct (StructOf_loop_index _ _ _ _ _ _ _ Hso Hg Hb) as [E _].
  destruct (StructOf_loop_index _ _ _ _ _ _ _ Hso Hg' Hb') as [E' _].
  assert (Name g = Name g') by congruence.
  congruence.
Qed.

(** A record passed by value scanned into a record behind a pointer. *)
Lemma scanInto_record (ts DstT : GoType) (sfs dfs : list TField)
    (svs dvs : list Value) (ad : nat) (pd : list nat) (fields : list string)
    (h : heap) :
  underlying ts = TStruct sfs -> underlying DstT = TStruct dfs ->
  load h ad pd = Some (VStruct dvs) ->
  List.length dvs = List.length dfs -> List.length svs = List.length sfs ->
  export_agrees sfs dfs ->
  exists h',
    scanInto (IVal ts (VStruct svs)) (IVal (TPtr DstT) (VPtr (Some (ad, pd)))) fields h
    = Ret None h' /\
    store h ad pd (VStruct (scan_fold fields dfs sfs svs dvs)) = Some h'.
Proof.
  intros HS HD Hload Hld Hls Hexp.
  assert (Hks : kindOf ts = Struct_) by (eapply underlying_kind; eassumption).
  assert (Hu : unwrap_ptr ts = ts).
  { unfold unwrap_ptr. rewrite decide_False by congruence. reflexivity. }
  rewrite scanInto_checks by (intros E; congruence).
  rewrite Hu. rewrite decide_True by exact Hks.
  rewrite decide_True by reflexivity.
  change (Type_Elem (TPtr DstT)) with (Some DstT). cbv iota beta.
  rewrite decide_True by (eapply underlying_kind; eassumption).
  unfold struct_fields. rewrite HS.
  pose proof (store_same h ad pd (VStruct dvs) Hload) as Hk.
  destruct (scanInto_loop_spec fields ts DstT sfs dfs svs (Imm ts false (VStruct svs))
              ad pd h (fun _ => True) HS HD Hls Hexp) with (n := List.length sfs)
              (i := 0%nat) (dvs := dvs) (hk := h) as (h' & Hrun & Hst);
    [| trivial | lia | exact Hld | exact I | exact Hk |].
  { intros i sf x dvs' hk Hsf Hx _ _.
    destruct (read_source_value ts sfs svs i sf x hk HS Hsf Hx)
      as (value & H1 & H2 & H3 & H4).
    exists value. auto. }
  exists h'. split; [| exact Hst].
  unfold elem_if_ptr. cbn [Kind_]. rewrite decide_False by congruence.
  unfold bind, ret at 1.
  rewrite (Type_Elem_Elem (TPtr DstT) DstT (Some (ad, pd)) _ eq_refl eq_refl).
  change (Z.of_nat 0) with 0%Z in Hrun. rewrite Hrun. reflexivity.
Qed.

(** X16: ScanInto from a built Struct [b], whose descriptors are
    exported, into the pointer PtrTo gives for a built Struct [d]: the
    call returns nil, [d] stays built and only its instance changes.
    Field [j] of [d] takes the value of field [i] of [b] when the scan
    sets it from there and keeps its value when no field of [b] does;
    with no allowlist and the same descriptors on both sides, the
    instance of [d] ends up holding the values of [b]. *)
Theorem ScanInto_between_builders (b d : Struct) (h : heap) (Tb Td : GoType)
    (ab ad : nat) (svs dvs : list Value) (fields : list string) :
  Built b h -> Built d h ->
  structValue b = Place Tb false ab [] -> structValue d = Place Td false ad [] ->
  h !! ab = Some (VStruct svs) -> h !! ad = Some (VStruct dvs) ->
  Forall (fun f => PkgPath f = EmptyString) (fieldsByName b) ->
  exists dest new,
    PtrTo d h = Ret dest h /\
    ScanInto (StructPtr b) dest fields h = Ret None (<[ad := VStruct new]> h) /\
    Built d (<[ad := VStruct new]> h) /\
    List.length new = List.length dvs /\
    (forall j,
       (forall i, scan_sets fields (struct_fields Tb) (struct_fields Td) j i ->
                  new !! j = svs !! i) /\
       ((forall i, ~ scan_sets fields (struct_fields Tb) (struct_fields Td) j i) ->
        new !! j = dvs !! j)) /\
    (fieldsByName d = fieldsByName b -> fields = [] -> new = svs).
Proof.
  intros HBb HBd Hvb Hvd Hhb Hhd Hexp.
  destruct (Built_place _ _ _ _ HBb Hvb) as (sfs & svs' & -> & Htb & Hb' & Hlb & Hsob).
  destruct (Built_place _ _ _ _ HBd Hvd) as (dfs & dvs' & -> & Htd & Hd' & Hld & Hsod).
  rewrite Hhb in Hb'. injection Hb' as <-.
  rewrite Hhd in Hd'. injection Hd' as <-.
  pose proof (StructOf_loop_fields _ _ _ _ _ Hsob) as HFb.
  assert (Hall : Forall (fun f => tf_pkg f = "") sfs).
  { apply Forall_lookup_2. intros i f Hi.
    destruct (Forall2_lookup_r _ _ _ _ _ HFb Hi) as (g & Hg & _ & Hp & _).
    rewrite Hp. eapply (Forall_lookup_1 _ _ _ _ Hexp). eassumption. }
  assert (Hagree : export_agrees sfs dfs).
  { intros sf df Hsf _ _ _. eapply (proj1 (Forall_forall _ _) Hall).
    exact Hsf. }
  assert (Hload : load h ad [] = Some (VStruct dvs)).
  { unfold load. rewrite Hhd. reflexivity. }
  destruct (scanInto_record (TStruct sfs) (TStruct dfs) sfs dfs svs dvs ad [] fields h
              eq_refl eq_refl Hload Hld Hlb Hagree) as (h' & Hrun & Hst).
  set (new := scan_fold fields dfs sfs svs dvs) in *.
  assert (Hh' : h' = <[ad := VStruct new]> h).
  { unfold store in Hst. rewrite Hhd in Hst. cbn in Hst. congruence. }
  subst h'.
  assert (Hspec := scan_fold_spec fields dfs sfs svs dvs).
  exists (IVal (TPtr (TStruct dfs)) (VPtr (Some (ad, [])))), new.
  split; [| split; [| split; [| split; [| split]]]].
  - unfold PtrTo, bind. rewrite checkMade_true by apply HBd. rewrite Hvd. reflexivity.
  - destruct (ScanInto_builder b h _ ab (IVal (TPtr (TStruct dfs)) (VPtr (Some (ad, []))))
                fields HBb Hvb) as (vs0 & Hvs0 & ->).
    rewrite Hhb in Hvs0. injection Hvs0 as <-. exact Hrun.
  - eapply Built_replace; [exact HBd | exact Hhd |]. apply scan_fold_length.
  - apply scan_fold_length.
  - intros j. apply Hspec; try assumption.
    eapply StructOf_exported_distinct. eassumption.
  - intros Hsame ->. rewrite Hsame in Hsod.
    assert (dfs = sfs) as -> by congruence.
    apply list_eq. intros j.
    destruct (sfs !! j) as [sf |] eqn:Hj.
    + destruct (Hspec j Hlb Hld) as [H1 _]; try assumption.
      { eapply StructOf_exported_distinct. eassumption. }
      apply H1. exists sf, sf.
      destruct (Forall2_lookup_r _ _ _ _ _ HFb Hj) as (g & Hg & Hgn & Hgp & _).
      assert (Hpk : tf_pkg sf = "") by (eapply (Forall_lookup_1 _ _ _ _ Hall); eassumption).
      assert (Hin : g ∈ fieldsByName b) by (eapply list_elem_of_lookup_2; eassumption).
      destruct (StructOf_loop_exported _ _ _ _ _ _ Hsob Hin) as [Hbl Hne]; [congruence |].
      destruct (StructOf_loop_index _ _ _ _ _ _ _ Hsob Hg Hbl) as [E _].
      repeat split; try assumption; try reflexivity.
      * left. reflexivity.
      * unfold lookup_field. rewrite Hgn. rewrite decide_False by assumption. exact E.
    + apply lookup_ge_None in Hj.
      rewrite !(proj2 (lookup_ge_None _ _)); [reflexivity | lia |].
      subst new. rewrite scan_fold_length. lia.
Qed.

(** ** From *)

Lemma AddField_run (s : Struct) (name enc : string) (ty : option GoType)
    (required : list bool) (h : heap) :
  name <> EmptyString -> name ∉ Name <$> fieldsByName s ->
  AddField s name enc ty required h =
  Ret {| tag := tag s;
         fieldsByName := fieldsByName s ++ [added_field s name enc ty required];
         sstruct := sstruct s; structValue := structValue s; made := false |} h.
Proof.
  intros Hne Hnin.
  destruct (AddField_outcome s name enc ty required h) as (_ & Hok & Hret).
  destruct (proj2 Hok) as (s' & h' & E).
  { intros [? | ?]; contradiction. }
  destruct (Hret _ _ E) as [-> ->]. exact E.
Qed.

Lemma From_rounds_kept (tg : string) (fs : list TField) :
  forall pre ty v h,
    Forall (fun f => tf_name f <> EmptyString) (From_kept tg fs) ->
    NoDup ((Name <$> pre) ++ (tf_name <$> From_kept tg fs)) ->
    From_rounds tg fs
      {| tag := tg; fieldsByName := pre; sstruct := ty; structValue := v;
         made := false |} h
    = Ret {| tag := tg;
             fieldsByName := pre ++ (From_descriptor tg <$> From_kept tg fs);
             sstruct := ty; structValue := v; made := false |} h.
Proof.
  induction fs as [| f rest IH]; intros pre ty v h Hne Hnd.
  - cbn. rewrite app_nil_r. reflexivity.
  - cbn [From_rounds]. unfold From_round, bind, From_kept in *.
    rewrite filter_cons in *.
    destruct (decide (StructTag.Get (tf_tag f) tg <> "-")) as [Hk | Hk].
    + rewrite bool_decide_eq_false_2 by assumption.
      apply Forall_cons in Hne as [Hn Hne]. cbn [fmap list_fmap] in Hnd.
      rewrite AddField_run.
      * cbn [tag fieldsByName sstruct structValue].
        rewrite IH.
        -- rewrite <- app_assoc. reflexivity.
        -- assumption.
        -- rewrite fmap_app, <- app_assoc. exact Hnd.
      * assumption.
      * cbn [fieldsByName]. apply NoDup_app in Hnd as (_ & Hd & _).
        intros Hin. apply (Hd _ Hin). left.
    + rewrite bool_decide_eq_true_2 by (destruct (decide (StructTag.Get (tf_tag f) tg = "-")); [assumption | contradiction]).
      unfold ret at 1. apply IH; assumption.
Qed.


Lemma From_names_rounds (T : GoType) (fs : list TField) (tg : string) :
  underlying T = TStruct fs ->
  forall names s h,
    Forall (fun n => is_Some (named_field fs n)) names ->
    From_names (Some T) tg names s h
    = From_rounds tg (omap (named_field fs) names) s h.
Proof.
  intros HT. induction names as [| n rest IH]; intros s h Hall; [reflexivity |].
  apply Forall_cons in Hall as [[f Hf] Hall].
  cbn [From_names omap list_omap]. rewrite Hf. cbn [From_rounds].
  unfold named_field in Hf.
  destruct (lookup_field (TStruct fs) n) as [i |] eqn:Hi; [| discriminate].
  cbn in Hf.
  assert (Hn : tf_name f = n).
  { unfold lookup_field in Hi. destruct (decide (n = "")); [discriminate |].
    apply field_index_lookup in Hi as (f' & Hf' & E).
    change (struct_fields (TStruct fs)) with fs in Hf'. congruence. }
  unfold bind at 1. unfold Type_FieldByName. rewrite HT.
  rewrite (lookup_field_underlying T fs n HT), Hi.
  unfold bind at 1. rewrite (Type_Field_struct T fs i f h HT Hf).
  unfold ret at 1. cbn [Tag Name Type_]. unfold From_round. rewrite Hn.
  destruct (bool_decide (StructTag.Get (tf_tag f) tg = "-")).
  + unfold bind, ret. apply IH. assumption.
  + unfold bind. destruct (AddField _ _ _ _ _ h); [apply IH; assumption | reflexivity].
Qed.

Lemma New_Elem {A} (T : GoType) (k : M A) (h : heap) :
  (p <- reflect.New (Some T);; Elem p;;; k) h = k (h ++ [zero T]).
Proof. reflexivity. Qed.

(** X19: what From does with an argument that is not a struct.  A
    [reflect.Value] or [reflect.Type] of another kind panics with the
    package's message naming the kind, on the heap as it was; a Struct
    that was never built and the nil interface panic in
    [reflect.New]; any other value of a kind other than Struct (a
    pointer to a struct too) panics in [reflect], after the
    allocation of a zero value of its type. *)
Theorem From_not_struct (tg : string) (fields : list string) (h : heap) :
  (forall v,
     Kind_ v <> Struct_ ->
     From (FromValue v) tg fields h
     = Panic ("Cannot create struct from value of type " +:+ Kind_String (Kind_ v)) h) /\
  (forall t,
     kindOf t <> Struct_ ->
     From (FromType t) tg fields h
     = Panic ("Cannot create struct from type of type " +:+ Kind_String (kindOf t)) h) /\
  (forall b,
     sstruct b = None ->
     From (FromStruct b) tg fields h = Panic "reflect: New(nil)" h) /\
  From (FromOther INil) tg fields h = Panic "reflect: New(nil)" h /\
  (forall t v,
     kindOf t <> Struct_ ->
     exists msg, From (FromOther (IVal t v)) tg fields h = Panic msg (h ++ [zero t])).
Proof.
  split; [| split; [| split; [| split]]].
  - intros v Hk. unfold From, bind.
    rewrite bool_decide_eq_false_2 by assumption. reflexivity.
  - intros t Hk. unfold From, bind.
    rewrite bool_decide_eq_false_2 by assumption. reflexivity.
  - intros b Hb. unfold From, bind. rewrite Hb. reflexivity.
  - reflexivity.
  - intros t v Hk.
    assert (Hu : forall fs, underlying t <> TStruct fs).
    { intros fs E. apply Hk. eapply underlying_kind. eassumption. }
    unfold From. cbn [TypeOf]. unfold bind at 1.
    rewrite New_Elem. unfold ret at 1.
    destruct fields as [| n rest]; cbn [List.length Nat.ltb Nat.leb].
    + unfold bind, Type_NumField.
      destruct (underlying t) eqn:E; try (eexists; reflexivity).
      exfalso. eapply Hu. reflexivity.
    + cbn [From_names]. unfold bind, Type_FieldByName.
      destruct (underlying t) eqn:E; try (eexists; reflexivity).
      exfalso. eapply Hu. reflexivity.
Qed.




Lemma From_names_app (t : option GoType) (tg : string) (l1 l2 : list string) :
  forall s g,
    From_names t tg (l1 ++ l2) s g
    = (s' <- From_names t tg l1 s;; From_names t tg l2 s') g.
Proof.
  induction l1 as [| m l1 IH]; intros s g; [reflexivity |].
  cbn [app From_names]. unfold bind in *.
  destruct (Type_FieldByName t m g) as [[f |] g1 | msg g1]; [| | reflexivity].
  - destruct (bool_decide _); [apply IH |].
    destruct (AddField _ _ _ _ _ g1); [apply IH | reflexivity].
  - destruct (Type_Name t g1); reflexivity.
Qed.

(** X21: From with names, on a struct type [T].  When every name is
    a field of [T] and the kept ones are distinct, the builder has one
    descriptor per kept name, in the order of the names given, not of
    the type.  At the first name that is not a field of [T], From
    panics with "Field <name> does not exist in struct <type name>". *)
Theorem From_names_spec (T : GoType) (fs : list TField) (tg : string)
    (fields : list string) (h : heap) :
  underlying T = TStruct fs -> fields <> [] ->
  (Forall (fun n => is_Some (named_field fs n)) fields ->
   let kept := From_kept tg (omap (named_field fs) fields) in
   NoDup (tf_name <$> kept) ->
   From (FromType T) tg fields h = Ret (From_result tg kept) (h ++ [zero T])) /\
  (forall pre n post,
     fields = pre ++ n :: post ->
     Forall (fun n => is_Some (named_field fs n)) pre ->
     NoDup (tf_name <$> From_kept tg (omap (named_field fs) pre)) ->
     named_field fs n = None ->
     exists name,
       Type_Name (Some T) (h ++ [zero T]) = Ret name (h ++ [zero T]) /\
       From (FromType T) tg fields h
       = Panic ("Field " +:+ n +:+ " does not exist in struct " +:+ name)
           (h ++ [zero T])).
Proof.
  intros HT Hne.
  assert (Hk : kindOf T = Struct_) by (eapply underlying_kind; eassumption).
  assert (Hpre : From (FromType T) tg fields h
                 = From_names (Some T) tg fields (New tg) (h ++ [zero T])).
  { unfold From. rewrite bool_decide_eq_true_2 by assumption. cbn [negb].
    unfold bind at 1. rewrite New_Elem. unfold ret at 1.
    destruct fields; [contradiction | reflexivity]. }
  assert (Hnames : forall names g,
            Forall (fun n => is_Some (named_field fs n)) names ->
            NoDup (tf_name <$> From_kept tg (omap (named_field fs) names)) ->
            From_rounds tg (omap (named_field fs) names) (New tg) g
            = Ret (From_result tg (From_kept tg (omap (named_field fs) names))) g).
  { intros names g Hall Hnd. unfold New. rewrite From_rounds_kept; [reflexivity | | exact Hnd].
    apply Forall_forall. intros f Hf.
    apply list_elem_of_filter in Hf as [_ Hf].
    apply list_elem_of_omap in Hf as (n & _ & Hn).
    unfold named_field in Hn.
    destruct (lookup_field (TStruct fs) n) as [i |] eqn:Hi; [| discriminate].
    cbn in Hn. unfold lookup_field in Hi.
    destruct (decide (n = "")); [discriminate |].
    apply field_index_lookup in Hi as (f' & Hf' & E).
    change (struct_fields (TStruct fs)) with fs in Hf'. congruence. }
  split.
  - intros Hall kept Hnd. rewrite Hpre.
    rewrite (From_names_rounds T fs tg HT) by assumption.
    apply Hnames; assumption.
  - intros pre n post -> Hall Hnd Hnone.
    assert (Hname : exists name, forall g, Type_Name (Some T) g = Ret name g).
    { unfold Type_Name. destruct T; eexists; intros g; reflexivity. }
    destruct Hname as [name Hname]. exists name. split; [apply Hname |].
    rewrite Hpre. clear Hpre Hne.
    rewrite From_names_app. unfold bind at 1.
    rewrite (From_names_rounds T fs tg HT) by assumption.
    rewrite Hnames by assumption.
    cbn [From_names]. unfold bind at 1. unfold Type_FieldByName. rewrite HT.
    rewrite (lookup_field_underlying T fs n HT).
    unfold named_field in Hnone.
    destruct (lookup_field (TStruct fs) n) as [i |] eqn:Hi.
    + cbn in Hnone. unfold lookup_field in Hi.
      destruct (decide (n = "")); [discriminate |].
      apply field_index_lookup in Hi as (f' & Hf' & E).
      change (struct_fields (TStruct fs)) with fs in Hf'. congruence.
    + unfold ret at 1. unfold bind. rewrite Hname. reflexivity.
Qed.

Lemma From_names_spec_witness :
  underlying Point = TStruct (struct_fields Point) /\
  (exists s h,
     From (FromType Point) "json" ["Label"; "X"] [] = Ret s h /\
     Name <$> fieldsByName s = ["Label"; "X"]) /\
  exists h,
    From (FromType Point) "json" ["X"; "Nope"] []
    = Panic "Field Nope does not exist in struct Point" h.
Proof.
  split; [reflexivity |].
  assert (H1 : ["Label"; "X"] <> []) by discriminate.
  assert (H2 : ["X"; "Nope"] <> []) by discriminate.
  split.
  - destruct (From_names_spec Point _ "json" ["Label"; "X"] [] eq_refl H1) as [H _].
    do 2 eexists. split.
    + apply H.
      * repeat constructor; eexists; reflexivity.
      * refine (bool_decide_unpack _ _). vm_compute. exact I.
    + reflexivity.
  - destruct (From_names_spec Point _ "json" ["X"; "Nope"] [] eq_refl H2) as [_ H].
    destruct (H ["X"] "Nope" [] eq_refl) as (name & Hn & Hp).
    + repeat constructor. eexists. reflexivity.
    + refine (bool_decide_unpack _ _). vm_compute. exact I.
    + reflexivity.
    + injection Hn as <-. eexists. exact Hp.
Defined.

Lemma two_persons_built :
  Built (fst (fst two_persons)) (snd two_persons) /\
  Built (snd (fst two_persons)) (snd two_persons).
Proof.
  split; (split; [reflexivity |]); do 3 eexists; repeat split; reflexivity.
Qed.

Lemma ScanInto_between_builders_witness :
  Built (fst (fst two_persons)) (snd two_persons) /\
  Built (snd (fst two_persons)) (snd two_persons) /\
  exists dest,
    PtrTo (snd (fst two_persons)) (snd two_persons) = Ret dest (snd two_persons) /\
    ScanInto (StructPtr (fst (fst two_persons))) dest [] (snd two_persons)
    = Ret None [VStruct [VString ""; VInt 23; VBool false];
                VStruct [VString ""; VInt 23; VBool false]].
Proof.
  destruct two_persons_built as [HB HD].
  split; [exact HB |]. split; [exact HD |].
  assert (Hall : Forall (fun f => PkgPath f = EmptyString)
                   (fieldsByName (fst (fst two_persons)))).
  { repeat constructor. }
  destruct (ScanInto_between_builders (fst (fst two_persons)) (snd (fst two_persons))
              (snd two_persons) (TStruct person_fields) (TStruct person_fields)
              0%nat 1%nat [VString ""; VInt 23; VBool false]
              [VString ""; VInt 0; VBool false] [] HB HD eq_refl eq_refl eq_refl eq_refl
              Hall) as (dest & new & HP & HS & _ & _ & _ & Hnew).
  rewrite (Hnew eq_refl eq_refl) in HS.
  exists dest. split; [exact HP | exact HS].
Defined.






(** ** DeepCopy and the accessors *)



(** X4: on a built Struct, FieldByName returns the zero Value, and
    does not panic, for a name no descriptor has; for the exported
    descriptor at position [i] it returns the field of the instance
    itself, settable: a [Set] through it stores into the instance, the
    builder stays built and GetField returns the value set. *)
Theorem FieldByName_settable (s : Struct) (h : heap) (T : GoType) (a : nat)
    (name : string) :
  Built s h -> structValue s = Place T false a [] ->
  (name ∉ Name <$> fieldsByName s -> FieldByName s name h = Ret Zero h) /\
  (forall i f ty x,
     fieldsByName s !! i = Some f -> Name f = name -> PkgPath f = EmptyString ->
     Type_ f = Some ty ->
     let field := Place ty false a [i] in
     FieldByName s name h = Ret field h /\
     CanSet field = true /\
     exists h',
       Set_ field (Imm ty false x) h = Ret tt h' /\
       Built s h' /\
       GetField s name h' = Ret (IVal ty x) h').
Proof.
  intros HB Hv. split.
  - intros Hn.
    destruct (Built_place _ _ _ _ HB Hv) as (fs & vs & -> & _ & _ & _ & Hso).
    pose proof (StructOf_loop_fields _ _ _ _ _ Hso) as HF.
    unfold FieldByName, bind. rewrite checkMade_true by apply HB.
    rewrite Hv, FieldByName_place, lookup_field_absent; [reflexivity |].
    change (struct_fields (TStruct fs)) with fs.
    rewrite (field_of_names _ _ HF). assumption.
  - intros i f ty x Hi <- Hp Hty field.
    destruct (Built_exported_field _ _ _ _ _ _ HB Hv Hi Hp)
      as (fs & vs & ty' & -> & Hm & Hh & Hl & Hty' & Hlk & Hf).
    assert (ty' = ty) as -> by congruence.
    assert (Hlt : (i < List.length vs)%nat) by (apply lookup_lt_Some in Hf; lia).
    split; [| split; [reflexivity |]].
    + unfold FieldByName, bind. rewrite checkMade_true by assumption.
      rewrite Hv, FieldByName_place, Hlk, Hf. reflexivity.
    + exists (<[a := VStruct (<[i := x]> vs)]> h). split; [| split].
      * apply (Set_place ty ty a [i] (Imm ty false x) x h); try reflexivity.
        -- apply directlyAssignable_refl.
        -- apply store_field; assumption.
      * apply Built_store; assumption.
      * rewrite (GetField_run s fs a _ _ Hm Hv), Hlk, Hf. cbn.
        rewrite (load_field _ a i (<[i:=x]> vs)).
        -- rewrite list_lookup_insert_eq by assumption. reflexivity.
        -- apply list_lookup_insert_eq. eapply lookup_lt_Some. eassumption.
Qed.

Lemma FieldByName_settable_witness :
  Built (fst person_state) (snd person_state) /\
  FieldByName (fst person_state) "Email" (snd person_state)
  = Ret Zero (snd person_state) /\
  FieldByName (fst person_state) "Age" (snd person_state)
  = Ret (Place TInt false 0 [1%nat]) (snd person_state).
Proof.
  split; [exact person_built |]. split.
  - destruct (FieldByName_settable (fst person_state) (snd person_state)
                (TStruct person_fields) 0%nat "Email" person_built eq_refl) as [H _].
    apply H. vm_compute. intros Hin.
    repeat (apply elem_of_cons in Hin as [Hin | Hin]; [discriminate Hin |]).
    now apply not_elem_of_nil in Hin.
  - destruct (FieldByName_settable (fst person_state) (snd person_state)
                (TStruct person_fields) 0%nat "Age" person_built eq_refl) as [_ H].
    apply (H 1%nat _ TInt (VInt 0) eq_refl eq_refl eq_refl eq_refl).
Defined.

Lemma StructOf_loop_typed (fields : list StructField) :
  forall i pk seen tfs f,
    StructOf_loop i pk seen fields = inr tfs -> f ∈ fields -> Type_ f <> None.
Proof.
  induction fields as [| g rest IH]; intros i pk seen tfs f H Hin.
  - inversion Hin.
  - apply StructOf_loop_cons in H as (ft & tfs' & pk' & -> & Ht & _ & _ & _ & _ & Hrec).
    apply elem_of_cons in Hin as [-> | Hin]; [congruence | eapply IH; eassumption].
Qed.

(** X15: StructField with another builder.  When the other one was
    never built its type is nil, the descriptor is added all the same,
    and every later Make panics.  When it was built, and the name is
    exportable, Make returns a built Struct in which the field holds a
    zero record of the other's type: the other's instance is not
    referred to. *)
Theorem StructField_nested (s s1 other : Struct) (h h1 : heap) (fs : list TField)
    (name enc : string) (required : list bool) :
  StructOf_loop 0 EmptyString [] (fieldsByName s) = inr fs ->
  StructField_ s name enc other required h = Ret s1 h1 ->
  (sstruct other = None -> forall g, exists msg, Make s1 g = Panic msg g) /\
  (forall To,
     sstruct other = Some To ->
     isValidFieldName name = true ->
     (forall c r, name = String c r -> Str.is_lower c || Str.is_underscore c = false) ->
     forall g, exists s2 g2,
       Make s1 g = Ret s2 g2 /\ Built s2 g2 /\
       GetField s2 name g2 = Ret (IVal To (zero To)) g2).
Proof.
  intros Hso Hadd. unfold StructField_ in Hadd.
  destruct (AddField_outcome s name enc (sstruct other) required h) as (Hpanic & _ & Hret).
  destruct (Hret _ _ Hadd) as [-> ->].
  assert (Hnin : name ∉ Name <$> fieldsByName s).
  { intros Hin. destruct (proj2 Hpanic (or_intror Hin)) as (msg & h' & E). congruence. }
  set (f := added_field s name enc (sstruct other) required) in *.
  split.
  - intros Hnone g.
    destruct (StructOf_loop 0 "" [] (fieldsByName s ++ [f])) as [e | tfs] eqn:E.
    + exists e. unfold Make, StructOf, bind. cbn [made negb fieldsByName]. rewrite E.
      reflexivity.
    + exfalso. eapply (StructOf_loop_typed _ _ _ _ _ f E).
      * apply elem_of_app. right. left.
      * exact Hnone.
  - intros To HTo Hvalid Hlow g.
    set (T' := TStruct (fs ++ [mkTField name "" (Tag f) To])).
    assert (Hso' : StructOf_loop 0 "" [] (fieldsByName s ++ [f])
                   = inr (fs ++ [mkTField name "" (Tag f) To])).
    { apply (StructOf_loop_snoc (fieldsByName s) 0%nat "" [] fs f To Hso).
      - split; reflexivity.
      - split; [exact Hvalid | split; [exact Hlow |]]. subst f. cbn. congruence.
      - exact HTo.
      - intros Hin. inversion Hin.
      - exact Hnin. }
    match goal with |- context [Make ?x g] => set (s1 := x) end.
    assert (HM : Make s1 g =
                 Ret (set_value (set_type s1 T') (Place T' false (List.length g) []))
                   (g ++ [zero T'])).
    { apply Make_not_made; [reflexivity | exact Hso']. }
    do 2 eexists. split; [exact HM |]. split.
    + eapply Make_Built; [| exact HM]. left. reflexivity.
    + assert (Hlen : List.length (fieldsByName s) = List.length fs).
      { eapply Forall2_length, StructOf_loop_fields. eassumption. }
      assert (Hb : name <> "_").
      { intros ->. specialize (Hlow _ _ eq_refl). discriminate. }
      assert (Hj : (fieldsByName s ++ [f]) !! List.length fs = Some f).
      { rewrite lookup_app_r by lia. rewrite Hlen, Nat.sub_diag. reflexivity. }
      destruct (StructOf_loop_index _ _ _ _ _ _ _ Hso' Hj Hb) as [Hidx _].
      rewrite (GetField_run _ (fs ++ [mkTField name "" (Tag f) To])
                 (List.length g) name _); [| reflexivity | reflexivity].
      unfold lookup_field.
      rewrite decide_False by (intros ->; discriminate).
      change (struct_fields (TStruct ?x)) with x. change (Name f) with name in Hidx.
      rewrite Hidx.
      rewrite lookup_app_r by lia. rewrite Nat.sub_diag. cbn [lookup list_lookup tf_pkg tf_type].
      rewrite bool_decide_eq_true_2 by reflexivity.
      rewrite (load_field _ (List.length g) (List.length fs)
                 (List.map zero_field (fs ++ [mkTField name "" (Tag f) To]))).
      2:{ rewrite lookup_app_r by lia. rewrite Nat.sub_diag. reflexivity. }
      rewrite map_app. rewrite lookup_app_r by (rewrite length_map; lia).
      rewrite length_map, Nat.sub_diag. reflexivity.
Qed.

Lemma StructField_nested_witness :
  StructOf_loop 0 EmptyString [] (fieldsByName (New "json")) = inr [] /\
  exists s1 s2 g2,
    StructField_ (New "json") "Owner" "owner" (fst person_state) [] (snd person_state)
    = Ret s1 (snd person_state) /\
    Make s1 (snd person_state) = Ret s2 g2 /\
    GetField s2 "Owner" g2
    = Ret (IVal (TStruct person_fields) (VStruct [VString ""; VInt 0; VBool false])) g2.
Proof.
  split; [reflexivity |].
  assert (Hlow : forall c r, "Owner" = String c r ->
                             Str.is_lower c || Str.is_underscore c = false).
  { intros c r [= <- <-]. reflexivity. }
  destruct (StructField_nested (New "json") _ (fst person_state) (snd person_state) _ []
              "Owner" "owner" [] eq_refl eq_refl) as [_ H].
  destruct (H (TStruct person_fields) eq_refl eq_refl Hlow (snd person_state))
    as (s2 & g2 & HM & _ & HG).
  eexists. exists s2, g2. split; [reflexivity |]. split; [exact HM | exact HG].
Defined.

(** ** The typed adders *)

Lemma AddField_roundtrip (s : Struct) (fs : list TField) (name enc : string)
    (ty : GoType) (required : list bool) :
  StructOf_loop 0 EmptyString [] (fieldsByName s) = inr fs ->
  isValidFieldName name = true ->
  (forall c r, name = String c r -> Str.is_lower c || Str.is_underscore c = false) ->
  kindOf ty <> Ptr ->
  roundtrip_after (AddField s name enc (Some ty) required) name ty.
Proof.
  intros Hso Hvalid Hlow Hk h s1 h1 Hadd g x.
  destruct (AddField_outcome s name enc (Some ty) required h) as (Hpanic & _ & Hret).
  destruct (Hret _ _ Hadd) as [-> ->].
  assert (Hnin : name ∉ Name <$> fieldsByName s).
  { intros Hin. destruct (proj2 Hpanic (or_intror Hin)) as (msg & h' & E). congruence. }
  set (f := added_field s name enc (Some ty) required) in *.
  set (fs' := fs ++ [mkTField name "" (Tag f) ty]).
  assert (Hso' : StructOf_loop 0 "" [] (fieldsByName s ++ [f]) = inr fs').
  { apply (StructOf_loop_snoc (fieldsByName s) 0%nat "" [] fs f ty Hso).
    - split; reflexivity.
    - split; [exact Hvalid | split; [exact Hlow | discriminate]].
    - reflexivity.
    - intros Hin. inversion Hin.
    - exact Hnin. }
  match goal with |- context [Make ?y g] => set (s1 := y) end.
  set (a := List.length g).
  set (s2 := set_value (set_type s1 (TStruct fs')) (Place (TStruct fs') false a [])).
  assert (HM : Make s1 g = Ret s2 (g ++ [zero (TStruct fs')])).
  { apply Make_not_made; [reflexivity | exact Hso']. }
  assert (Hlen : List.length (fieldsByName s) = List.length fs).
  { eapply Forall2_length, StructOf_loop_fields. eassumption. }
  assert (Hb : name <> "_").
  { intros ->. specialize (Hlow _ _ eq_refl). discriminate. }
  assert (Hj : (fieldsByName s ++ [f]) !! List.length fs = Some f).
  { rewrite lookup_app_r by lia. rewrite Hlen, Nat.sub_diag. reflexivity. }
  destruct (StructOf_loop_index _ _ _ _ _ _ _ Hso' Hj Hb) as [Hidx _].
  change (Name f) with name in Hidx.
  assert (Hlk : lookup_field (TStruct fs') name = Some (List.length fs)).
  { unfold lookup_field. rewrite decide_False by (intros ->; discriminate). exact Hidx. }
  assert (Hf : fs' !! List.length fs = Some (mkTField name "" (Tag f) ty)).
  { subst fs'. rewrite lookup_app_r by lia. rewrite Nat.sub_diag. reflexivity. }
  set (zs := List.map zero_field fs').
  assert (Hcell : (g ++ [zero (TStruct fs')]) !! a = Some (VStruct zs)).
  { subst a. rewrite lookup_app_r by lia. rewrite Nat.sub_diag. reflexivity. }
  assert (Hlt : (List.length fs < List.length zs)%nat).
  { subst zs fs'. rewrite length_map, length_app. cbn. lia. }
  exists s2, (g ++ [zero (TStruct fs')]),
    (<[a := VStruct (<[List.length fs := x]> zs)]> (g ++ [zero (TStruct fs')])).
  split; [exact HM |]. split.
  - rewrite (SetField_run s2 fs' a name _ _ eq_refl eq_refl), Hlk, Hf.
    unfold set_found, elem_if_ptr, bind. cbn [valueOf ValueOf Kind_ tf_type tf_pkg].
    rewrite decide_False by exact Hk. unfold ret at 1.
    rewrite bool_decide_eq_true_2 by reflexivity. cbn [negb].
    rewrite bool_decide_eq_true_2 by reflexivity. cbn [negb].
    apply (Set_place ty ty a [List.length fs] (Imm ty false x) x); try reflexivity.
    + apply directlyAssignable_refl.
    + apply store_field; assumption.
  - rewrite (GetField_run s2 fs' a name _ eq_refl eq_refl), Hlk, Hf.
    cbn [tf_pkg tf_type]. rewrite bool_decide_eq_true_2 by reflexivity.
    rewrite (load_field _ a (List.length fs) (<[List.length fs := x]> zs)).
    + rewrite list_lookup_insert_eq by assumption. reflexivity.
    + apply list_lookup_insert_eq. eapply lookup_lt_Some. eassumption.
Qed.

(** X23: the typed adders end to end.  On a builder whose pending
    descriptors build, after StringField, IntField, FloatField,
    BoolField, SliceField, MapField (with a comparable key type) or
    StructField (with a built Struct) has added a field of exportable
    name, Make returns, SetField with a value of exactly the field's
    type returns, and GetField then returns that value. *)
Theorem typed_adders_roundtrip (s : Struct) (fs : list TField) (name enc : string)
    (required : list bool) :
  StructOf_loop 0 EmptyString [] (fieldsByName s) = inr fs ->
  isValidFieldName name = true ->
  (forall c r, name = String c r -> Str.is_lower c || Str.is_underscore c = false) ->
  roundtrip_after (StringField s name enc required) name TString /\
  roundtrip_after (IntField s name enc required) name TInt /\
  roundtrip_after (FloatField s name enc required) name TFloat64 /\
  roundtrip_after (BoolField s name enc required) name TBool /\
  (forall e, roundtrip_after (SliceField s name enc e required) name (TSlice e)) /\
  (forall k e, roundtrip_after (MapField s name enc k e required) name (TMap k e)) /\
  (forall other To,
     sstruct other = Some To -> kindOf To <> Ptr ->
     roundtrip_after (StructField_ s name enc other required) name To).
Proof.
  intros Hso Hvalid Hlow.
  assert (H : forall ty, kindOf ty <> Ptr ->
                         roundtrip_after (AddField s name enc (Some ty) required) name ty).
  { intros ty Hk. eapply AddField_roundtrip; eassumption. }
  split; [apply H; discriminate |]. split; [apply H; discriminate |].
  split; [apply H; discriminate |]. split; [apply H; discriminate |].
  split; [intros e; apply H; discriminate |]. split.
  - intros k e h s1 h1 Hadd. unfold MapField in Hadd.
    destruct (negb (Comparable k)); [discriminate |].
    exact (H (TMap k e) ltac:(discriminate) h s1 h1 Hadd).
  - intros other To HTo Hk. unfold StructField_. rewrite HTo. apply H. exact Hk.
Qed.

Lemma typed_adders_roundtrip_witness :
  StructOf_loop 0 EmptyString [] (fieldsByName (New "json")) = inr [] /\
  exists s2 g2 g3,
    (s1 <- StringField (New "json") "Name" "name" [];; Make s1) [] = Ret s2 g2 /\
    SetField s2 "Name" (OtherValue (IVal TString (VString "Nigel"))) g2 = Ret tt g3 /\
    GetField s2 "Name" g3 = Ret (IVal TString (VString "Nigel")) g3.
Proof.
  split; [reflexivity |].
  assert (Hlow : forall c r, "Name" = String c r ->
                             Str.is_lower c || Str.is_underscore c = false).
  { intros c r [= <- <-]. reflexivity. }
  destruct (typed_adders_roundtrip (New "json") [] "Name" "name" [] eq_refl eq_refl Hlow)
    as (H & _).
  destruct (H [] _ [] eq_refl [] (VString "Nigel")) as (s2 & g2 & g3 & HM & HS & HG).
  exists s2, g2, g3. split; [| split; [exact HS | exact HG]].
  unfold bind. cbn [StringField]. exact HM.
Defined.
